(** * Home.tsx: drawing surface, snapshot history and generation bridge

    A shallow embedding of the [Home] component of [src/Home.tsx].

    - JavaScript numbers that hold coordinates and sizes are IEEE 754
      binary64 values ([PrimFloat.float]) with the arithmetic specified in
      [SpecFloat]; the history index and the canvas dimensions are
      integers ([Z]).
    - The component state ([useState] cells and [useRef] cells) is one
      record, [Home]; every handler is a function on it.  A handler sees
      the state of the render it was created in; the model runs one
      handler per render, so that state is the current one.
    - The browser is outside the repository.  The 2D context is modelled
      by the picture its calls build up ([Bitmap]); the PNG encoder behind
      [toDataURL] is a parameter ([PngEncoder]), and so is the decoder
      that decides whether a generated image loads ([ImageDecoder]); an
      image element is identified by its [src], and the [onload] callback
      of an image that loads is run at once.
    - The external generation call is split at its [await]:
      [handleSubmit_start] runs up to the call and returns the request it
      sends, [handleSubmit_settle] resumes with the outcome.
    - Left out: console output and the markup of the dialogs, which
      neither read nor write the canvas or the history. *)

From Stdlib Require Import ZArith String Ascii Bool Lia.
From Stdlib Require Import PrimFloat Uint63 SpecFloat FloatOps FloatAxioms.
From stdpp Require Import base tactics option list.

Local Open Scope string_scope.
Local Open Scope list_scope.
Local Open Scope Z_scope.

(** Concatenation of strings, [a + b] and template literals. *)
Local Infix "+:+" := String.append (at level 60, right associativity).

(* ------------------------------------------------------------------ *)
(** ** JavaScript values used by the component *)

Module JS.

(** [!s] is true exactly for the empty string. *)
Definition truthy (s : string) : bool :=
  match s with EmptyString => false | String _ _ => true end.

(** Truthiness of a value that is a string or [undefined]/[null]. *)
Definition truthy_opt (o : option string) : bool :=
  match o with Some s => truthy s | None => false end.

(** Truthiness of a number: [0], [-0] and [NaN] are falsy. *)
Definition truthy_num (x : float) : bool :=
  negb (PrimFloat.is_zero x || PrimFloat.is_nan x).

(** [a || b] where [a] is a number or [undefined] and [b] a number. *)
Definition or_num (a : option float) (b : float) : float :=
  match a with
  | Some x => if truthy_num x then x else b
  | None => b
  end.

(** [Object.is(a, b)] for two values that are strings or [null]. *)
Definition same (a b : option string) : bool :=
  match a, b with
  | Some x, Some y => String.eqb x y
  | None, None => true
  | _, _ => false
  end.

(** [arr[i]] for an integer [i]: [undefined] outside the array. *)
Definition nth {A} (arr : list A) (i : Z) : option A :=
  if i <? 0 then None else arr !! Z.to_nat i.

(** [arr.slice(0, e)] for an integer [e]: a negative [e] counts from the
    end of the array. *)
Definition slice0 {A} (arr : list A) (e : Z) : list A :=
  let len := Z.of_nat (length arr) in
  let k := if e <? 0 then Z.max (len + e) 0 else Z.min e len in
  take (Z.to_nat k) arr.

(** [arr.length - 1] *)
Definition last_index {A} (arr : list A) : Z := Z.of_nat (length arr) - 1.

(** The number of an integer-valued DOM attribute. *)
Definition num (z : Z) : float := PrimFloat.of_uint63 (Uint63.of_Z z).

(** [Math.min(a, b)]: [NaN] if either is, and [-0] below [+0]. *)
Definition Math_min (a b : float) : float :=
  if PrimFloat.is_nan a || PrimFloat.is_nan b then PrimFloat.nan
  else if PrimFloat.ltb a b then a
  else if PrimFloat.ltb b a then b
  else if PrimFloat.get_sign a then a else b.

(** [s.split(',')[1]]: the text between the first comma and the next
    one (or the end); [undefined] when [s] has no comma. *)
Fixpoint upto_comma (s : string) : string :=
  match s with
  | EmptyString => EmptyString
  | String c r => if Ascii.eqb c "," then EmptyString else String c (upto_comma r)
  end.

Fixpoint split_comma_1 (s : string) : option string :=
  match s with
  | EmptyString => None
  | String c r => if Ascii.eqb c "," then Some (upto_comma r) else split_comma_1 r
  end.

(** Case-insensitive search, as [/needle/i.test(s)] for a needle made of
    letters and spaces. *)
Definition lower (c : ascii) : ascii :=
  let n := nat_of_ascii c in
  if ((65 <=? n)%nat && (n <=? 90)%nat)%bool then ascii_of_nat (n + 32) else c.

Fixpoint prefix_ci (p s : string) : bool :=
  match p, s with
  | EmptyString, _ => true
  | String _ _, EmptyString => false
  | String a p', String b s' => Ascii.eqb (lower a) (lower b) && prefix_ci p' s'
  end.

Fixpoint test_ci (needle s : string) : bool :=
  prefix_ci needle s ||
  match s with
  | EmptyString => false
  | String _ s' => test_ci needle s'
  end.

End JS.

(* ------------------------------------------------------------------ *)
(** ** The canvas *)

Record Point := { px : float; py : float }.

(** What a sequence of 2D-context calls has painted.  [fillRect] and
    [clearRect] are only ever called on the whole canvas, so they start a
    picture afresh; the drawing calls paint over what is there. *)
Inductive Bitmap :=
| Transparent
    (* a new canvas, or [clearRect(0, 0, width, height)] *)
| FillRect (fillStyle : string)
    (* [fillRect(0, 0, width, height)] with an opaque fill style *)
| DrawImage (under : Bitmap) (src : string) (args : list float)
    (* [drawImage(img, ...args)], [img] loaded from [src] *)
| DrawCanvas (under : Bitmap) (source : Bitmap)
    (* [drawImage(canvas, 0, 0)] of another canvas *)
| Stroke (under : Bitmap) (subpaths : list (list Point))
         (lineWidth : float) (lineCap strokeStyle : string).
    (* [stroke()] of the current path *)

(** A canvas element with the state of its 2D context: the bitmap and the
    current path (most recent subpath first, most recent point first). *)
Record Canvas := {
  width : Z;
  height : Z;
  bitmap : Bitmap;
  path : list (list Point)
}.

(** The browser's PNG encoder: the base64 text that follows the PNG
    signature.  Nothing is assumed about it. *)
Class PngEncoder := pngBody : Z -> Z -> Bitmap -> string.

(** The browser's image decoder: whether an image element whose [src] is
    set to the URL fires [load] rather than [error].  Nothing is assumed
    about it. *)
Class ImageDecoder := decodes : string -> bool.

(** Base64 of the eight signature bytes every PNG file starts with. *)
Definition pngSignature : string := "iVBORw0KGgo".

(** [canvas.toDataURL()] and [canvas.toDataURL('image/png')]; a canvas
    without pixels serialises to ["data:,"]. *)
Definition toDataURL `{PngEncoder} (c : Canvas) : string :=
  if (c.(width) =? 0) || (c.(height) =? 0) then "data:,"
  else "data:image/png;base64," +:+ pngSignature
         +:+ pngBody c.(width) c.(height) c.(bitmap).

Definition set_bitmap (b : Bitmap) (c : Canvas) : Canvas :=
  {| width := c.(width); height := c.(height); bitmap := b; path := c.(path) |}.

Definition set_path (p : list (list Point)) (c : Canvas) : Canvas :=
  {| width := c.(width); height := c.(height); bitmap := c.(bitmap); path := p |}.

(** [ctx.fillStyle = style; ctx.fillRect(0, 0, canvas.width, canvas.height)] *)
Definition fillRect_all (style : string) (c : Canvas) : Canvas :=
  set_bitmap (FillRect style) c.

(** [ctx.clearRect(0, 0, canvas.width, canvas.height)] *)
Definition clearRect_all (c : Canvas) : Canvas := set_bitmap Transparent c.

(** [ctx.drawImage(img, ...args)] *)
Definition drawImage (src : string) (args : list float) (c : Canvas) : Canvas :=
  set_bitmap (DrawImage c.(bitmap) src args) c.

Definition beginPath (c : Canvas) : Canvas := set_path [] c.

(** [moveTo] and [lineTo] ignore a point with a coordinate that is not
    finite; [lineTo] on an empty path starts a subpath. *)
Definition finite_point (p : Point) : bool :=
  PrimFloat.is_finite p.(px) && PrimFloat.is_finite p.(py).

Definition moveTo (p : Point) (c : Canvas) : Canvas :=
  if finite_point p then set_path ([p] :: c.(path)) c else c.

Definition lineTo (p : Point) (c : Canvas) : Canvas :=
  if finite_point p then
    match c.(path) with
    | [] => set_path [[p]] c
    | sub :: rest => set_path ((p :: sub) :: rest) c
    end
  else c.

Definition stroke (lineWidth : float) (lineCap strokeStyle : string)
    (c : Canvas) : Canvas :=
  set_bitmap (Stroke c.(bitmap) c.(path) lineWidth lineCap strokeStyle) c.

(* ------------------------------------------------------------------ *)
(** ** Component state *)

Record HistoryState := { stack : list string; index : Z }.

Record Home := {
  canvasRef : option Canvas;
  backgroundImageRef : option string;   (* the image element, by its src *)
  isDrawing : bool;
  penColor : string;
  prompt : string;
  generatedImage : option string;
  isLoading : bool;
  showErrorModal : bool;
  errorMessage : string;
  apiKey : string;
  showApiKeyModal : bool;
  selectedModel : string;
  historyState : HistoryState;
  alerts : list string                  (* texts shown by [alert] *)
}.

(** The state setters.  [setHistoryState] takes an updater, as every call
    after the first one in the source does. *)
Definition set_canvasRef (v : option Canvas) (s : Home) : Home :=
  {| canvasRef := v; backgroundImageRef := s.(backgroundImageRef);
     isDrawing := s.(isDrawing); penColor := s.(penColor); prompt := s.(prompt);
     generatedImage := s.(generatedImage); isLoading := s.(isLoading);
     showErrorModal := s.(showErrorModal); errorMessage := s.(errorMessage);
     apiKey := s.(apiKey); showApiKeyModal := s.(showApiKeyModal);
     selectedModel := s.(selectedModel); historyState := s.(historyState);
     alerts := s.(alerts) |}.

Definition set_backgroundImageRef (v : option string) (s : Home) : Home :=
  {| canvasRef := s.(canvasRef); backgroundImageRef := v;
     isDrawing := s.(isDrawing); penColor := s.(penColor); prompt := s.(prompt);
     generatedImage := s.(generatedImage); isLoading := s.(isLoading);
     showErrorModal := s.(showErrorModal); errorMessage := s.(errorMessage);
     apiKey := s.(apiKey); showApiKeyModal := s.(showApiKeyModal);
     selectedModel := s.(selectedModel); historyState := s.(historyState);
     alerts := s.(alerts) |}.

Definition setIsDrawing (v : bool) (s : Home) : Home :=
  {| canvasRef := s.(canvasRef); backgroundImageRef := s.(backgroundImageRef);
     isDrawing := v; penColor := s.(penColor); prompt := s.(prompt);
     generatedImage := s.(generatedImage); isLoading := s.(isLoading);
     showErrorModal := s.(showErrorModal); errorMessage := s.(errorMessage);
     apiKey := s.(apiKey); showApiKeyModal := s.(showApiKeyModal);
     selectedModel := s.(selectedModel); historyState := s.(historyState);
     alerts := s.(alerts) |}.

Definition setPenColor (v : string) (s : Home) : Home :=
  {| canvasRef := s.(canvasRef); backgroundImageRef := s.(backgroundImageRef);
     isDrawing := s.(isDrawing); penColor := v; prompt := s.(prompt);
     generatedImage := s.(generatedImage); isLoading := s.(isLoading);
     showErrorModal := s.(showErrorModal); errorMessage := s.(errorMessage);
     apiKey := s.(apiKey); showApiKeyModal := s.(showApiKeyModal);
     selectedModel := s.(selectedModel); historyState := s.(historyState);
     alerts := s.(alerts) |}.

Definition setPrompt (v : string) (s : Home) : Home :=
  {| canvasRef := s.(canvasRef); backgroundImageRef := s.(backgroundImageRef);
     isDrawing := s.(isDrawing); penColor := s.(penColor); prompt := v;
     generatedImage := s.(generatedImage); isLoading := s.(isLoading);
     showErrorModal := s.(showErrorModal); errorMessage := s.(errorMessage);
     apiKey := s.(apiKey); showApiKeyModal := s.(showApiKeyModal);
     selectedModel := s.(selectedModel); historyState := s.(historyState);
     alerts := s.(alerts) |}.

Definition setGeneratedImage (v : option string) (s : Home) : Home :=
  {| canvasRef := s.(canvasRef); backgroundImageRef := s.(backgroundImageRef);
     isDrawing := s.(isDrawing); penColor := s.(penColor); prompt := s.(prompt);
     generatedImage := v; isLoading := s.(isLoading);
     showErrorModal := s.(showErrorModal); errorMessage := s.(errorMessage);
     apiKey := s.(apiKey); showApiKeyModal := s.(showApiKeyModal);
     selectedModel := s.(selectedModel); historyState := s.(historyState);
     alerts := s.(alerts) |}.

Definition setIsLoading (v : bool) (s : Home) : Home :=
  {| canvasRef := s.(canvasRef); backgroundImageRef := s.(backgroundImageRef);
     isDrawing := s.(isDrawing); penColor := s.(penColor); prompt := s.(prompt);
     generatedImage := s.(generatedImage); isLoading := v;
     showErrorModal := s.(showErrorModal); errorMessage := s.(errorMessage);
     apiKey := s.(apiKey); showApiKeyModal := s.(showApiKeyModal);
     selectedModel := s.(selectedModel); historyState := s.(historyState);
     alerts := s.(alerts) |}.

Definition setShowErrorModal (v : bool) (s : Home) : Home :=
  {| canvasRef := s.(canvasRef); backgroundImageRef := s.(backgroundImageRef);
     isDrawing := s.(isDrawing); penColor := s.(penColor); prompt := s.(prompt);
     generatedImage := s.(generatedImage); isLoading := s.(isLoading);
     showErrorModal := v; errorMessage := s.(errorMessage);
     apiKey := s.(apiKey); showApiKeyModal := s.(showApiKeyModal);
     selectedModel := s.(selectedModel); historyState := s.(historyState);
     alerts := s.(alerts) |}.

Definition setErrorMessage (v : string) (s : Home) : Home :=
  {| canvasRef := s.(canvasRef); backgroundImageRef := s.(backgroundImageRef);
     isDrawing := s.(isDrawing); penColor := s.(penColor); prompt := s.(prompt);
     generatedImage := s.(generatedImage); isLoading := s.(isLoading);
     showErrorModal := s.(showErrorModal); errorMessage := v;
     apiKey := s.(apiKey); showApiKeyModal := s.(showApiKeyModal);
     selectedModel := s.(selectedModel); historyState := s.(historyState);
     alerts := s.(alerts) |}.

Definition setApiKey (v : string) (s : Home) : Home :=
  {| canvasRef := s.(canvasRef); backgroundImageRef := s.(backgroundImageRef);
     isDrawing := s.(isDrawing); penColor := s.(penColor); prompt := s.(prompt);
     generatedImage := s.(generatedImage); isLoading := s.(isLoading);
     showErrorModal := s.(showErrorModal); errorMessage := s.(errorMessage);
     apiKey := v; showApiKeyModal := s.(showApiKeyModal);
     selectedModel := s.(selectedModel); historyState := s.(historyState);
     alerts := s.(alerts) |}.

Definition setShowApiKeyModal (v : bool) (s : Home) : Home :=
  {| canvasRef := s.(canvasRef); backgroundImageRef := s.(backgroundImageRef);
     isDrawing := s.(isDrawing); penColor := s.(penColor); prompt := s.(prompt);
     generatedImage := s.(generatedImage); isLoading := s.(isLoading);
     showErrorModal := s.(showErrorModal); errorMessage := s.(errorMessage);
     apiKey := s.(apiKey); showApiKeyModal := v;
     selectedModel := s.(selectedModel); historyState := s.(historyState);
     alerts := s.(alerts) |}.

Definition setSelectedModel (v : string) (s : Home) : Home :=
  {| canvasRef := s.(canvasRef); backgroundImageRef := s.(backgroundImageRef);
     isDrawing := s.(isDrawing); penColor := s.(penColor); prompt := s.(prompt);
     generatedImage := s.(generatedImage); isLoading := s.(isLoading);
     showErrorModal := s.(showErrorModal); errorMessage := s.(errorMessage);
     apiKey := s.(apiKey); showApiKeyModal := s.(showApiKeyModal);
     selectedModel := v; historyState := s.(historyState);
     alerts := s.(alerts) |}.

Definition setHistoryState (f : HistoryState -> HistoryState) (s : Home) : Home :=
  {| canvasRef := s.(canvasRef); backgroundImageRef := s.(backgroundImageRef);
     isDrawing := s.(isDrawing); penColor := s.(penColor); prompt := s.(prompt);
     generatedImage := s.(generatedImage); isLoading := s.(isLoading);
     showErrorModal := s.(showErrorModal); errorMessage := s.(errorMessage);
     apiKey := s.(apiKey); showApiKeyModal := s.(showApiKeyModal);
     selectedModel := s.(selectedModel); historyState := f s.(historyState);
     alerts := s.(alerts) |}.

(** [alert(text)] *)
Definition alert (text : string) (s : Home) : Home :=
  {| canvasRef := s.(canvasRef); backgroundImageRef := s.(backgroundImageRef);
     isDrawing := s.(isDrawing); penColor := s.(penColor); prompt := s.(prompt);
     generatedImage := s.(generatedImage); isLoading := s.(isLoading);
     showErrorModal := s.(showErrorModal); errorMessage := s.(errorMessage);
     apiKey := s.(apiKey); showApiKeyModal := s.(showApiKeyModal);
     selectedModel := s.(selectedModel); historyState := s.(historyState);
     alerts := s.(alerts) ++ [text] |}.

(** The state of [useState]/[useRef] before the first render (lines 94-114). *)
Definition initialState : Home :=
  {| canvasRef := None; backgroundImageRef := None;
     isDrawing := false; penColor := "#000000"; prompt := "";
     generatedImage := None; isLoading := false;
     showErrorModal := false; errorMessage := "";
     apiKey := ""; showApiKeyModal := false;
     selectedModel := "gemini-2.5-flash-image-preview";
     historyState := {| stack := []; index := -1 |};
     alerts := [] |}.

(** The [<canvas width={960} height={540}>] element (lines 664-667). *)
Definition canvasElement : Canvas :=
  {| width := 960; height := 540; bitmap := Transparent; path := [] |}.

(* ------------------------------------------------------------------ *)
(** ** Pointer events and coordinate mapping *)

Record DOMRect := {
  rect_left : float; rect_top : float; rect_width : float; rect_height : float
}.

Record Touch := { clientX : float; clientY : float }.

(** [e.nativeEvent]: a [MouseEvent] has [offsetX]/[offsetY] and no
    [touches]; a [TouchEvent] has [touches] and no [offsetX]/[offsetY]. *)
Record NativeEvent := {
  offsetX : option float;
  offsetY : option float;
  touches : option (list Touch)
}.

Definition mouseEvent (x y : float) : NativeEvent :=
  {| offsetX := Some x; offsetY := Some y; touches := None |}.

Definition touchEvent (ts : list Touch) : NativeEvent :=
  {| offsetX := None; offsetY := None; touches := Some ts |}.

(** [e.nativeEvent.touches?.[0]?.clientX - rect.left]: the optional chain
    gives [undefined] without a first touch, and [undefined - n] is [NaN]. *)
Definition touch_offset (e : NativeEvent) (coord : Touch -> float) (origin : float) : float :=
  match e.(touches) with
  | Some (t :: _) => (coord t - origin)%float
  | _ => PrimFloat.nan
  end.

(** Lines 203-220. *)
Definition getCoordinates (canvas : Canvas) (rect : DOMRect) (e : NativeEvent) : Point :=
  let scaleX := (JS.num canvas.(width) / rect.(rect_width))%float in
  let scaleY := (JS.num canvas.(height) / rect.(rect_height))%float in
  {| px := (JS.or_num e.(offsetX) (touch_offset e clientX rect.(rect_left)) * scaleX)%float;
     py := (JS.or_num e.(offsetY) (touch_offset e clientY rect.(rect_top)) * scaleY)%float |}.

(** A decoded image with its intrinsic size ([width] and [height] of an
    image element are [unsigned long] attributes, below [2 ^ 32]). *)
Record Image := { img_src : string; img_width : Z; img_height : Z }.

(** Lines 327-331 of [handleImageImport]: the scale and the centring
    shifts of an image of size [iw] x [ih] on a [cw] x [ch] canvas. *)
Record Placement := { ratio : float; centerShiftX : float; centerShiftY : float }.

Definition fitAndCenter (cw ch iw ih : float) : Placement :=
  let hRatio := (cw / iw)%float in
  let vRatio := (ch / ih)%float in
  let ratio := JS.Math_min hRatio vRatio in
  {| ratio := ratio;
     centerShiftX := ((cw - iw * ratio) / 2)%float;
     centerShiftY := ((ch - ih * ratio) / 2)%float |}.

(* ------------------------------------------------------------------ *)
(** ** The generation capability ([@google/genai]) *)

Record Blob := { data : option string; mimeType : option string }.

(** A part of a request or of a response; every field is optional. *)
Record Part := { text : option string; inlineData : option Blob }.

Record Content := { role : string; parts : list Part }.

Inductive Modality := TEXT | IMAGE.

Record GenerateContentParameters := {
  model : string;
  contents : list Content;
  responseModalities : list Modality
}.

Record ResponseContent := { response_parts : option (list Part) }.
Record Candidate := { content : option ResponseContent }.
Record GenerateContentResponse := { candidates : option (list Candidate) }.

(** A thrown value other than [null] and [undefined], by its [message]
    (empty when it has none). *)
Record JSError := { message : string }.

(** The two values that have no properties to read. *)
Inductive Nullish := JSNull | JSUndefined.

Definition nullish_name (v : Nullish) : string :=
  match v with JSNull => "null" | JSUndefined => "undefined" end.

(** What a [throw] statement or a rejected promise carries. *)
Inductive Thrown :=
| ThrownError (error : JSError)
| ThrownNullish (v : Nullish).

(** How the awaited call ends. *)
Inductive Outcome :=
| Fulfilled (response : GenerateContentResponse)
| Rejected (error : JSError)
| RejectedNullish (v : Nullish).

(** The result of running a block: it completes or it throws. *)
Inductive Completion (A : Type) :=
| Normal (a : A)
| Throw (error : Thrown).
Arguments Normal {A} a.
Arguments Throw {A} error.

(** How a call of an [async] handler ends: it returns, or its promise is
    rejected and nobody handles the rejection.  The state is the one the
    handler leaves in either case. *)
Inductive Settled :=
| Done (s : Home)
| Unhandled (error : Thrown) (s : Home).

Definition bind {A B} (m : Completion A) (k : A -> Completion B) : Completion B :=
  match m with
  | Normal a => k a
  | Throw e => Throw e
  end.

Notation "x <- m ;; k" := (bind m (fun x => k))
  (at level 100, m at next level, right associativity).

(** [try { body } catch (error) { handler } finally { finalizer }]
    entered in state [s].  The body and the handler change the state only
    when they complete; the finalizer is a state change that cannot throw
    and runs in every case; what the handler throws leaves the function
    after the finalizer has run. *)
Definition try_catch_finally (s : Home) (body : Completion Home)
    (handler : Thrown -> Completion Home) (finalizer : Home -> Home) : Settled :=
  let caught := match body with Normal s1 => Normal s1 | Throw v => handler v end in
  match caught with
  | Normal s1 => Done (finalizer s1)
  | Throw v => Unhandled v (finalizer s)
  end.

(** The [TypeError]s of reading through [undefined] (V8's wording). *)
Definition TypeError (what : string) : JSError := {| message := what |}.

(** [response.candidates[0].content.parts], ready to be iterated. *)
Definition candidate_parts (response : GenerateContentResponse) : Completion (list Part) :=
  match response.(candidates) with
  | None => Throw (ThrownError (TypeError "Cannot read properties of undefined (reading '0')"))
  | Some [] => Throw (ThrownError (TypeError "Cannot read properties of undefined (reading 'content')"))
  | Some (c :: _) =>
      match c.(content) with
      | None => Throw (ThrownError (TypeError "Cannot read properties of undefined (reading 'parts')"))
      | Some ct =>
          match ct.(response_parts) with
          | None => Throw (ThrownError (TypeError "response.candidates[0].content.parts is not iterable"))
          | Some ps => Normal ps
          end
      end
  end.

(** The local [data] object of [handleSubmit] (lines 453-458). *)
Record ResultData := {
  success : bool;
  data_message : string;
  imageData : option string;
  data_error : option string
}.

Definition data0 : ResultData :=
  {| success := true; data_message := ""; imageData := None; data_error := None |}.

(** One iteration of the loop over the parts (lines 460-472). *)
Definition collect_part (part : Part) (d : ResultData) : Completion ResultData :=
  if JS.truthy_opt part.(text) then
    Normal {| success := d.(success); data_message := default "" part.(text);
              imageData := d.(imageData); data_error := d.(data_error) |}
  else
    match part.(inlineData) with
    | Some blob =>
        match blob.(data) with
        | Some img =>
            Normal {| success := d.(success); data_message := d.(data_message);
                      imageData := Some img; data_error := d.(data_error) |}
        | None => Throw (ThrownError (TypeError "Cannot read properties of undefined (reading 'length')"))
        end
    | None => Normal d
    end.

Fixpoint collect_parts (ps : list Part) (d : ResultData) : Completion ResultData :=
  match ps with
  | [] => Normal d
  | part :: rest => d' <- collect_part part d ;; collect_parts rest d'
  end.

(** [ErrorDisplay] (lines 22-91): the tests on the message and the help
    boxes they switch on. *)
Definition isQuotaError (msg : string) : bool := JS.test_ci "quota" msg.
Definition isApiKeyError (msg : string) : bool := JS.test_ci "API key not valid" msg.
Definition isHostError (msg : string) : bool := JS.test_ci "origin is not allowed" msg.

Inductive HelpBox := PermissionOrQuotaHelp | InvalidApiKeyHelp.

Definition ErrorDisplay (msg : string) : list HelpBox :=
  (if isQuotaError msg || isHostError msg then [PermissionOrQuotaHelp] else [])
  ++ (if isApiKeyError msg then [InvalidApiKeyHelp] else []).

(** The error modal as rendered (lines 761-777). *)
Definition errorModal (s : Home) : option (string * list HelpBox) :=
  if s.(showErrorModal) then Some (s.(errorMessage), ErrorDisplay s.(errorMessage))
  else None.

(* ------------------------------------------------------------------ *)
(** ** The handlers of [Home] *)

Section Handlers.
Context `{Encoder : PngEncoder} `{Decoder : ImageDecoder}.

(** The updater [saveCanvasState] hands to [setHistoryState]
    (lines 129-136). *)
Definition pushSnapshot (dataUrl : string) (prev : HistoryState) : HistoryState :=
  let newStack := JS.slice0 prev.(stack) (prev.(index) + 1) ++ [dataUrl] in
  {| stack := newStack; index := JS.last_index newStack |}.

(** Lines 126-137. *)
Definition saveCanvasState (s : Home) : Home :=
  match s.(canvasRef) with
  | None => s
  | Some canvas => setHistoryState (pushSnapshot (toDataURL canvas)) s
  end.

(** The mount effects: the stored key is read (lines 116-124), the canvas
    is filled white and becomes the first snapshot (lines 140-153). *)
Definition mount (storedApiKey : option string) : Home :=
  let s0 := set_canvasRef (Some canvasElement) initialState in
  let s1 := if JS.truthy_opt storedApiKey
            then setApiKey (default "" storedApiKey) s0
            else setShowApiKeyModal true s0 in
  match s1.(canvasRef) with
  | Some canvas =>
      let canvas := fillRect_all "#FFFFFF" canvas in
      let dataUrl := toDataURL canvas in
      setHistoryState (fun _ => {| stack := [dataUrl]; index := 0 |})
        (set_canvasRef (Some canvas) s1)
  | None => s1
  end.

(** Lines 169-179; the image's [onload] runs at once. *)
Definition restoreCanvasState (dataUrl : option string) (s : Home) : Home :=
  match s.(canvasRef), dataUrl with
  | Some canvas, Some url =>
      if JS.truthy url
      then set_canvasRef (Some (drawImage url [0; 0]%float (clearRect_all canvas))) s
      else s
  | _, _ => s
  end.

(** Lines 182-200. *)
Definition drawImageToCanvas (s : Home) : Home :=
  match s.(canvasRef), s.(backgroundImageRef) with
  | Some canvas, Some img =>
      let canvas' := fillRect_all "#FFFFFF" canvas in
      set_canvasRef
        (Some (drawImage img
                 [0; 0; JS.num canvas.(width); JS.num canvas.(height)]%float canvas')) s
  | _, _ => s
  end.

(** The effect on [generatedImage] (lines 156-167), run after a render
    in which [generatedImage] changed.  The image element is given the
    URL; its [onload] callback runs if the browser decodes the image, and
    nothing listens for [error]. *)
Definition generatedImage_effect (s : Home) : Home :=
  match s.(generatedImage), s.(canvasRef) with
  | Some url, Some _ =>
      if JS.truthy url then
        if decodes url
        then saveCanvasState (drawImageToCanvas (set_backgroundImageRef (Some url) s))
        else s
      else s
  | _, _ => s
  end.

(** Lines 222-236. *)
Definition startDrawing (e : NativeEvent) (rect : DOMRect) (s : Home) : Home :=
  match s.(canvasRef) with
  | Some canvas =>
      let p := getCoordinates canvas rect e in
      setIsDrawing true (set_canvasRef (Some (moveTo p (beginPath canvas))) s)
  | None => s
  end.

(** Lines 238-255. *)
Definition draw (e : NativeEvent) (rect : DOMRect) (s : Home) : Home :=
  if negb s.(isDrawing) then s
  else
    match s.(canvasRef) with
    | Some canvas =>
        let p := getCoordinates canvas rect e in
        set_canvasRef (Some (stroke 5 "round" s.(penColor) (lineTo p canvas))) s
    | None => s
    end.

(** Lines 257-261. *)
Definition stopDrawing (s : Home) : Home :=
  if negb s.(isDrawing) then s
  else saveCanvasState (setIsDrawing false s).

(** Lines 263-274. *)
Definition clearCanvas (s : Home) : Home :=
  match s.(canvasRef) with
  | Some canvas =>
      let s1 := set_canvasRef (Some (fillRect_all "#FFFFFF" canvas)) s in
      let s2 := saveCanvasState s1 in
      set_backgroundImageRef None (setGeneratedImage None s2)
  | None => s
  end.

(** Lines 276-281. *)
Definition handleUndo (s : Home) : Home :=
  let historyState := s.(historyState) in
  if historyState.(index) <=? 0 then s
  else
    let newIndex := historyState.(index) - 1 in
    let s1 := restoreCanvasState (JS.nth historyState.(stack) newIndex) s in
    setHistoryState (fun prev => {| stack := prev.(stack); index := newIndex |}) s1.

(** Lines 283-288. *)
Definition handleRedo (s : Home) : Home :=
  let historyState := s.(historyState) in
  if historyState.(index) >=? JS.last_index historyState.(stack) then s
  else
    let newIndex := historyState.(index) + 1 in
    let s1 := restoreCanvasState (JS.nth historyState.(stack) newIndex) s in
    setHistoryState (fun prev => {| stack := prev.(stack); index := newIndex |}) s1.

(** Lines 312-357, from the moment the chosen file has been read and
    decoded ([img.onload]); no file chosen does nothing. *)
Definition handleImageImport (file : option Image) (s : Home) : Home :=
  match file, s.(canvasRef) with
  | Some img, Some canvas =>
      let canvas1 := fillRect_all "#FFFFFF" canvas in
      let iw := JS.num img.(img_width) in
      let ih := JS.num img.(img_height) in
      let place := fitAndCenter (JS.num canvas.(width)) (JS.num canvas.(height)) iw ih in
      let canvas2 :=
        drawImage img.(img_src)
          [0; 0; iw; ih; place.(centerShiftX); place.(centerShiftY);
           iw * place.(ratio); ih * place.(ratio)]%float canvas1 in
      let s1 := saveCanvasState (set_canvasRef (Some canvas2) s) in
      set_backgroundImageRef None (setGeneratedImage None s1)
  | _, _ => s
  end.

(** Lines 386-443: the request built from the canvas and the prompt. *)
Definition buildContents (canvas : Canvas) (prompt : string) : list Content :=
  let tempCanvas :=
    {| width := canvas.(width); height := canvas.(height);
       bitmap := DrawCanvas (FillRect "#FFFFFF") canvas.(bitmap); path := [] |} in
  let drawingData := JS.split_comma_1 (toDataURL tempCanvas) in
  match drawingData with
  | Some d =>
      if JS.truthy d then
        [ {| role := "USER";
             parts := [ {| text := None;
                           inlineData := Some {| data := Some d;
                                                 mimeType := Some "image/png" |} |} ] |};
          {| role := "USER";
             parts := [ {| text := Some (prompt +:+ ". Keep the same minimal line drawing style.");
                           inlineData := None |} ] |} ]
      else
        [ {| role := "USER"; parts := [ {| text := Some prompt; inlineData := None |} ] |} ]
  | None =>
      [ {| role := "USER"; parts := [ {| text := Some prompt; inlineData := None |} ] |} ]
  end.

(** [handleSubmit] up to its [await] (lines 371-451): the new state and
    the request sent to [ai.models.generateContent], if one is sent. *)
Definition handleSubmit_start (s : Home) : Home * option GenerateContentParameters :=
  if negb (JS.truthy s.(apiKey)) then (setShowApiKeyModal true s, None)
  else
    match s.(canvasRef) with
    | None => (s, None)
    | Some canvas =>
        (setIsLoading true s,
         Some {| model := s.(selectedModel);
                 contents := buildContents canvas s.(prompt);
                 responseModalities := [TEXT; IMAGE] |})
    end.

(** The rest of the [try] block once the call has settled
    (lines 445-488). *)
Definition handleSubmit_resume (o : Outcome) (s : Home) : Completion Home :=
  response <- match o with
              | Fulfilled r => Normal r
              | Rejected e => Throw (ThrownError e)
              | RejectedNullish v => Throw (ThrownNullish v)
              end ;;
  ps <- candidate_parts response ;;
  d <- collect_parts ps data0 ;;
  Normal
    (if d.(success) && JS.truthy_opt d.(imageData)
     then setGeneratedImage
            (Some ("data:image/png;base64," +:+ default "" d.(imageData))) s
     else alert "Failed to generate image. Please try again." s).

(** The [catch] block (lines 489-492).  Reading [error.message] throws
    a [TypeError] when the caught value is [null] or [undefined] (V8's
    wording). *)
Definition handleSubmit_catch (error : Thrown) (s : Home) : Completion Home :=
  match error with
  | ThrownNullish v =>
      Throw (ThrownError (TypeError ("Cannot read properties of " +:+ nullish_name v
                                       +:+ " (reading 'message')")))
  | ThrownError error =>
      let msg := if JS.truthy error.(message) then error.(message)
                 else "An unexpected error occurred." in
      Normal (setShowErrorModal true (setErrorMessage msg s))
  end.

(** [handleSubmit] from its [await] on, with [catch] and [finally]
    (lines 445-495). *)
Definition handleSubmit_settle (o : Outcome) (s : Home) : Settled :=
  try_catch_finally s
    (handleSubmit_resume o s)
    (fun error => handleSubmit_catch error s)
    (setIsLoading false).

(** The state a call of the handler leaves, however it ends. *)
Definition settled_state (r : Settled) : Home :=
  match r with Done s => s | Unhandled _ s => s end.

(** What a re-render does after a handler: the effect on
    [generatedImage] runs when that state changed. *)
Definition afterRender (before after : Home) : Home :=
  if JS.same before.(generatedImage) after.(generatedImage) then after
  else generatedImage_effect after.

(** A whole submission with nothing happening between the request and
    its outcome.  [generateContent] is the external capability. *)
Definition handleSubmit (generateContent : GenerateContentParameters -> Outcome)
    (s : Home) : Settled :=
  match handleSubmit_start s with
  | (s1, None) => Done s1
  | (s1, Some request) =>
      match handleSubmit_settle (generateContent request) s1 with
      | Done s2 => Done (afterRender s1 s2)
      | Unhandled error s2 => Unhandled error (afterRender s1 s2)
      end
  end.

(* ------------------------------------------------------------------ *)
(** ** The event loop *)

(** The component together with the request it is waiting on. *)
Record World := { home : Home; pending : option GenerateContentParameters }.

Inductive Event :=
| PointerDown (e : NativeEvent) (rect : DOMRect)  (* onMouseDown, onTouchStart *)
| PointerMove (e : NativeEvent) (rect : DOMRect)  (* onMouseMove, onTouchMove *)
| PointerUp                                       (* onMouseUp, onMouseLeave, onTouchEnd *)
| ClickClear
| ClickUndo
| ClickRedo
| ChooseFile (file : option Image)
| TypePrompt (v : string)
| PickColor (v : string)
| SelectModel (v : string)
| SubmitForm
| CallSettles (o : Outcome).

Definition with_home (f : Home -> Home) (w : World) : World :=
  {| home := f w.(home); pending := w.(pending) |}.

(** The handler an event runs.  The form is not submitted while the
    submit button is disabled ([isLoading]) or the required prompt is
    empty; an outcome arrives only for a request that is pending. *)
Definition handle (ev : Event) (w : World) : World :=
  match ev with
  | PointerDown e rect => with_home (startDrawing e rect) w
  | PointerMove e rect => with_home (draw e rect) w
  | PointerUp => with_home stopDrawing w
  | ClickClear => with_home clearCanvas w
  | ClickUndo => with_home handleUndo w
  | ClickRedo => with_home handleRedo w
  | ChooseFile file => with_home (handleImageImport file) w
  | TypePrompt v => with_home (setPrompt v) w
  | PickColor v => with_home (setPenColor v) w
  | SelectModel v => with_home (setSelectedModel v) w
  | SubmitForm =>
      if w.(home).(isLoading) || negb (JS.truthy w.(home).(prompt)) then w
      else
        let (s, request) := handleSubmit_start w.(home) in
        {| home := s; pending := request |}
  | CallSettles o =>
      match w.(pending) with
      | None => w
      | Some _ =>
          match handleSubmit_settle o w.(home) with
          | Done s => {| home := s; pending := None |}
          | Unhandled _ s => {| home := s; pending := None |}
          end
      end
  end.

(** One turn of the loop: the handler, then the re-render's effects. *)
Definition step (w : World) (ev : Event) : World :=
  let w' := handle ev w in
  {| home := afterRender w.(home) w'.(home); pending := w'.(pending) |}.

Definition boot (storedApiKey : option string) : World :=
  {| home := mount storedApiKey; pending := None |}.

Definition run (evs : list Event) (w : World) : World := fold_left step evs w.

(** The history invariant of the data model. *)
Definition history_ok (h : HistoryState) : Prop :=
  h.(stack) <> [] /\ 0 <= h.(index) < Z.of_nat (length h.(stack)).

(** A state the loop can be in: the canvas is mounted, the history
    invariant holds and every snapshot is a non-empty data URL. *)
Definition well_formed (s : Home) : Prop :=
  is_Some s.(canvasRef)
  /\ history_ok s.(historyState)
  /\ Forall (fun d => JS.truthy d = true) s.(historyState).(stack).

(** The parts of a response the loop treats as images, in order: those
    without a non-empty text that carry [inlineData]. *)
Definition imageBlobs (ps : list Part) : list Blob :=
  omap (fun p => if JS.truthy_opt p.(text) then None else p.(inlineData)) ps.

(** [s'] still has a canvas if [s] had one, and has the history of [s]. *)
Definition keeps (s s' : Home) : Prop :=
  (is_Some s.(canvasRef) -> is_Some s'.(canvasRef))
  /\ s'.(historyState) = s.(historyState).

End Handlers.

(* ------------------------------------------------------------------ *)
(** ** A reference encoder, a reference decoder and example states *)

(** An encoder to run examples with: its text records which painting
    calls built the bitmap, in letters of the base64 alphabet. *)
Fixpoint referencePng (b : Bitmap) : string :=
  match b with
  | Transparent => "A"
  | FillRect _ => "B"
  | DrawImage under _ _ => referencePng under +:+ "C"
  | DrawCanvas under source => referencePng under +:+ "D" +:+ referencePng source +:+ "E"
  | Stroke under _ _ _ _ => referencePng under +:+ "F"
  end.

Definition referenceEncoder : PngEncoder := fun _ _ b => referencePng b.

(** Two PNG files of one pixel each, a red one and a blue one, in
    base64. *)
Definition redPixel : string :=
  "iVBORw0KGgoAAAANSUhEUgAAAAEAAAABCAYAAAAfFcSJAAAADUlEQVR42mP4z8DwHwAFAAH/VscvDQAAAABJRU5ErkJggg==".

Definition bluePixel : string :=
  "iVBORw0KGgoAAAANSUhEUgAAAAEAAAABCAYAAAAfFcSJAAAADUlEQVR42mNgYPj/HwADAgH/OSkZvgAAAABJRU5ErkJggg==".

(** A decoder to run examples with: it loads the two files above and
    refuses everything else. *)
Definition referenceDecoder : ImageDecoder :=
  fun url =>
    String.eqb url ("data:image/png;base64," +:+ redPixel)
    || String.eqb url ("data:image/png;base64," +:+ bluePixel).

(** The display rectangle of a canvas shown at half its size. *)
Definition halfSizeRect : DOMRect :=
  {| rect_left := 0; rect_top := 0; rect_width := 480; rect_height := 270 |}.

(** One stroke drawn after mounting, with a stored key. *)
Definition oneStroke : list Event :=
  [ PointerDown (mouseEvent 10 10) halfSizeRect;
    PointerMove (mouseEvent 20 30) halfSizeRect;
    PointerUp ].

Definition afterOneStroke : Home :=
  (@run referenceEncoder referenceDecoder oneStroke
     (@boot referenceEncoder (Some "key"))).(home).

(** A response with one image part between two text parts. *)
Definition imagePart (d : string) : Part :=
  {| text := None; inlineData := Some {| data := Some d; mimeType := Some "image/png" |} |}.

Definition textPart (t : string) : Part := {| text := Some t; inlineData := None |}.

Definition responseOf (ps : list Part) : GenerateContentResponse :=
  {| candidates := Some [ {| content := Some {| response_parts := Some ps |} |} ] |}.

Definition twoImagesAndText : GenerateContentResponse :=
  responseOf [imagePart redPixel; textPart "added a hat"; imagePart bluePixel].

Definition twoImages : GenerateContentResponse :=
  responseOf [imagePart redPixel; imagePart bluePixel].

(** A response whose image data is not an image file. *)
Definition brokenImage : GenerateContentResponse :=
  responseOf [imagePart "BBBB"; textPart "added a hat"].

(** The untouched canvas with a key and a prompt typed in. *)
Definition untouched : Home :=
  setPrompt "draw a red circle" (@mount referenceEncoder (Some "key")).

(** One stroke, one undo, and a prompt typed in. *)
Definition undoneWithPrompt : Home :=
  setPrompt "add a hat" (handleUndo afterOneStroke).

Definition quotaError : JSError :=
  {| message := "[429] You exceeded your current quota, please check your plan" |}.

(* ------------------------------------------------------------------ *)
(** ** Rounding to binary64 *)

(** Half a unit in the last place of a number between 512 and 1024. *)
Definition rounding_unit : float := 0x1p-44%float.

Definition within (bound x : float) : bool := PrimFloat.leb (PrimFloat.abs x) bound.

(** The specification of binary64 arithmetic ([SpecFloat]) rounds a
    quotient [N / D] from its integer part and from where the rest lies
    in the unit: nowhere, or below, at or above the middle. *)
Definition loc_of (N D : Z) : location :=
  if N mod D =? 0 then loc_Exact else loc_Inexact (2 * (N mod D) ?= D).

(** The float that [binary_round_aux] makes of [N / D * 2 ^ e0] when
    [N / D] has [d >= 53] binary digits and the result is a normal
    number. *)
Definition rounded (N D e0 d : Z) : spec_float :=
  let n := d - 53 in
  let m := round_nearest_even (N / (2 ^ n * D)) (loc_of N (2 ^ n * D)) in
  if m <? 2 ^ 53 then S754_finite false (Z.to_pos m) (e0 + n)
  else S754_finite false (Z.to_pos (2 ^ 52)) (e0 + n + 1).

(** The binary64 number that is the integer [z], [0 < z < 2 ^ 53]. *)
Definition SFofZ (z : Z) : spec_float :=
  let d := Z.log2 z + 1 in
  S754_finite false (Z.to_pos (z * 2 ^ (53 - d))) (d - 53).

(** The quotient and the product of two normal numbers with mantissas
    [mx], [my] and exponents [ex], [ey]. *)
Definition div_rounded (mx ex my ey : Z) : spec_float :=
  rounded (mx * 2 ^ 53) my (ex - ey - 53) (if mx <? my then 53 else 54).

Definition mul_rounded (mx ex my ey : Z) : spec_float :=
  rounded (mx * my) 1 (ex + ey) (if mx * my <? 2 ^ 105 then 105 else 106).

(* ------------------------------------------------------------------ *)
(** ** The rest of the component: dialogs, buttons, download *)

(** String operations of the remaining handlers.  A string is read as a
    sequence of code units below 256. *)
Module JSText.

(** The white space and line terminators [trim] strips, among the code
    units below 256: TAB, LF, VT, FF, CR, SPACE and NBSP. *)
Definition isSpace (c : ascii) : bool :=
  let n := nat_of_ascii c in
  ((9 <=? n)%nat && (n <=? 13)%nat) || (n =? 32)%nat || (n =? 160)%nat.

Fixpoint trimStart (s : string) : string :=
  match s with
  | EmptyString => EmptyString
  | String c r => if isSpace c then trimStart r else s
  end.

Fixpoint trimEnd (s : string) : string :=
  match s with
  | EmptyString => EmptyString
  | String c r =>
      match trimEnd r with
      | EmptyString => if isSpace c then EmptyString else String c EmptyString
      | String c' r' => String c (String c' r')
      end
  end.

(** [s.trim()] *)
Definition trim (s : string) : string := trimEnd (trimStart s).

(** [s] without the prefix [p], when it starts with it. *)
Fixpoint stripPrefix (p s : string) : option string :=
  match p, s with
  | EmptyString, _ => Some s
  | String _ _, EmptyString => None
  | String a p', String b s' => if Ascii.eqb a b then stripPrefix p' s' else None
  end.

(** The text that follows the leftmost occurrence of [marker] in [s]. *)
Fixpoint afterFirst (marker s : string) : option string :=
  match stripPrefix marker s with
  | Some rest => Some rest
  | None =>
      match s with
      | EmptyString => None
      | String _ r => afterFirst marker r
      end
  end.

(** What a greedy any-character group matches at the start of [s]:
    everything up to the first line terminator (LF or CR). *)
Fixpoint restOfLine (s : string) : string :=
  match s with
  | EmptyString => EmptyString
  | String c r =>
      if Ascii.eqb c "010" || Ascii.eqb c "013" then EmptyString
      else String c (restOfLine r)
  end.

End JSText.

(** [parseGoogleError] of [ErrorDisplay] (lines 28-42).  Its first branch
    matches the marker below followed by a group that takes the rest of
    the line; the fallback goes through [JSON.parse], which is taken as a
    parameter:
    [jsonErrorMessage msg] is the text of [errorObj.error?.message] when
    [msg] parses and that value is truthy. *)
Definition googleErrorMarker : string := "[GoogleGenerativeAI Error]: ".

Definition parseGoogleError (jsonErrorMessage : string -> option string)
    (msg : string) : string :=
  let fallback := default msg (jsonErrorMessage msg) in
  match JSText.afterFirst googleErrorMarker msg with
  | Some rest =>
      let group1 := JSText.restOfLine rest in
      if JS.truthy group1 then JSText.trim group1 else fallback
  | None => fallback
  end.

(** The API-key dialog: the text typed into it and the item
    ['gemini-api-key'] of [localStorage]. *)
Record KeyDialog := { tempApiKey : string; storedKey : option string }.

(** The dialog's part of the mount effect (lines 116-124). *)
Definition mountKeyDialog (stored : option string) : KeyDialog :=
  {| tempApiKey := if JS.truthy_opt stored then default "" stored else "";
     storedKey := stored |}.

(** Lines 503-511. *)
Definition handleApiKeySave (s : Home) (d : KeyDialog) : Home * KeyDialog :=
  if JS.truthy (JSText.trim d.(tempApiKey)) then
    let newApiKey := JSText.trim d.(tempApiKey) in
    (setShowApiKeyModal false (setApiKey newApiKey s),
     {| tempApiKey := d.(tempApiKey); storedKey := Some newApiKey |})
  else (s, d).

(** The key button (lines 642-645). *)
Definition openKeyDialog (s : Home) (d : KeyDialog) : Home * KeyDialog :=
  (setShowApiKeyModal true s,
   {| tempApiKey := s.(apiKey); storedKey := d.(storedKey) |}).

(** Lines 499-501. *)
Definition closeErrorModal (s : Home) : Home := setShowErrorModal false s.

(** The [disabled] attributes of the undo and redo buttons
    (lines 604 and 612). *)
Definition undoDisabled (s : Home) : bool := s.(historyState).(index) <=? 0.

Definition redoDisabled (s : Home) : bool :=
  s.(historyState).(index) >=? JS.last_index s.(historyState).(stack).

(** Lines 359-369: the [href] of the link that is clicked, the download
    being named ['gemini-co-drawing.png']. *)
Definition downloadCanvas `{PngEncoder} (s : Home) : option string :=
  match s.(canvasRef) with
  | None => None
  | Some canvas => Some (toDataURL canvas)
  end.

(** The size of the canvas element, if it is mounted. *)
Definition canvasSize (s : Home) : option (Z * Z) :=
  (fun c => (c.(width), c.(height))) <$> s.(canvasRef).

(** The text every PNG data URL starts with. *)
Definition pngUrlPrefix : string := "data:image/png;base64,iVBORw0KGgo".

(** The number of snapshots. *)
Definition snapshots (s : Home) : nat := length s.(historyState).(stack).

(** Handlers that move the pen, for examples. *)
Definition atLeftEdge (y : float) : NativeEvent := mouseEvent 0 y.

(** Case analysis on the canvas ref for handlers that leave the history
    alone. *)
Ltac keeps_by_canvas s :=
  let E := fresh "E" in
  destruct (canvasRef s) eqn:E; split; simpl; rewrite ?E; eauto.

(** [s.startsWith(p)] *)
Definition startsWith (p s : string) : bool :=
  match JSText.stripPrefix p s with Some _ => true | None => false end.

(** The three facts the loop keeps: the canvas stays 960 x 540, every
    snapshot is a PNG data URL, and the busy flag is up exactly while a
    request is pending. *)
Definition loop_ok (w : World) : Prop :=
  canvasSize w.(home) = Some (960, 540)
  /\ Forall (fun d => startsWith pngUrlPrefix d = true) w.(home).(historyState).(stack)
  /\ (w.(home).(isLoading) = true <-> is_Some w.(pending)).

(** [s'] has the canvas size and the busy flag of [s], and PNG snapshots
    if [s] has them on a 960 x 540 canvas. *)
Definition quiet (s s' : Home) : Prop :=
  canvasSize s' = canvasSize s
  /\ s'.(isLoading) = s.(isLoading)
  /\ (canvasSize s = Some (960, 540) ->
      Forall (fun d => startsWith pngUrlPrefix d = true) s.(historyState).(stack) ->
      Forall (fun d => startsWith pngUrlPrefix d = true) s'.(historyState).(stack)).

(** The state after the response with the red and the blue image has
    been applied on top of one stroke. *)
Definition afterGeneration : Home :=
  match @handleSubmit referenceEncoder referenceDecoder
          (fun _ => Fulfilled twoImagesAndText)
          (setPrompt "add a hat" afterOneStroke) with
  | Done s => s
  | Unhandled _ s => s
  end.

(** Texts typed into the key dialog. *)
Definition paddedKey : KeyDialog := {| tempApiKey := "  my-key  "; storedKey := None |}.

Definition blankKey : KeyDialog := {| tempApiKey := "   "; storedKey := None |}.

(** What the tests of [ErrorDisplay] are meant to decide: the message
    mentions [needle], that is, some stretch of it reads like [needle]
    when the case of the letters is left aside. *)
Definition same_letters (a b : string) : Prop :=
  map JS.lower (list_ascii_of_string a) = map JS.lower (list_ascii_of_string b).

Definition mentions (needle msg : string) : Prop :=
  exists pre mid post, msg = pre +:+ mid +:+ post /\ same_letters mid needle.

(** Error messages of the generation service, for examples. *)
Definition invalidKeyError : JSError :=
  {| message := "[400] API key not valid. Please pass a valid API key." |}.

Definition hostError : JSError :=
  {| message := "[403] Requests from this origin is not allowed." |}.

(** Unfolds the handlers and the canvas operations and splits on every
    test they make. *)
Ltac handler_cases :=
  unfold stopDrawing, clearCanvas, handleUndo, handleRedo, handleImageImport,
    startDrawing, draw, generatedImage_effect, drawImageToCanvas,
    restoreCanvasState, saveCanvasState, handleSubmit_start,
    moveTo, lineTo, stroke, beginPath, drawImage, fillRect_all, clearRect_all,
    set_bitmap, set_path in *;
  repeat case_match; simplify_eq/=;
  repeat match goal with E : canvasRef _ = _ |- _ => rewrite E end;
  try done.

(* ================================================================== *)
(** * Properties *)

Section HistoryFacts.
Context `{Encoder : PngEncoder} `{Decoder : ImageDecoder}.

Lemma slice0_take {A} (arr : list A) (e : Z) :
  0 <= e -> JS.slice0 arr e = take (Z.to_nat e) arr.
Proof.
  intros He. unfold JS.slice0.
  destruct (Z.ltb_spec e 0) as [Hlt | _]; [lia |].
  destruct (Z.le_gt_cases e (Z.of_nat (length arr))) as [Hle | Hgt].
  - rewrite Z.min_l by lia. reflexivity.
  - rewrite Z.min_r by lia. rewrite Nat2Z.id.
    rewrite !take_ge by lia. reflexivity.
Qed.

Lemma pushSnapshot_stack (d : string) (h : HistoryState) :
  -1 <= h.(index) ->
  (pushSnapshot d h).(stack) = take (Z.to_nat (h.(index) + 1)) h.(stack) ++ [d].
Proof.
  intros Hi. unfold pushSnapshot. simpl. rewrite slice0_take by lia. reflexivity.
Qed.

Lemma pushSnapshot_index (d : string) (h : HistoryState) :
  (pushSnapshot d h).(index) = Z.of_nat (length (pushSnapshot d h).(stack)) - 1.
Proof. reflexivity. Qed.

Lemma pushSnapshot_ok (d : string) (h : HistoryState) :
  history_ok (pushSnapshot d h).
Proof.
  unfold history_ok, pushSnapshot, JS.last_index. simpl.
  rewrite length_app. simpl. split; [| lia].
  intros Hnil. apply app_eq_nil in Hnil. destruct Hnil as [_ Hd]. discriminate.
Qed.

Lemma saveCanvasState_history (s : Home) (canvas : Canvas) :
  s.(canvasRef) = Some canvas ->
  (saveCanvasState s).(historyState) = pushSnapshot (toDataURL canvas) s.(historyState).
Proof. intros Hc. unfold saveCanvasState. rewrite Hc. reflexivity. Qed.

Lemma restoreCanvasState_history (d : option string) (s : Home) :
  (restoreCanvasState d s).(historyState) = s.(historyState).
Proof.
  unfold restoreCanvasState.
  destruct (canvasRef s), d as [url |]; try reflexivity.
  destruct (JS.truthy url); reflexivity.
Qed.

Lemma handleUndo_history (s : Home) :
  (handleUndo s).(historyState) =
    if s.(historyState).(index) <=? 0 then s.(historyState)
    else {| stack := s.(historyState).(stack); index := s.(historyState).(index) - 1 |}.
Proof.
  unfold handleUndo.
  destruct (index (historyState s) <=? 0); [reflexivity |].
  simpl. rewrite restoreCanvasState_history. reflexivity.
Qed.

Lemma handleRedo_history (s : Home) :
  (handleRedo s).(historyState) =
    if s.(historyState).(index) >=? JS.last_index s.(historyState).(stack)
    then s.(historyState)
    else {| stack := s.(historyState).(stack); index := s.(historyState).(index) + 1 |}.
Proof.
  unfold handleRedo.
  destruct (index (historyState s) >=? _); [reflexivity |].
  simpl. rewrite restoreCanvasState_history. reflexivity.
Qed.

Lemma undo_iter_history (k : nat) (s : Home) :
  Z.of_nat k <= s.(historyState).(index) ->
  (Nat.iter k handleUndo s).(historyState) =
    {| stack := s.(historyState).(stack); index := s.(historyState).(index) - Z.of_nat k |}.
Proof.
  induction k as [| k IH]; intros Hk.
  - simpl. destruct (historyState s) as [st i]. simpl. f_equal. lia.
  - simpl. rewrite handleUndo_history. rewrite IH by lia. simpl.
    destruct (Z.leb_spec (index (historyState s) - Z.of_nat k) 0) as [Hle | Hgt]; [lia |].
    f_equal. lia.
Qed.

Lemma toDataURL_truthy (c : Canvas) : JS.truthy (toDataURL c) = true.
Proof. unfold toDataURL. destruct (_ || _); reflexivity. Qed.

Lemma keeps_refl (s : Home) : keeps s s.
Proof. split; auto. Qed.

Lemma keeps_trans (s1 s2 s3 : Home) : keeps s1 s2 -> keeps s2 s3 -> keeps s1 s3.
Proof. intros [A1 B1] [A2 B2]. split; [auto | congruence]. Qed.

Lemma keeps_well_formed (s s' : Home) : keeps s s' -> well_formed s -> well_formed s'.
Proof.
  intros [Hc Hh] (Wc & Wh & Wt). unfold well_formed. rewrite Hh. auto.
Qed.

Lemma restoreCanvasState_keeps (d : option string) (s : Home) :
  keeps s (restoreCanvasState d s).
Proof.
  split; [| apply restoreCanvasState_history].
  unfold restoreCanvasState. intros Hc.
  destruct (canvasRef s) eqn:E, d as [url |]; rewrite ?E; auto.
  destruct (JS.truthy url); simpl; rewrite ?E; eauto.
Qed.

Lemma drawImageToCanvas_keeps (s : Home) : keeps s (drawImageToCanvas s).
Proof.
  unfold drawImageToCanvas. destruct (backgroundImageRef s); keeps_by_canvas s.
Qed.

Lemma startDrawing_keeps e rect (s : Home) : keeps s (startDrawing e rect s).
Proof. unfold startDrawing. keeps_by_canvas s. Qed.

Lemma draw_keeps e rect (s : Home) : keeps s (draw e rect s).
Proof.
  unfold draw. destruct (negb _); [apply keeps_refl |]. keeps_by_canvas s.
Qed.

Lemma handleSubmit_start_keeps (s : Home) : keeps s (handleSubmit_start s).1.
Proof.
  unfold handleSubmit_start. destruct (negb _); [split; simpl; auto |].
  keeps_by_canvas s.
Qed.

(** When the rest of the [try] block completes, it has set the
    generated image or shown an alert, and nothing else. *)
Lemma handleSubmit_resume_normal (o : Outcome) (s s1 : Home) :
  handleSubmit_resume o s = Normal s1 ->
  (exists url, s1 = setGeneratedImage (Some url) s)
  \/ s1 = alert "Failed to generate image. Please try again." s.
Proof.
  unfold handleSubmit_resume. intros E.
  destruct o as [r | e | v]; simpl in E; [| discriminate | discriminate].
  destruct (candidate_parts r) as [ps | e]; simpl in E; [| discriminate].
  destruct (collect_parts ps data0) as [d | e]; simpl in E; [| discriminate].
  injection E as <-. destruct (_ && _); eauto.
Qed.

(** However the call ends, the handler leaves the busy flag cleared and
    the canvas, the background image and the history as they were. *)
Lemma handleSubmit_settle_state (o : Outcome) (s : Home) :
  let s' := settled_state (handleSubmit_settle o s) in
  s'.(isLoading) = false
  /\ s'.(canvasRef) = s.(canvasRef)
  /\ s'.(backgroundImageRef) = s.(backgroundImageRef)
  /\ s'.(historyState) = s.(historyState).
Proof.
  unfold handleSubmit_settle, try_catch_finally.
  destruct (handleSubmit_resume o s) as [s1 | e] eqn:E.
  - destruct (handleSubmit_resume_normal o s s1 E) as [[url ->] | ->];
      simpl; repeat split.
  - destruct e as [e | v]; simpl; repeat split.
Qed.

Lemma handleSubmit_settle_keeps (o : Outcome) (s : Home) :
  keeps s (settled_state (handleSubmit_settle o s)).
Proof.
  destruct (handleSubmit_settle_state o s) as (_ & Hc & _ & Hh).
  split; [rewrite Hc; auto | exact Hh].
Qed.

Lemma saveCanvasState_well_formed (s : Home) :
  is_Some s.(canvasRef) ->
  Forall (fun d => JS.truthy d = true) s.(historyState).(stack) ->
  well_formed (saveCanvasState s).
Proof.
  intros [canvas Hc] Ht. unfold well_formed.
  rewrite (saveCanvasState_history s canvas Hc).
  split; [| split].
  - unfold saveCanvasState. rewrite Hc. simpl. rewrite Hc. eauto.
  - apply pushSnapshot_ok.
  - unfold pushSnapshot, JS.slice0. simpl. apply Forall_app. split.
    + apply Forall_take, Ht.
    + constructor; [apply toDataURL_truthy | constructor].
Qed.

Lemma handleUndo_well_formed (s : Home) : well_formed s -> well_formed (handleUndo s).
Proof.
  intros (Wc & [Wn Wi] & Wt). unfold well_formed.
  rewrite handleUndo_history.
  split.
  - unfold handleUndo. destruct (_ <=? 0); [exact Wc |].
    simpl. apply restoreCanvasState_keeps, Wc.
  - destruct (Z.leb_spec (index (historyState s)) 0); unfold history_ok; simpl;
      (split; [split; [assumption | lia] | assumption]).
Qed.

Lemma handleRedo_well_formed (s : Home) : well_formed s -> well_formed (handleRedo s).
Proof.
  intros (Wc & [Wn Wi] & Wt). unfold well_formed.
  rewrite handleRedo_history.
  split.
  - unfold handleRedo. destruct (_ >=? _); [exact Wc |].
    simpl. apply restoreCanvasState_keeps, Wc.
  - unfold JS.last_index.
    destruct (Z.geb_spec (index (historyState s)) (Z.of_nat (length (stack (historyState s))) - 1));
      unfold history_ok; simpl; (split; [split; [assumption | lia] | assumption]).
Qed.

Lemma stopDrawing_well_formed (s : Home) : well_formed s -> well_formed (stopDrawing s).
Proof.
  intros W. unfold stopDrawing. destruct (negb _); [exact W |].
  destruct W as (Wc & _ & Wt). apply saveCanvasState_well_formed; assumption.
Qed.

Lemma reset_generated_keeps (s : Home) :
  keeps s (set_backgroundImageRef None (setGeneratedImage None s)).
Proof. split; simpl; auto. Qed.

Lemma clearCanvas_well_formed (s : Home) : well_formed s -> well_formed (clearCanvas s).
Proof.
  intros W. unfold clearCanvas. destruct (canvasRef s) as [canvas |] eqn:E; [| exact W].
  destruct W as (_ & _ & Wt).
  apply (keeps_well_formed _ _ (reset_generated_keeps _)).
  apply saveCanvasState_well_formed; simpl; eauto.
Qed.

Lemma handleImageImport_well_formed file (s : Home) :
  well_formed s -> well_formed (handleImageImport file s).
Proof.
  intros W. unfold handleImageImport.
  destruct file as [img |]; [| exact W].
  destruct (canvasRef s) as [canvas |] eqn:E; [| exact W].
  destruct W as (_ & _ & Wt).
  apply (keeps_well_formed _ _ (reset_generated_keeps _)).
  apply saveCanvasState_well_formed; simpl; eauto.
Qed.

Lemma generatedImage_effect_well_formed (s : Home) :
  well_formed s -> well_formed (generatedImage_effect s).
Proof.
  intros W. unfold generatedImage_effect.
  destruct (generatedImage s) as [url |]; [| exact W].
  destruct (canvasRef s) as [canvas |] eqn:E; [| exact W].
  destruct (JS.truthy url); [| exact W].
  destruct (decodes url); [| exact W].
  assert (W' : well_formed (drawImageToCanvas (set_backgroundImageRef (Some url) s))).
  { eapply keeps_well_formed; [apply drawImageToCanvas_keeps |].
    eapply keeps_well_formed; [| exact W]. split; simpl; auto. }
  destruct W' as (Wc & _ & Wt). apply saveCanvasState_well_formed; assumption.
Qed.

Lemma afterRender_well_formed (s s' : Home) :
  well_formed s' -> well_formed (afterRender s s').
Proof.
  intros W. unfold afterRender. destruct (JS.same _ _); [exact W |].
  apply generatedImage_effect_well_formed, W.
Qed.

Lemma handle_well_formed (ev : Event) (w : World) :
  well_formed w.(home) -> well_formed (handle ev w).(home).
Proof.
  intros W. destruct ev; simpl.
  - eapply keeps_well_formed; [apply startDrawing_keeps | exact W].
  - eapply keeps_well_formed; [apply draw_keeps | exact W].
  - apply stopDrawing_well_formed, W.
  - apply clearCanvas_well_formed, W.
  - apply handleUndo_well_formed, W.
  - apply handleRedo_well_formed, W.
  - apply handleImageImport_well_formed, W.
  - exact W.
  - exact W.
  - exact W.
  - destruct (_ || _); [exact W |].
    pose proof (handleSubmit_start_keeps (home w)) as K.
    destruct (handleSubmit_start (home w)) as [s1 req]. simpl in *.
    eapply keeps_well_formed; [exact K | exact W].
  - destruct (pending w); [| exact W].
    pose proof (handleSubmit_settle_keeps o (home w)) as K.
    destruct (handleSubmit_settle o (home w)) as [s1 | e s1]; simpl in *;
      (eapply keeps_well_formed; [exact K | exact W]).
Qed.

Lemma mount_well_formed (key : option string) : well_formed (mount key).
Proof.
  unfold mount. destruct (JS.truthy_opt key); simpl;
    (split; [eauto | split; [split; [discriminate | simpl; lia] |]]);
    (constructor; [apply toDataURL_truthy | constructor]).
Qed.

Lemma step_well_formed (w : World) (ev : Event) :
  well_formed w.(home) -> well_formed (step w ev).(home).
Proof.
  intros W. unfold step. simpl. apply afterRender_well_formed, handle_well_formed, W.
Qed.

Lemma run_well_formed (evs : list Event) (w : World) :
  well_formed w.(home) -> well_formed (run evs w).(home).
Proof.
  revert w. induction evs as [| ev evs IH]; intros w W; [exact W |].
  simpl. apply IH, step_well_formed, W.
Qed.

End HistoryFacts.

Section HistoryClaims.
Context `{Encoder : PngEncoder} `{Decoder : ImageDecoder}.

Lemma same_refl (a : option string) : JS.same a a = true.
Proof. destruct a as [x |]; simpl; [apply String.eqb_refl | reflexivity]. Qed.

Lemma restoreCanvasState_generatedImage (d : option string) (s : Home) :
  (restoreCanvasState d s).(generatedImage) = s.(generatedImage).
Proof.
  unfold restoreCanvasState.
  destruct (canvasRef s), d as [url |]; try reflexivity.
  destruct (JS.truthy url); reflexivity.
Qed.

Lemma handleUndo_generatedImage (s : Home) :
  (handleUndo s).(generatedImage) = s.(generatedImage).
Proof.
  unfold handleUndo. destruct (_ <=? 0); [reflexivity |].
  simpl. apply restoreCanvasState_generatedImage.
Qed.

Lemma handleRedo_generatedImage (s : Home) :
  (handleRedo s).(generatedImage) = s.(generatedImage).
Proof.
  unfold handleRedo. destruct (_ >=? _); [reflexivity |].
  simpl. apply restoreCanvasState_generatedImage.
Qed.

(** C10. Undo and redo never touch the snapshot stack: after either
    handler, and after the whole turn of the event loop that runs it, the
    stack is the same list (same length, same snapshot at every position);
    only the index can differ. *)
Theorem undo_redo_leave_stack_unchanged (s : Home) (w : World) :
  (handleUndo s).(historyState).(stack) = s.(historyState).(stack)
  /\ (handleRedo s).(historyState).(stack) = s.(historyState).(stack)
  /\ (step w ClickUndo).(home).(historyState).(stack) = w.(home).(historyState).(stack)
  /\ (step w ClickRedo).(home).(historyState).(stack) = w.(home).(historyState).(stack).
Proof.
  assert (U : forall s0, (handleUndo s0).(historyState).(stack) = s0.(historyState).(stack)).
  { intros s0. rewrite handleUndo_history. destruct (_ <=? 0); reflexivity. }
  assert (R : forall s0, (handleRedo s0).(historyState).(stack) = s0.(historyState).(stack)).
  { intros s0. rewrite handleRedo_history. destruct (_ >=? _); reflexivity. }
  repeat split; auto.
  - unfold step, afterRender. simpl.
    rewrite handleUndo_generatedImage, same_refl. apply U.
  - unfold step, afterRender. simpl.
    rewrite handleRedo_generatedImage, same_refl. apply R.
Qed.

(** C2. The mount effect leaves one baseline snapshot with index 0, and
    after any sequence of events (strokes, clear, import, undo, redo,
    submissions and their outcomes) the snapshot stack is non-empty and
    [0 <= index < length stack]. *)
Theorem history_invariant_always_holds (key : option string) :
  (mount key).(historyState) =
    {| stack := [toDataURL (fillRect_all "#FFFFFF" canvasElement)]; index := 0 |}
  /\ forall evs : list Event,
       let h := (run evs (boot key)).(home).(historyState) in
       h.(stack) <> [] /\ 0 <= h.(index) < Z.of_nat (length h.(stack)).
Proof.
  split.
  - unfold mount. destruct (JS.truthy_opt key); reflexivity.
  - intros evs.
    destruct (run_well_formed evs (boot key) (mount_well_formed key)) as (_ & Hok & _).
    exact Hok.
Qed.

(** C3. In a well-formed state, undo at a positive index lowers the
    index by one and replaces the raster by the snapshot stored at the new
    index (drawn at the origin of the cleared canvas); at index 0 it
    changes nothing.  Redo below the last position raises the index by one
    and restores the snapshot stored there; at the last position it changes
    nothing. *)
Theorem undo_redo_move_index_and_restore (s : Home) :
  well_formed s ->
  let h := s.(historyState) in
  (0 < h.(index) ->
     (handleUndo s).(historyState).(index) = h.(index) - 1
     /\ exists d, h.(stack) !! Z.to_nat (h.(index) - 1) = Some d
          /\ bitmap <$> (handleUndo s).(canvasRef) = Some (DrawImage Transparent d [0; 0]%float))
  /\ (h.(index) = 0 -> handleUndo s = s)
  /\ (h.(index) < Z.of_nat (length h.(stack)) - 1 ->
     (handleRedo s).(historyState).(index) = h.(index) + 1
     /\ exists d, h.(stack) !! Z.to_nat (h.(index) + 1) = Some d
          /\ bitmap <$> (handleRedo s).(canvasRef) = Some (DrawImage Transparent d [0; 0]%float))
  /\ (h.(index) = Z.of_nat (length h.(stack)) - 1 -> handleRedo s = s).
Proof.
  intros ([canvas Hc] & [_ Hi] & Ht) h. subst h.
  assert (Restore : forall j : Z, 0 <= j < Z.of_nat (length (stack (historyState s))) ->
            exists d, stack (historyState s) !! Z.to_nat j = Some d
              /\ restoreCanvasState (JS.nth (stack (historyState s)) j) s =
                   set_canvasRef (Some (drawImage d [0; 0]%float (clearRect_all canvas))) s).
  { intros j Hj.
    destruct (lookup_lt_is_Some_2 (stack (historyState s)) (Z.to_nat j)) as [d Hd]; [lia |].
    exists d. split; [exact Hd |].
    unfold JS.nth. destruct (Z.ltb_spec j 0); [lia |]. rewrite Hd.
    unfold restoreCanvasState. rewrite Hc.
    rewrite Forall_lookup in Ht. rewrite (Ht _ _ Hd). reflexivity. }
  split; [| split; [| split]].
  - intros Hpos. rewrite handleUndo_history.
    destruct (Z.leb_spec (index (historyState s)) 0) as [Hle | _]; [lia |].
    split; [reflexivity |].
    destruct (Restore (index (historyState s) - 1)) as (d & Hd & Hr); [lia |].
    exists d. split; [exact Hd |].
    unfold handleUndo.
    destruct (Z.leb_spec (index (historyState s)) 0) as [Hle | _]; [lia |].
    simpl. rewrite Hr. reflexivity.
  - intros H0. unfold handleUndo. rewrite H0. reflexivity.
  - intros Hlt. rewrite handleRedo_history. unfold JS.last_index.
    destruct (Z.geb_spec (index (historyState s))
                (Z.of_nat (length (stack (historyState s))) - 1)) as [Hge | _]; [lia |].
    split; [reflexivity |].
    destruct (Restore (index (historyState s) + 1)) as (d & Hd & Hr); [lia |].
    exists d. split; [exact Hd |].
    unfold handleRedo, JS.last_index.
    destruct (Z.geb_spec (index (historyState s))
                (Z.of_nat (length (stack (historyState s))) - 1)) as [Hge | _]; [lia |].
    simpl. rewrite Hr. reflexivity.
  - intros Hlast. unfold handleRedo, JS.last_index. rewrite Hlast.
    rewrite Z.geb_leb, Z.leb_refl. reflexivity.
Qed.

(** C1.  From a history with stack [S] and index [i] inside it, a commit
    keeps [S[0..i]], discards every snapshot after position [i] and
    appends the new one, with the index on it (the case [k = 0]).  After
    [k] undos, each of which took effect ([k <= i]; the undo button is
    disabled at index 0), followed by one commit, the stack is
    [S[0..i-k]] plus the new snapshot, which is its last element and the
    one the index points at; counted from the last position
    ([i = length_before - 1]) its length is [(length_before - k) + 1]. *)
Theorem commit_after_undos_truncates_and_appends
    (s s' : Home) (canvas : Canvas) (k : nat) :
  let h := s.(historyState) in
  0 <= h.(index) < Z.of_nat (length h.(stack)) ->
  Z.of_nat k <= h.(index) ->
  s'.(historyState) = (Nat.iter k handleUndo s).(historyState) ->
  s'.(canvasRef) = Some canvas ->
  let h' := (saveCanvasState s').(historyState) in
  h'.(stack) = take (Z.to_nat (h.(index) - Z.of_nat k + 1)) h.(stack) ++ [toDataURL canvas]
  /\ Z.of_nat (length h'.(stack)) = (h.(index) - Z.of_nat k) + 2
  /\ last h'.(stack) = Some (toDataURL canvas)
  /\ h'.(index) = Z.of_nat (length h'.(stack)) - 1
  /\ (h.(index) = Z.of_nat (length h.(stack)) - 1 ->
      Z.of_nat (length h'.(stack)) = (Z.of_nat (length h.(stack)) - Z.of_nat k) + 1).
Proof.
  intros h Hi Hk Hs' Hc h'. subst h h'.
  rewrite (saveCanvasState_history s' canvas Hc), Hs'.
  rewrite (undo_iter_history k s Hk).
  assert (St : stack (pushSnapshot (toDataURL canvas)
                 {| stack := stack (historyState s);
                    index := index (historyState s) - Z.of_nat k |})
               = take (Z.to_nat (index (historyState s) - Z.of_nat k + 1))
                   (stack (historyState s)) ++ [toDataURL canvas]).
  { rewrite pushSnapshot_stack by (simpl; lia). reflexivity. }
  assert (Len : Z.of_nat (length (stack (pushSnapshot (toDataURL canvas)
                 {| stack := stack (historyState s);
                    index := index (historyState s) - Z.of_nat k |})))
                = index (historyState s) - Z.of_nat k + 2).
  { rewrite St, length_app, length_take. simpl. lia. }
  split; [exact St |]. split; [exact Len |].
  split; [rewrite St; apply last_snoc |].
  split; [apply pushSnapshot_index |].
  intros Hhead. rewrite Len. lia.
Qed.

(** Every committing handler goes through [saveCanvasState]: the end of
    a stroke, clear, import and the generated image that loads all replace
    the history by [pushSnapshot] of the canvas they leave. *)
Lemma committing_handlers_push (s : Home) (canvas : Canvas) (img : Image) (url : string) :
  s.(canvasRef) = Some canvas ->
  (s.(isDrawing) = true ->
     (stopDrawing s).(historyState) = pushSnapshot (toDataURL canvas) s.(historyState))
  /\ (clearCanvas s).(historyState) =
       pushSnapshot (toDataURL (fillRect_all "#FFFFFF" canvas)) s.(historyState)
  /\ (exists canvas', (handleImageImport (Some img) s).(canvasRef) = Some canvas'
        /\ (handleImageImport (Some img) s).(historyState) =
             pushSnapshot (toDataURL canvas') s.(historyState))
  /\ (s.(generatedImage) = Some url -> JS.truthy url = true -> decodes url = true ->
       exists canvas', (generatedImage_effect s).(canvasRef) = Some canvas'
        /\ (generatedImage_effect s).(historyState) =
             pushSnapshot (toDataURL canvas') s.(historyState)).
Proof.
  intros Hc. split; [| split; [| split]].
  - intros Hd. unfold stopDrawing. rewrite Hd. simpl.
    unfold saveCanvasState. simpl. rewrite Hc. reflexivity.
  - unfold clearCanvas. rewrite Hc. reflexivity.
  - unfold handleImageImport. rewrite Hc. simpl. eexists. split; reflexivity.
  - intros Hg Ht Hd. unfold generatedImage_effect. rewrite Hg, Hc, Ht, Hd.
    unfold drawImageToCanvas. simpl. rewrite Hc.
    unfold saveCanvasState. simpl. eexists. split; reflexivity.
Qed.

Lemma pushes_at_head (ds : list string) (h : HistoryState) :
  h.(index) = Z.of_nat (length h.(stack)) - 1 ->
  fold_left (fun h d => pushSnapshot d h) ds h =
    {| stack := h.(stack) ++ ds;
       index := Z.of_nat (length (h.(stack) ++ ds)) - 1 |}.
Proof.
  revert h. induction ds as [| d ds IH]; intros h Hhead.
  - simpl. rewrite app_nil_r. destruct h as [st i]. simpl in *. congruence.
  - simpl. rewrite IH by apply pushSnapshot_index.
    rewrite pushSnapshot_stack by lia.
    rewrite Hhead, take_ge by lia.
    rewrite <- !app_assoc. reflexivity.
Qed.

(** Commits with no undo in between only append: [n] commits after the
    baseline snapshot leave [n + 1] snapshots, in order, with the index on
    the last one. *)
Theorem commits_without_undo_append (d0 : string) (ds : list string) :
  fold_left (fun h d => pushSnapshot d h) ds {| stack := [d0]; index := 0 |} =
    {| stack := d0 :: ds; index := Z.of_nat (length ds) |}.
Proof.
  rewrite pushes_at_head by reflexivity. simpl. f_equal. lia.
Qed.

End HistoryClaims.

Section BridgeClaims.
Context `{Encoder : PngEncoder} `{Decoder : ImageDecoder}.

Lemma truthy_empty (a : string) : JS.truthy a = false -> a = "".
Proof. destruct a; [reflexivity | discriminate]. Qed.

(** C9. With no API key configured, [handleSubmit] only opens the key
    dialog: no request is sent to the generation capability, whatever that
    capability would answer, and the canvas and the history are the ones
    from before. *)
Theorem submit_without_key_is_refused
    (s : Home) (generateContent : GenerateContentParameters -> Outcome) :
  s.(apiKey) = "" ->
  (handleSubmit_start s).2 = None
  /\ handleSubmit generateContent s = Done (setShowApiKeyModal true s)
  /\ (setShowApiKeyModal true s).(showApiKeyModal) = true
  /\ (setShowApiKeyModal true s).(canvasRef) = s.(canvasRef)
  /\ (setShowApiKeyModal true s).(historyState) = s.(historyState)
  /\ (setShowApiKeyModal true s).(isLoading) = s.(isLoading).
Proof.
  intros Hkey. unfold handleSubmit, handleSubmit_start. rewrite Hkey. simpl.
  repeat split; reflexivity.
Qed.

(** C5, as the code has it.  With a key and a mounted canvas, the
    request is the prompt alone only when the canvas has no pixels (zero width or
    height).  Otherwise, whatever is on the canvas, the untouched white
    background included, the request has two parts in order: the PNG of
    the canvas over white, then the prompt followed by the style hint. *)
Theorem request_carries_canvas_image_unless_canvas_is_empty
    (s : Home) (canvas : Canvas) :
  JS.truthy s.(apiKey) = true ->
  s.(canvasRef) = Some canvas ->
  let drawingData :=
    pngSignature +:+ JS.upto_comma
      (pngBody canvas.(width) canvas.(height)
         (DrawCanvas (FillRect "#FFFFFF") canvas.(bitmap))) in
  (handleSubmit_start s).2 =
    Some {| model := s.(selectedModel);
            contents :=
              if (canvas.(width) =? 0) || (canvas.(height) =? 0)
              then [ {| role := "USER";
                        parts := [ {| text := Some s.(prompt); inlineData := None |} ] |} ]
              else [ {| role := "USER";
                        parts := [ {| text := None;
                                      inlineData := Some {| data := Some drawingData;
                                                            mimeType := Some "image/png" |} |} ] |};
                     {| role := "USER";
                        parts := [ {| text := Some (s.(prompt) +:+
                                        ". Keep the same minimal line drawing style.");
                                      inlineData := None |} ] |} ];
            responseModalities := [TEXT; IMAGE] |}.
Proof.
  intros Hkey Hc drawingData. subst drawingData.
  unfold handleSubmit_start. rewrite Hkey, Hc. simpl.
  unfold buildContents, toDataURL. simpl.
  destruct ((width canvas =? 0) || (height canvas =? 0)); reflexivity.
Qed.

Lemma collect_parts_last_image (ps : list Part) (d : ResultData) :
  Forall (fun b => is_Some b.(data)) (imageBlobs ps) ->
  exists d', collect_parts ps d = Normal d'
    /\ d'.(success) = d.(success)
    /\ d'.(imageData) =
         match last (imageBlobs ps) with
         | Some b => b.(data)
         | None => d.(imageData)
         end.
Proof.
  revert d. induction ps as [| p ps IH]; intros d Hall.
  - exists d. repeat split.
  - unfold imageBlobs in *. simpl in *. unfold collect_part.
    destruct (JS.truthy_opt (text p)).
    + simpl. destruct (IH {| success := success d; data_message := default "" (text p);
                             imageData := imageData d; data_error := data_error d |} Hall)
        as (d' & E & S & I).
      exists d'. repeat split; assumption.
    + destruct (inlineData p) as [blob |].
      * apply Forall_cons in Hall. destruct Hall as [[img Himg] Hall].
        rewrite Himg. simpl.
        destruct (IH {| success := success d; data_message := data_message d;
                        imageData := Some img; data_error := data_error d |} Hall)
          as (d' & E & S & I).
        exists d'. split; [exact E |]. split; [exact S |].
        rewrite I, last_cons. simpl.
        destruct (last _); [reflexivity | symmetry; exact Himg].
      * simpl. apply IH, Hall.
Qed.

(** C6, as the code has it.  When the response's first candidate has
    image parts (parts without non-empty text that carry inline data),
    each with data, and the last of them has non-empty data, applying the
    result takes that last image (the loop overwrites earlier ones) and
    makes its data URL the generated image.  If that URL differs from the
    previous generated image and the browser decodes it, it becomes the
    background image, is painted over white at canvas size, and one
    snapshot is committed by the truncation rule: the stack becomes
    [S[0..i]] plus the new snapshot, of length [i + 2], which is one more
    than before exactly when the index was on the last position.  If the
    browser does not decode it, nothing is applied: the canvas, the
    background image and the history stay as they were.  The resulting
    state is a function of that image alone: text parts leave no trace in
    it. *)
Theorem applied_result_takes_last_image_and_commits
    (s : Home) (canvas : Canvas) (response : GenerateContentResponse)
    (ps : list Part) (blob : Blob) (img : string) :
  s.(canvasRef) = Some canvas ->
  -1 <= s.(historyState).(index) < Z.of_nat (length s.(historyState).(stack)) ->
  candidate_parts response = Normal ps ->
  Forall (fun b => is_Some b.(data)) (imageBlobs ps) ->
  last (imageBlobs ps) = Some blob ->
  blob.(data) = Some img ->
  JS.truthy img = true ->
  let url := "data:image/png;base64," +:+ img in
  JS.same s.(generatedImage) (Some url) = false ->
  let painted :=
    drawImage url [0; 0; JS.num canvas.(width); JS.num canvas.(height)]%float
      (fillRect_all "#FFFFFF" canvas) in
  let s1 := setIsLoading false (setGeneratedImage (Some url) s) in
  handleSubmit_settle (Fulfilled response) s = Done s1
  /\ (decodes url = true ->
      afterRender s s1 =
        saveCanvasState (drawImageToCanvas (set_backgroundImageRef (Some url) s1))
      /\ (afterRender s s1).(backgroundImageRef) = Some url
      /\ (afterRender s s1).(canvasRef) = Some painted
      /\ (afterRender s s1).(historyState).(stack) =
           take (Z.to_nat (s.(historyState).(index) + 1)) s.(historyState).(stack)
             ++ [toDataURL painted]
      /\ (afterRender s s1).(historyState).(index) =
           Z.of_nat (length (afterRender s s1).(historyState).(stack)) - 1
      /\ Z.of_nat (length (afterRender s s1).(historyState).(stack)) =
           s.(historyState).(index) + 2
      /\ (s.(historyState).(index) = Z.of_nat (length s.(historyState).(stack)) - 1 ->
          length (afterRender s s1).(historyState).(stack) =
            S (length s.(historyState).(stack))))
  /\ (decodes url = false ->
      afterRender s s1 = s1
      /\ s1.(canvasRef) = s.(canvasRef)
      /\ s1.(backgroundImageRef) = s.(backgroundImageRef)
      /\ s1.(historyState) = s.(historyState)).
Proof.
  intros Hc Hi Hps Hall Hlast Hdata Himg url Hnew painted s1.
  destruct (collect_parts_last_image ps data0 Hall) as (d & Ed & Sd & Id).
  rewrite Hlast, Hdata in Id. simpl in Sd.
  assert (Settle : handleSubmit_settle (Fulfilled response) s = Done s1).
  { unfold handleSubmit_settle, try_catch_finally, handleSubmit_resume. simpl.
    rewrite Hps. simpl. rewrite Ed. simpl. rewrite Sd, Id. simpl. rewrite Himg.
    reflexivity. }
  split; [exact Settle |]. split.
  - intros Hdec.
    assert (Render : afterRender s s1 =
              saveCanvasState (drawImageToCanvas (set_backgroundImageRef (Some url) s1))).
    { unfold afterRender. subst s1. simpl. fold url. rewrite Hnew.
      unfold generatedImage_effect. simpl. rewrite Hc. fold url. rewrite Hdec.
      reflexivity. }
    split; [exact Render |].
    rewrite Render.
    assert (Hist : historyState
              (saveCanvasState (drawImageToCanvas (set_backgroundImageRef (Some url) s1)))
              = pushSnapshot (toDataURL painted) (historyState s)).
    { unfold saveCanvasState, drawImageToCanvas. simpl. rewrite Hc. simpl. reflexivity. }
    split; [unfold saveCanvasState, drawImageToCanvas; simpl; rewrite Hc; reflexivity |].
    split; [unfold saveCanvasState, drawImageToCanvas; simpl; rewrite Hc; reflexivity |].
    rewrite Hist.
    split; [apply pushSnapshot_stack; lia |].
    split; [apply pushSnapshot_index |].
    rewrite pushSnapshot_stack by lia.
    rewrite length_app, length_take. simpl.
    split; [lia |]. intros Hhead. lia.
  - intros Hdec. split; [| repeat split].
    unfold afterRender. subst s1. simpl. fold url. rewrite Hnew.
    unfold generatedImage_effect. simpl. rewrite Hc. fold url. rewrite Hdec.
    reflexivity.
Qed.

(** A readable response without any image part is reported by [alert]
    only: the error dialog, the canvas, the background image and the
    history stay as they were, and no effect runs afterwards. *)
Theorem response_without_image_only_alerts
    (s : Home) (response : GenerateContentResponse) (ps : list Part) :
  candidate_parts response = Normal ps ->
  imageBlobs ps = [] ->
  let s' := setIsLoading false (alert "Failed to generate image. Please try again." s) in
  handleSubmit_settle (Fulfilled response) s = Done s'
  /\ afterRender s s' = s'
  /\ s'.(canvasRef) = s.(canvasRef)
  /\ s'.(historyState) = s.(historyState)
  /\ errorModal s' = errorModal s.
Proof.
  intros Hps Hnone s'. subst s'.
  destruct (collect_parts_last_image ps data0) as (d & Ed & Sd & Id).
  { rewrite Hnone. constructor. }
  rewrite Hnone in Id. simpl in Id, Sd.
  split.
  - unfold handleSubmit_settle, try_catch_finally, handleSubmit_resume. simpl.
    rewrite Hps. simpl. rewrite Ed. simpl. rewrite Sd, Id. reflexivity.
  - split; [| repeat split].
    unfold afterRender. simpl. rewrite same_refl. reflexivity.
Qed.

End BridgeClaims.

(* ------------------------------------------------------------------ *)
(** ** Binary64 arithmetic on the numbers of the import placement *)

(** The shifts of the import placement are [(960 - iw * r) / 2] and
    [(540 - ih * r) / 2] with [r] a rounded quotient.  The lemmas below
    follow the specification of binary64 arithmetic ([SpecFloat]) through
    these operations: the rounding step ([binary_round_aux]) is described
    by [rounded]; a quotient of two integers below [2 ^ 53] is within half
    a unit in the last place of the exact one; a product whose exact value
    is [T] up to that error rounds to [T] or to one of its two neighbours
    when [512 < T < 1024]. *)

Section Binary64.

(** The number of binary digits. *)
Lemma digits2_pos_log2 (p : positive) : Z.pos (digits2_pos p) = Z.log2 (Z.pos p) + 1.
Proof.
  assert (S : forall q, digits2_pos q = Pos.size q).
  { induction q as [q IH | q IH |]; simpl; congruence. }
  destruct p as [p | p |]; simpl; rewrite ?S; lia.
Qed.

Lemma Zdigits2_unique (m d : Z) :
  0 < d -> 2 ^ (d - 1) <= m < 2 ^ d -> Zdigits2 m = d.
Proof.
  intros Hd Hm.
  assert (0 < m) by (pose proof (Z.pow_pos_nonneg 2 (d - 1)); lia).
  destruct m as [| p | p]; try lia.
  simpl. rewrite digits2_pos_log2.
  rewrite (Z.log2_unique (Z.pos p) (d - 1)); [lia | lia |].
  replace (Z.succ (d - 1)) with d by lia. exact Hm.
Qed.

(** Shifting right by [n] places divides the unit by [2 ^ n] and keeps
    track of where the rest lies. *)
Lemma iter_pos_nat {A} (f : A -> A) (p : positive) (x : A) :
  SpecFloat.iter_pos f p x = Nat.iter (Pos.to_nat p) f x.
Proof.
  revert x. induction p as [p IH | p IH |]; intros x; cbn [SpecFloat.iter_pos].
  - rewrite !IH. rewrite Pos2Nat.inj_xI.
    replace (S (2 * Pos.to_nat p))%nat with (Pos.to_nat p + (Pos.to_nat p + 1))%nat by lia.
    rewrite !Nat.iter_add. reflexivity.
  - rewrite !IH. rewrite Pos2Nat.inj_xO.
    replace (2 * Pos.to_nat p)%nat with (Pos.to_nat p + Pos.to_nat p)%nat by lia.
    rewrite Nat.iter_add. reflexivity.
  - reflexivity.
Qed.

Lemma loc_of_record (m : Z) (l : location) :
  shr_m (shr_record_of_loc m l) = m /\ loc_of_shr_record (shr_record_of_loc m l) = l.
Proof. destruct l as [| []]; split; reflexivity. Qed.

Lemma shr_1_nonneg (m : Z) (r s : bool) :
  0 <= m ->
  shr_1 {| shr_m := m; shr_r := r; shr_s := s |} =
  {| shr_m := m / 2; shr_r := Z.odd m; shr_s := r || s |}.
Proof.
  intros Hm. rewrite <- Z.div2_div.
  destruct m as [| [p | p |] |]; try lia; reflexivity.
Qed.

(** One step of [shr] halves the unit. *)
Lemma shr_1_loc (N D : Z) :
  0 <= N -> 0 < D ->
  shr_1 (shr_record_of_loc (N / D) (loc_of N D)) =
  shr_record_of_loc (N / (2 * D)) (loc_of N (2 * D)).
Proof.
  intros HN HD.
  pose proof (Z.div_mod N D ltac:(lia)) as E.
  pose proof (Z.mod_pos_bound N D HD) as B.
  pose proof (Z.div_pos N D HN HD) as Q.
  set (q := N / D) in *. set (r := N mod D) in *.
  assert (Hq2 : q = 2 * (q / 2) + q mod 2) by (apply Z.div_mod; lia).
  pose proof (Z.mod_pos_bound q 2 ltac:(lia)) as B2.
  assert (Hdiv : N / (2 * D) = q / 2).
  { symmetry. apply (Z.div_unique N (2 * D) (q / 2) ((q mod 2) * D + r)); nia. }
  assert (Hmod : N mod (2 * D) = (q mod 2) * D + r).
  { symmetry. apply (Z.mod_unique N (2 * D) (q / 2) ((q mod 2) * D + r)); nia. }
  assert (Hodd : Z.odd q = (q mod 2 =? 1)).
  { rewrite Zmod_odd. destruct (Z.odd q); reflexivity. }
  assert (Rec : shr_record_of_loc q (loc_of N D) =
            {| shr_m := q;
               shr_r := negb (r =? 0) && negb (2 * r <? D);
               shr_s := negb (r =? 0) && negb (2 * r =? D) |}).
  { unfold loc_of. fold r. destruct (Z.eqb_spec r 0); [reflexivity |].
    generalize (2 * r). intros t.
    destruct (Z.compare_spec t D); destruct (Z.ltb_spec t D); destruct (Z.eqb_spec t D);
      try lia; reflexivity. }
  rewrite Rec, shr_1_nonneg by exact Q.
  rewrite Hdiv, Hodd. unfold loc_of. rewrite Hmod.
  destruct (Z.eqb_spec (q mod 2) 1) as [H1 | H1].
  - rewrite H1. destruct (Z.eqb_spec r 0) as [Hr | Hr].
    + destruct (Z.eqb_spec (1 * D + r) 0); [lia |].
      replace (2 * (1 * D + r) ?= 2 * D) with Eq by (symmetry; apply Z.compare_eq_iff; lia).
      reflexivity.
    + destruct (Z.eqb_spec (1 * D + r) 0); [lia |].
      replace (2 * (1 * D + r) ?= 2 * D) with Gt by (symmetry; apply Z.compare_gt_iff; lia).
      generalize (2 * r). intros t.
      destruct (Z.ltb_spec t D), (Z.eqb_spec t D); try reflexivity; lia.
  - assert (H0 : q mod 2 = 0) by lia. rewrite H0.
    destruct (Z.eqb_spec r 0) as [Hr | Hr].
    + destruct (Z.eqb_spec (0 * D + r) 0); [| lia]. reflexivity.
    + destruct (Z.eqb_spec (0 * D + r) 0); [lia |].
      replace (2 * (0 * D + r) ?= 2 * D) with Lt by (symmetry; apply Z.compare_lt_iff; lia).
      generalize (2 * r). intros t.
      destruct (Z.ltb_spec t D), (Z.eqb_spec t D); try reflexivity; lia.
Qed.

Lemma shr_iter_loc (n : nat) (N D : Z) :
  0 <= N -> 0 < D ->
  Nat.iter n shr_1 (shr_record_of_loc (N / D) (loc_of N D)) =
  shr_record_of_loc (N / (2 ^ Z.of_nat n * D)) (loc_of N (2 ^ Z.of_nat n * D)).
Proof.
  intros HN HD. induction n as [| n IH].
  - change (Nat.iter 0 shr_1 ?x) with x. change (Z.of_nat 0) with 0.
    rewrite Z.pow_0_r, Z.mul_1_l. reflexivity.
  - rewrite Nat.iter_succ, IH.
    assert (0 < 2 ^ Z.of_nat n) by (apply Z.pow_pos_nonneg; lia).
    rewrite shr_1_loc by nia.
    replace (2 * (2 ^ Z.of_nat n * D)) with (2 ^ Z.of_nat (S n) * D).
    + reflexivity.
    + rewrite Nat2Z.inj_succ, Z.pow_succ_r by lia. lia.
Qed.

Lemma shr_loc (N D e n : Z) :
  0 <= N -> 0 < D -> 0 <= n ->
  shr (shr_record_of_loc (N / D) (loc_of N D)) e n =
  (shr_record_of_loc (N / (2 ^ n * D)) (loc_of N (2 ^ n * D)), e + n).
Proof.
  intros HN HD Hn. destruct n as [| p | p]; [| | lia].
  - cbn [shr]. rewrite Z.pow_0_r, Z.mul_1_l, Z.add_0_r. reflexivity.
  - unfold shr. rewrite iter_pos_nat, shr_iter_loc by assumption.
    rewrite positive_nat_Z. reflexivity.
Qed.

(** Rounding to nearest moves to one of the two integers around [N / D],
    at most half a unit away. *)
Lemma round_nearest_even_loc (N D : Z) :
  0 <= N -> 0 < D ->
  let m := round_nearest_even (N / D) (loc_of N D) in
  N / D <= m <= N / D + 1 /\ 2 * Z.abs (m * D - N) <= D.
Proof.
  intros HN HD m. subst m.
  pose proof (Z.div_mod N D ltac:(lia)) as E.
  pose proof (Z.mod_pos_bound N D HD) as B.
  unfold loc_of. set (q := N / D) in *. set (r := N mod D) in *.
  assert (A0 : q * D - N = - r) by lia.
  assert (A1 : (q + 1) * D - N = D - r) by lia.
  destruct (Z.eqb_spec r 0) as [Hr | Hr]; [cbn [round_nearest_even]; rewrite A0; lia |].
  destruct (Z.compare_spec (2 * r) D) as [Hc | Hc | Hc]; cbn [round_nearest_even].
  - destruct (Z.even q); rewrite ?A0, ?A1; lia.
  - rewrite A0; lia.
  - rewrite A1; lia.
Qed.

Lemma fexp_normal (e : Z) : -1074 <= e - 53 -> fexp prec emax e = e - 53.
Proof. intros He. unfold fexp, emin, prec, emax. lia. Qed.

(** [binary_round_aux] on a number with [d >= 53] digits, in the range
    of the normal numbers. *)
Lemma binary_round_aux_loc (N D e0 d : Z) :
  0 < D -> 53 <= d ->
  2 ^ (d - 1) * D <= N < 2 ^ d * D ->
  -1074 <= e0 + (d - 53) <= 970 ->
  binary_round_aux prec emax false (N / D) e0 (loc_of N D) = rounded N D e0 d.
Proof.
  intros HD Hd HN He.
  assert (P1 : 0 < 2 ^ (d - 1)) by (apply Z.pow_pos_nonneg; lia).
  assert (Pn : 0 < 2 ^ (d - 53)) by (apply Z.pow_pos_nonneg; lia).
  assert (Pd : 2 ^ d = 2 * 2 ^ (d - 1)).
  { rewrite <- Z.pow_succ_r by lia. f_equal. lia. }
  assert (Pd' : 2 ^ (d - 1) = 2 ^ 52 * 2 ^ (d - 53)).
  { rewrite <- Z.pow_add_r by lia. f_equal. lia. }
  assert (HN0 : 0 <= N) by nia.
  assert (Hq : 2 ^ (d - 1) <= N / D < 2 ^ d).
  { split; [apply Z.div_le_lower_bound; lia | apply Z.div_lt_upper_bound; lia]. }
  set (n := d - 53) in *.
  assert (Hm1 : 2 ^ 52 <= N / (2 ^ n * D) < 2 ^ 53).
  { split; [apply Z.div_le_lower_bound; nia | apply Z.div_lt_upper_bound; nia]. }
  unfold binary_round_aux, shr_fexp.
  rewrite (Zdigits2_unique (N / D) d) by lia.
  rewrite fexp_normal by lia.
  replace (d + e0 - 53 - e0) with n by lia.
  rewrite shr_loc by lia.
  destruct (loc_of_record (N / (2 ^ n * D)) (loc_of N (2 ^ n * D))) as [-> ->].
  unfold rounded. fold n.
  destruct (round_nearest_even_loc N (2 ^ n * D) HN0 ltac:(nia)) as [Hr _].
  set (m := round_nearest_even (N / (2 ^ n * D)) (loc_of N (2 ^ n * D))) in *.
  destruct (Z.ltb_spec m (2 ^ 53)) as [Hlt | Hge].
  - rewrite (Zdigits2_unique m 53) by (change (53 - 1) with 52; lia).
    rewrite fexp_normal by lia.
    replace (53 + (e0 + n) - 53 - (e0 + n)) with 0 by lia.
    cbn [shr]. destruct (loc_of_record m loc_Exact) as [-> _].
    assert (0 < m) by (pose proof (Z.pow_pos_nonneg 2 52); lia).
    destruct m as [| p | p]; try lia.
    unfold prec, emax. destruct (Z.leb_spec (e0 + n) (1024 - 53)); [reflexivity | lia].
  - assert (Hm : m = 2 ^ 53) by lia. rewrite Hm.
    change (Zdigits2 (2 ^ 53)) with 54.
    rewrite fexp_normal by lia.
    replace (54 + (e0 + n) - 53 - (e0 + n)) with 1 by lia.
    cbn [shr SpecFloat.iter_pos]. change (shr_m _) with (2 ^ 52).
    change (2 ^ 52) with (Z.pos (Z.to_pos (2 ^ 52))) at 1.
    cbv iota. unfold prec, emax.
    destruct (Z.leb_spec (e0 + n + 1) (1024 - 53)); [reflexivity | lia].
Qed.

Lemma iter_xO (p k : positive) : Z.pos (Pos.iter xO p k) = Z.pos p * 2 ^ Z.pos k.
Proof.
  induction k as [| k IH] using Pos.peano_ind.
  - cbn [Pos.iter]. rewrite Pos2Z.inj_xO. change (2 ^ 1) with 2. lia.
  - rewrite Pos.iter_succ, Pos2Z.inj_xO, IH, Pos2Z.inj_succ, Z.pow_succ_r by lia. lia.
Qed.

Lemma loc_of_1 (N : Z) : N / 1 = N /\ loc_of N 1 = loc_Exact.
Proof. unfold loc_of. rewrite Z.div_1_r, Z.mod_1_r. split; reflexivity. Qed.

(** Rounding a number that has 53 digits changes nothing. *)
Lemma rounded_53 (N e0 : Z) :
  2 ^ 52 <= N < 2 ^ 53 ->
  rounded N 1 e0 53 = S754_finite false (Z.to_pos N) e0.
Proof.
  intros HN. unfold rounded. change (53 - 53) with 0.
  rewrite Z.pow_0_r, Z.mul_1_l.
  destruct (loc_of_1 N) as [-> ->]. cbn [round_nearest_even].
  destruct (Z.ltb_spec N (2 ^ 53)); [| lia]. rewrite Z.add_0_r. reflexivity.
Qed.

Lemma log2_digits (z : Z) :
  0 < z -> let d := Z.log2 z + 1 in 0 < d /\ 2 ^ (d - 1) <= z < 2 ^ d.
Proof.
  intros Hz d. subst d. pose proof (Z.log2_nonneg z).
  pose proof (Z.log2_spec z Hz) as [L U].
  replace (Z.log2 z + 1 - 1) with (Z.log2 z) by lia.
  replace (Z.succ (Z.log2 z)) with (Z.log2 z + 1) in U by lia. lia.
Qed.

(** An integer below [2 ^ 53] is converted exactly. *)
Lemma num_spec (z : Z) : 0 < z < 2 ^ 53 -> Prim2SF (JS.num z) = SFofZ z.
Proof.
  intros Hz. unfold JS.num. rewrite FloatAxioms.of_uint63_spec, Uint63.of_Z_spec.
  rewrite Z.mod_small by (change wB with (2 ^ 63); split; [lia |];
    apply Z.lt_trans with (2 ^ 53); [lia | reflexivity]).
  destruct (log2_digits z ltac:(lia)) as [Hd0 Hd].
  unfold SFofZ. set (d := Z.log2 z + 1) in *.
  assert (Hd53 : d <= 53).
  { destruct (Z.le_gt_cases d 53) as [| Hgt]; [assumption |].
    assert (2 ^ 53 <= 2 ^ (d - 1)) by (apply Z.pow_le_mono_r; lia). lia. }
  destruct z as [| p | p]; try lia.
  unfold binary_normalize, binary_round.
  assert (Dg : Z.pos (digits2_pos p) = d).
  { change (Z.pos (digits2_pos p)) with (Zdigits2 (Z.pos p)).
    apply Zdigits2_unique; assumption. }
  rewrite Dg, fexp_normal by lia. rewrite Z.add_0_r.
  assert (Hsh : shl_align p 0 (d - 53) = (Z.to_pos (Z.pos p * 2 ^ (53 - d)), d - 53)).
  { unfold shl_align. rewrite Z.sub_0_r.
    destruct (d - 53) as [| k | k] eqn:Ek; try lia.
    - replace (53 - d) with 0 by lia. rewrite Z.pow_0_r, Z.mul_1_r.
      replace d with 53 by lia. reflexivity.
    - replace (53 - d) with (Z.pos k) by lia. rewrite <- iter_xO. reflexivity. }
  rewrite Hsh.
  assert (P : 0 < 2 ^ (53 - d)) by (apply Z.pow_pos_nonneg; lia).
  assert (HM : 2 ^ 52 <= Z.pos p * 2 ^ (53 - d) < 2 ^ 53).
  { assert (E1 : 2 ^ 52 = 2 ^ (d - 1) * 2 ^ (53 - d)).
    { rewrite <- Z.pow_add_r by lia. f_equal. lia. }
    assert (E2 : 2 ^ 53 = 2 ^ d * 2 ^ (53 - d)).
    { rewrite <- Z.pow_add_r by lia. f_equal. lia. }
    rewrite E1, E2. nia. }
  set (M := Z.pos p * 2 ^ (53 - d)) in *.
  rewrite Z2Pos.id by lia.
  destruct (loc_of_1 M) as [E1 E2].
  rewrite <- E1 at 1. rewrite <- E2.
  rewrite (binary_round_aux_loc M 1 (d - 53) 53); try lia.
  apply rounded_53. exact HM.
Qed.

Lemma new_location_loc (N D : Z) :
  0 < D -> new_location D (N mod D) = loc_of N D.
Proof.
  intros HD. pose proof (Z.mod_pos_bound N D HD) as B.
  unfold new_location, loc_of, new_location_even, new_location_odd.
  set (r := N mod D) in *.
  destruct (Z.even D) eqn:Ev; destruct (Z.eqb_spec r 0); try reflexivity.
  f_equal. rewrite <- Z.negb_odd in Ev. apply negb_false_iff in Ev.
  apply Z.odd_spec in Ev. destruct Ev as [k Hk].
  destruct (Z.compare_spec (2 * r + 1) D), (Z.compare_spec (2 * r) D); try reflexivity; lia.
Qed.

(** Division and multiplication of normal positive numbers. *)
Lemma SFdiv_finite (mx my : positive) (ex ey : Z) :
  2 ^ 52 <= Z.pos mx < 2 ^ 53 ->
  2 ^ 52 <= Z.pos my < 2 ^ 53 ->
  -1074 <= ex - ey - 53 -> ex - ey - 52 <= 970 ->
  SFdiv prec emax (S754_finite false mx ex) (S754_finite false my ey) =
  div_rounded (Z.pos mx) ex (Z.pos my) ey.
Proof.
  intros Hx Hy Hlo Hhi.
  unfold SFdiv, SFdiv_core_binary.
  rewrite (Zdigits2_unique (Z.pos mx) 53), (Zdigits2_unique (Z.pos my) 53)
    by (change (53 - 1) with 52; lia).
  replace (53 + ex - (53 + ey)) with (ex - ey) by lia.
  rewrite fexp_normal by lia.
  rewrite Z.min_l by lia.
  replace (ex - ey - (ex - ey - 53)) with 53 by lia.
  rewrite Z.shiftl_mul_pow2 by lia.
  set (N := Z.pos mx * 2 ^ 53).
  pose proof (new_location_loc N (Z.pos my) ltac:(lia)) as L.
  unfold Z.modulo in L. unfold div_rounded.
  assert (Q : N / Z.pos my = fst (Z.div_eucl N (Z.pos my))).
  { unfold Z.div. destruct (Z.div_eucl N (Z.pos my)); reflexivity. }
  destruct (Z.div_eucl N (Z.pos my)) as [q r]. cbn [fst] in Q. subst q.
  rewrite L. cbn [xorb].
  apply binary_round_aux_loc; try lia.
  - destruct (Z.ltb_spec (Z.pos mx) (Z.pos my)); lia.
  - subst N. destruct (Z.ltb_spec (Z.pos mx) (Z.pos my)).
    + change (53 - 1) with 52. nia.
    + change (54 - 1) with 53. change (2 ^ 54) with (2 * 2 ^ 53). nia.
  - destruct (Z.ltb_spec (Z.pos mx) (Z.pos my)); lia.
Qed.

Lemma SFmul_finite (mx my : positive) (ex ey : Z) :
  2 ^ 52 <= Z.pos mx < 2 ^ 53 ->
  2 ^ 52 <= Z.pos my < 2 ^ 53 ->
  -1074 <= ex + ey + 52 -> ex + ey + 53 <= 970 ->
  SFmul prec emax (S754_finite false mx ex) (S754_finite false my ey) =
  mul_rounded (Z.pos mx) ex (Z.pos my) ey.
Proof.
  intros Hx Hy Hlo Hhi.
  unfold SFmul, mul_rounded. cbn [xorb].
  rewrite Pos2Z.inj_mul.
  set (N := Z.pos mx * Z.pos my).
  destruct (loc_of_1 N) as [E1 E2].
  rewrite <- E1 at 1. rewrite <- E2.
  assert (HN : 2 ^ 104 <= N < 2 ^ 106).
  { subst N. change (2 ^ 104) with (2 ^ 52 * 2 ^ 52).
    change (2 ^ 106) with (2 ^ 53 * 2 ^ 53). nia. }
  apply binary_round_aux_loc; try lia.
  - destruct (Z.ltb_spec N (2 ^ 105)); lia.
  - destruct (Z.ltb_spec N (2 ^ 105)).
    + change (105 - 1) with 104. lia.
    + change (106 - 1) with 105. lia.
  - destruct (Z.ltb_spec N (2 ^ 105)); lia.
Qed.

(** [rounded] is a normal positive number. *)
Lemma rounded_normal (N D e0 d : Z) :
  0 < D -> 53 <= d ->
  2 ^ (d - 1) * D <= N < 2 ^ d * D ->
  exists m e, rounded N D e0 d = S754_finite false (Z.to_pos m) e
    /\ 2 ^ 52 <= m < 2 ^ 53
    /\ e0 + (d - 53) <= e <= e0 + (d - 53) + 1.
Proof.
  intros HD Hd HN.
  assert (P1 : 0 < 2 ^ (d - 1)) by (apply Z.pow_pos_nonneg; lia).
  assert (Pn : 0 < 2 ^ (d - 53)) by (apply Z.pow_pos_nonneg; lia).
  assert (Pd' : 2 ^ (d - 1) = 2 ^ 52 * 2 ^ (d - 53)).
  { rewrite <- Z.pow_add_r by lia. f_equal. lia. }
  assert (HN0 : 0 <= N) by nia.
  unfold rounded. set (n := d - 53) in *.
  assert (Hm1 : 2 ^ 52 <= N / (2 ^ n * D)).
  { apply Z.div_le_lower_bound; nia. }
  destruct (round_nearest_even_loc N (2 ^ n * D) HN0 ltac:(nia)) as [Hr _].
  set (m := round_nearest_even (N / (2 ^ n * D)) (loc_of N (2 ^ n * D))) in *.
  destruct (Z.ltb_spec m (2 ^ 53)).
  - exists m, (e0 + n). split; [reflexivity |]. lia.
  - exists (2 ^ 52), (e0 + n + 1). split; [reflexivity |]. lia.
Qed.

(** The quotient of two normal numbers is within half a unit in the last
    place of the exact one. *)
Lemma div_rounded_spec (mx ex my ey : Z) :
  2 ^ 52 <= mx < 2 ^ 53 ->
  2 ^ 52 <= my < 2 ^ 53 ->
  exists m n,
    div_rounded mx ex my ey = S754_finite false (Z.to_pos m) (ex - ey - 53 + n)
    /\ 2 ^ 52 <= m < 2 ^ 53
    /\ 0 <= n <= 1
    /\ 2 * Z.abs (m * (2 ^ n * my) - mx * 2 ^ 53) <= 2 ^ n * my.
Proof.
  intros Hx Hy. unfold div_rounded, rounded.
  set (d := if mx <? my then 53 else 54).
  set (n := d - 53).
  assert (Hn : (n = 0 /\ mx < my) \/ (n = 1 /\ my <= mx)).
  { subst n d. destruct (Z.ltb_spec mx my); [left | right]; split; lia. }
  assert (Pn : 2 ^ n = 1 \/ 2 ^ n = 2).
  { destruct Hn as [[-> _] | [-> _]]; [left | right]; reflexivity. }
  set (N := mx * 2 ^ 53). set (D' := 2 ^ n * my).
  assert (HD' : 0 < D') by (subst D'; nia).
  assert (HN0 : 0 <= N) by (subst N; nia).
  assert (Hlo : 2 ^ 52 * D' <= N).
  { subst N D'. change (2 ^ 53) with (2 * 2 ^ 52).
    destruct Hn as [[Hn0 Hlt] | [Hn1 Hge]], Pn as [Pn | Pn]; rewrite ?Hn0, ?Hn1 in *;
      try (exfalso; cbn in Pn; lia); rewrite Pn; nia. }
  assert (Hhi : N <= (2 ^ 53 - 1) * D').
  { subst N D'.
    destruct Hn as [[Hn0 Hlt] | [Hn1 Hge]], Pn as [Pn | Pn]; rewrite ?Hn0, ?Hn1 in *;
      try (exfalso; cbn in Pn; lia); rewrite Pn; nia. }
  destruct (round_nearest_even_loc N D' HN0 HD') as [Hr He].
  set (m := round_nearest_even (N / D') (loc_of N D')) in *.
  assert (Hq : 2 ^ 52 <= N / D') by (apply Z.div_le_lower_bound; lia).
  assert (Hm : m < 2 ^ 53).
  { destruct (Z.lt_ge_cases m (2 ^ 53)) as [| Hge]; [assumption |].
    exfalso. assert (2 ^ 53 * D' <= m * D') by (apply Z.mul_le_mono_nonneg_r; lia). lia. }
  exists m, n. destruct (Z.ltb_spec m (2 ^ 53)); [| lia].
  split; [reflexivity |]. split; [lia |]. split; [lia |]. exact He.
Qed.

Lemma pow2_lt_inv (x y : Z) : 0 <= x -> 0 <= y -> 2 ^ x < 2 ^ y -> x < y.
Proof. intros Hx Hy H. apply (Z.pow_lt_mono_r_iff 2); lia. Qed.

Lemma pow2_split (x y : Z) : 0 <= x -> 0 <= y -> 2 ^ (x + y) = 2 ^ x * 2 ^ y.
Proof. intros. apply Z.pow_add_r; assumption. Qed.

(** The mantissa and the exponent of [SFofZ]. *)
Lemma SFofZ_spec (z : Z) :
  0 < z < 2 ^ 53 ->
  exists k, 0 <= k <= 52
    /\ SFofZ z = S754_finite false (Z.to_pos (z * 2 ^ k)) (- k)
    /\ 2 ^ 52 <= z * 2 ^ k < 2 ^ 53.
Proof.
  intros Hz. destruct (log2_digits z ltac:(lia)) as [Hd0 Hd].
  unfold SFofZ. set (d := Z.log2 z + 1) in *.
  assert (Hd53 : d <= 53).
  { destruct (Z.le_gt_cases d 53) as [| Hgt]; [assumption |].
    assert (2 ^ 53 <= 2 ^ (d - 1)) by (apply Z.pow_le_mono_r; lia). lia. }
  exists (53 - d). split; [lia |]. split; [f_equal; lia |].
  assert (P : 0 < 2 ^ (53 - d)) by (apply Z.pow_pos_nonneg; lia).
  assert (E1 : 2 ^ 52 = 2 ^ (d - 1) * 2 ^ (53 - d)).
  { rewrite <- Z.pow_add_r by lia. f_equal. lia. }
  assert (E2 : 2 ^ 53 = 2 ^ d * 2 ^ (53 - d)).
  { rewrite <- Z.pow_add_r by lia. f_equal. lia. }
  rewrite E1, E2. nia.
Qed.

(** The arithmetic behind [c * (a / b)] when [c * a <= T * b]: with [mr]
    the mantissa of the rounded quotient and [x] the scale of the product,
    the exact product [P = (c * 2 ^ kc) * mr] differs from
    [(c * a / b) * 2 ^ x] by at most [2 ^ 52]. *)
Lemma product_scale (a b c T ka kb kc n mr : Z) :
  0 < a -> 0 < b -> 0 < c -> 0 < T <= 1023 ->
  0 <= ka -> 0 <= kb -> 0 <= kc -> 0 <= n ->
  2 ^ 52 <= c * 2 ^ kc < 2 ^ 53 ->
  2 ^ 52 <= mr < 2 ^ 53 ->
  2 * Z.abs (mr * (2 ^ n * (b * 2 ^ kb)) - (a * 2 ^ ka) * 2 ^ 53) <= 2 ^ n * (b * 2 ^ kb) ->
  c * a <= T * b ->
  let P := (c * 2 ^ kc) * mr in
  let x := kc + ka + 53 - kb - n in
  95 <= x
  /\ 2 * b * P <= 2 * (c * a) * 2 ^ x + (c * 2 ^ kc) * b
  /\ 2 * (c * a) * 2 ^ x - (c * 2 ^ kc) * b <= 2 * b * P.
Proof.
  intros Ha Hb Hc HT Hka Hkb Hkc Hn Hmc Hmr Herr Hle P x.
  set (U := 2 ^ n * 2 ^ kb).
  set (W := 2 ^ (kc + ka + 53)).
  assert (PU : 0 < U).
  { subst U. apply Z.mul_pos_pos; apply Z.pow_pos_nonneg; lia. }
  assert (PW : 0 < W) by (subst W; apply Z.pow_pos_nonneg; lia).
  assert (EW : W = 2 ^ kc * 2 ^ ka * 2 ^ 53).
  { subst W. rewrite !pow2_split by lia. reflexivity. }
  assert (EU : U = 2 ^ (kb + n)).
  { subst U. rewrite pow2_split by lia. lia. }
  set (mc := c * 2 ^ kc) in *.
  set (V := mr * (U * b) - (a * 2 ^ ka) * 2 ^ 53).
  assert (HV : -(U * b) <= 2 * V <= U * b).
  { subst V U. replace (mr * (2 ^ n * 2 ^ kb * b)) with (mr * (2 ^ n * (b * 2 ^ kb))) by lia.
    replace (2 ^ n * 2 ^ kb * b) with (2 ^ n * (b * 2 ^ kb)) by lia. lia. }
  assert (EP : b * (P * U) - (c * a) * W = mc * V).
  { subst P V mc. rewrite EW. lia. }
  assert (Hmc0 : 0 <= mc) by lia.
  pose proof (Z.mul_le_mono_nonneg_l _ _ mc Hmc0 (proj2 HV)) as M1.
  pose proof (Z.mul_le_mono_nonneg_l _ _ mc Hmc0 (proj1 HV)) as M2.
  assert (H1 : 2 * (b * (P * U)) <= 2 * (c * a) * W + mc * (U * b)) by lia.
  assert (H2 : 2 * (c * a) * W - mc * (U * b) <= 2 * (b * (P * U))) by lia.
  assert (HP : 2 ^ 104 <= P).
  { subst P. change (2 ^ 104) with (2 ^ 52 * 2 ^ 52).
    apply Z.mul_le_mono_nonneg; lia. }
  assert (HWU : 2 ^ 94 * U < W).
  { assert (B0 : 0 <= U * b) by (apply Z.mul_nonneg_nonneg; lia).
    assert (A0 : (c * a) * W <= (T * b) * W).
    { apply Z.mul_le_mono_nonneg_r; lia. }
    assert (A1 : 2 ^ 104 * (U * b) <= P * (U * b)).
    { apply Z.mul_le_mono_nonneg_r; lia. }
    assert (A1' : mc * (U * b) <= 2 ^ 53 * (U * b)).
    { apply Z.mul_le_mono_nonneg_r; lia. }
    assert (A2 : b * ((2 * 2 ^ 104 - 2 ^ 53) * U) <= b * (2 * T * W)) by lia.
    apply Z.mul_le_mono_pos_l in A2; [| exact Hb].
    assert (A3 : T * W <= 1023 * W) by (apply Z.mul_le_mono_nonneg_r; lia).
    change (2 ^ 104) with (1024 * 2 ^ 94) in A2.
    assert (A4 : 2 ^ 53 * U <= 2 ^ 94 * U).
    { apply Z.mul_le_mono_nonneg_r; [lia | discriminate]. }
    lia. }
  assert (Hx : 95 <= x).
  { rewrite EU in HWU. rewrite <- pow2_split in HWU by lia. subst W.
    apply pow2_lt_inv in HWU; lia. }
  split; [exact Hx |].
  assert (EWx : W = 2 ^ x * U).
  { subst W. rewrite EU, <- pow2_split by lia. f_equal. lia. }
  rewrite EWx in H1, H2.
  split.
  - assert (H1' : U * (2 * b * P) <= U * (2 * (c * a) * 2 ^ x + mc * b)) by lia.
    apply Z.mul_le_mono_pos_l in H1'; [| exact PU]. exact H1'.
  - assert (H2' : U * (2 * (c * a) * 2 ^ x - mc * b) <= U * (2 * b * P)) by lia.
    apply Z.mul_le_mono_pos_l in H2'; [| exact PU]. exact H2'.
Qed.

(** The quotient of two integers below [2 ^ 53]. *)
Lemma SFdiv_SFofZ (a b : Z) :
  0 < a < 2 ^ 53 -> 0 < b < 2 ^ 53 ->
  exists ka kb m n,
    SFofZ a = S754_finite false (Z.to_pos (a * 2 ^ ka)) (- ka)
    /\ SFofZ b = S754_finite false (Z.to_pos (b * 2 ^ kb)) (- kb)
    /\ SFdiv prec emax (SFofZ a) (SFofZ b) =
         S754_finite false (Z.to_pos m) (kb - ka - 53 + n)
    /\ 0 <= ka <= 52 /\ 0 <= kb <= 52 /\ 0 <= n <= 1
    /\ 2 ^ 52 <= a * 2 ^ ka < 2 ^ 53
    /\ 2 ^ 52 <= b * 2 ^ kb < 2 ^ 53
    /\ 2 ^ 52 <= m < 2 ^ 53
    /\ 2 * Z.abs (m * (2 ^ n * (b * 2 ^ kb)) - (a * 2 ^ ka) * 2 ^ 53)
       <= 2 ^ n * (b * 2 ^ kb).
Proof.
  intros Ha Hb.
  destruct (SFofZ_spec a Ha) as (ka & Hka & Ea & Ma).
  destruct (SFofZ_spec b Hb) as (kb & Hkb & Eb & Mb).
  destruct (div_rounded_spec (a * 2 ^ ka) (- ka) (b * 2 ^ kb) (- kb) Ma Mb)
    as (m & n & Ed & Mm & Hn & Herr).
  exists ka, kb, m, n.
  split; [exact Ea |]. split; [exact Eb |].
  split.
  { rewrite Ea, Eb, SFdiv_finite; rewrite ?Z2Pos.id; try lia.
    rewrite Ed. f_equal. lia. }
  repeat (split; [assumption || lia |]). exact Herr.
Qed.

(** [c * (a / b)] when it is [T] exactly, [512 < T < 1024]: the float is
    [T] or one of its two neighbours. *)
Lemma quotient_times (a b c T : Z) :
  0 < a < 2 ^ 53 -> 0 < b < 2 ^ 53 -> 0 < c < 2 ^ 53 ->
  c * a = T * b -> 513 <= T <= 1023 ->
  exists j, -1 <= j <= 1
    /\ SFmul prec emax (SFofZ c) (SFdiv prec emax (SFofZ a) (SFofZ b)) =
       S754_finite false (Z.to_pos (T * 2 ^ 43 + j)) (-43).
Proof.
  intros Ha Hb Hc Hab HT.
  destruct (SFdiv_SFofZ a b Ha Hb)
    as (ka & kb & m & n & _ & _ & Ed & Hka & Hkb & Hn & Ma & Mb & Mm & Herr).
  destruct (SFofZ_spec c Hc) as (kc & Hkc & Ec & Mc).
  rewrite Ed, Ec, SFmul_finite; rewrite ?Z2Pos.id; try lia.
  destruct (product_scale a b c T ka kb kc n m) as (Hx & Hup & Hlo); try lia.
  set (P := c * 2 ^ kc * m) in *.
  set (x := kc + ka + 53 - kb - n) in *.
  set (mc := c * 2 ^ kc) in *.
  assert (HP : 2 ^ 104 <= P < 2 ^ 106).
  { subst P. change (2 ^ 104) with (2 ^ 52 * 2 ^ 52).
    change (2 ^ 106) with (2 ^ 53 * 2 ^ 53). split.
    - apply Z.mul_le_mono_nonneg; lia.
    - apply Z.mul_lt_mono_nonneg; lia. }
  assert (Px : 0 < 2 ^ x) by (apply Z.pow_pos_nonneg; lia).
  assert (Hnear : - 2 ^ 52 < P - T * 2 ^ x < 2 ^ 52).
  { rewrite Hab in Hup, Hlo.
    assert (U1 : b * (2 * (P - T * 2 ^ x)) <= b * mc) by lia.
    assert (L1 : b * (- mc) <= b * (2 * (P - T * 2 ^ x))) by lia.
    apply Z.mul_le_mono_pos_l in U1, L1; lia. }
  assert (Hx96 : x = 95 \/ x = 96).
  { assert (E9 : 2 ^ (x + 9) = 512 * 2 ^ x) by (rewrite pow2_split by lia; lia).
    assert (A1 : 2 ^ 94 < 2 ^ x) by (apply Z.pow_lt_mono_r; lia).
    assert (A2 : 2 ^ (x + 9) < 2 ^ 106).
    { assert (2 ^ 52 < 2 ^ 94) by reflexivity.
      assert (513 * 2 ^ x <= T * 2 ^ x) by (apply Z.mul_le_mono_nonneg_r; lia).
      lia. }
    apply pow2_lt_inv in A2; lia. }
  assert (Hd : (if P <? 2 ^ 105 then 105 else 106) = x + 10).
  { destruct (Z.ltb_spec P (2 ^ 105)); destruct Hx96 as [-> | ->]; try reflexivity; exfalso.
    - lia.
    - lia. }
  unfold mul_rounded. fold mc P. rewrite Hd. unfold rounded.
  replace (x + 10 - 53) with (x - 43) by lia.
  set (nP := x - 43).
  assert (PnP : 2 ^ 52 <= 2 ^ nP) by (apply Z.pow_le_mono_r; lia).
  assert (EnP : 2 ^ x = 2 ^ 43 * 2 ^ nP).
  { subst nP. rewrite <- pow2_split by lia. f_equal. lia. }
  rewrite Z.mul_1_r.
  destruct (round_nearest_even_loc P (2 ^ nP)) as [Hr _]; [lia | lia |].
  set (mp := round_nearest_even (P / 2 ^ nP) (loc_of P (2 ^ nP))) in *.
  assert (Hq : T * 2 ^ 43 - 1 <= P / 2 ^ nP <= T * 2 ^ 43).
  { rewrite EnP in Hnear. split.
    - apply Z.div_le_lower_bound; [lia |]. lia.
    - assert (P / 2 ^ nP < T * 2 ^ 43 + 1); [| lia].
      apply Z.div_lt_upper_bound; [lia |]. lia. }
  assert (Hmp : mp < 2 ^ 53).
  { assert (T * 2 ^ 43 <= 1023 * 2 ^ 43) by lia.
    assert (1023 * 2 ^ 43 + 1 < 2 ^ 53) by reflexivity. lia. }
  destruct (Z.ltb_spec mp (2 ^ 53)); [| lia].
  exists (mp - T * 2 ^ 43). split; [lia |].
  f_equal; [f_equal; lia | subst nP x; lia].
Qed.

Lemma SFcompare_refl (m : positive) (e : Z) :
  SFcompare (S754_finite false m e) (S754_finite false m e) = Some Eq.
Proof.
  cbn [SFcompare]. rewrite Z.compare_refl.
  change (Pos.compare_cont Eq m m) with (m ?= m)%positive.
  rewrite Pos.compare_refl. reflexivity.
Qed.

(** A float whose specification is a positive finite number. *)
Lemma positive_float (x : float) (m : positive) (e : Z) :
  Prim2SF x = S754_finite false m e ->
  PrimFloat.is_nan x = false
  /\ PrimFloat.get_sign x = false
  /\ PrimFloat.ltb 0 x = true.
Proof.
  intros Hx.
  assert (Z0 : Prim2SF 0 = S754_zero false) by reflexivity.
  assert (Hz : PrimFloat.is_zero x = false).
  { unfold PrimFloat.is_zero. rewrite FloatAxioms.eqb_spec, Hx. reflexivity. }
  split; [| split].
  - unfold PrimFloat.is_nan. rewrite FloatAxioms.eqb_spec, Hx. unfold SFeqb.
    rewrite SFcompare_refl. reflexivity.
  - unfold PrimFloat.get_sign. rewrite Hz, FloatAxioms.ltb_spec, Hx. reflexivity.
  - rewrite FloatAxioms.ltb_spec, Hx. reflexivity.
Qed.

(** The order of two normal positive numbers. *)
Lemma SFltb_normal (m1 m2 : positive) (e1 e2 : Z) :
  SFltb (S754_finite false m1 e1) (S754_finite false m2 e2) = true ->
  e1 < e2 \/ (e1 = e2 /\ Z.pos m1 < Z.pos m2).
Proof.
  unfold SFltb. cbn [SFcompare].
  destruct (Z.compare_spec e1 e2) as [He | He | He]; [| left; exact He | discriminate].
  change (Pos.compare_cont Eq m1 m2) with (m1 ?= m2)%positive.
  destruct (Pos.compare_spec m1 m2) as [| Hm |]; try discriminate.
  intros _. right. split; [exact He | lia].
Qed.

Lemma shl_align_fst (mx : positive) (ex ey : Z) :
  ey <= ex -> Z.pos (fst (shl_align mx ex ey)) = Z.pos mx * 2 ^ (ex - ey).
Proof.
  intros Hle. unfold shl_align.
  destruct (ey - ex) as [| d | d] eqn:E; try lia.
  - replace (ex - ey) with 0 by lia. cbn [fst]. rewrite Z.pow_0_r. lia.
  - cbn [fst]. rewrite iter_xO. f_equal. f_equal. lia.
Qed.

(** The difference of two normal numbers, the larger one first, is a
    normal positive number. *)
Lemma SFsub_pos (mx my : positive) (ex ey : Z) :
  2 ^ 52 <= Z.pos mx < 2 ^ 53 ->
  2 ^ 52 <= Z.pos my < 2 ^ 53 ->
  ey <= ex -> (ey < ex \/ Z.pos my < Z.pos mx) ->
  -500 <= ey -> ex <= 500 ->
  exists m e,
    SFsub prec emax (S754_finite false mx ex) (S754_finite false my ey) =
      S754_finite false (Z.to_pos m) e
    /\ 2 ^ 52 <= m < 2 ^ 53 /\ -600 <= e <= 600.
Proof.
  intros Hx Hy Hle Hlt Hlo Hhi.
  cbn [SFsub]. rewrite Z.min_r by lia. cbn [cond_Zopp].
  rewrite (shl_align_fst mx ex ey Hle).
  rewrite (shl_align_fst my ey ey (Z.le_refl _)), Z.sub_diag, Z.pow_0_r, Z.mul_1_r.
  set (s := ex - ey).
  assert (Ps : 0 < 2 ^ s) by (apply Z.pow_pos_nonneg; lia).
  assert (Hs2 : ey < ex -> 2 <= 2 ^ s).
  { intros H. change 2 with (2 ^ 1) at 1. apply Z.pow_le_mono_r; lia. }
  assert (Hz : 0 < Z.pos mx * 2 ^ s - Z.pos my).
  { destruct Hlt as [H | H]; [specialize (Hs2 H); nia | nia]. }
  set (z := Z.pos mx * 2 ^ s - Z.pos my) in *.
  assert (Hzu : z < 2 ^ (53 + s)).
  { rewrite pow2_split by lia. subst z. nia. }
  destruct (log2_digits z Hz) as [Hd0 Hd].
  set (d := Z.log2 z + 1) in *.
  assert (Hd1 : d <= 53 + s).
  { assert (2 ^ (d - 1) < 2 ^ (53 + s)) by lia.
    apply pow2_lt_inv in H; lia. }
  destruct z as [| zp | zp] eqn:Ez; try lia.
  unfold binary_normalize, binary_round.
  assert (Dg : Z.pos (digits2_pos zp) = d).
  { change (Z.pos (digits2_pos zp)) with (Zdigits2 (Z.pos zp)).
    apply Zdigits2_unique; assumption. }
  rewrite Dg, fexp_normal by lia.
  destruct (Z.lt_ge_cases d 53) as [Hsmall | Hbig].
  - assert (Hsh : shl_align zp ey (d + ey - 53) =
                    (Z.to_pos (Z.pos zp * 2 ^ (53 - d)), d + ey - 53)).
    { unfold shl_align.
      destruct (d + ey - 53 - ey) as [| k | k] eqn:Ek; try lia.
      replace (53 - d) with (Z.pos k) by lia. rewrite <- iter_xO. reflexivity. }
    rewrite Hsh.
    assert (P : 0 < 2 ^ (53 - d)) by (apply Z.pow_pos_nonneg; lia).
    assert (HM : 2 ^ 52 <= Z.pos zp * 2 ^ (53 - d) < 2 ^ 53).
    { assert (E1 : 2 ^ 52 = 2 ^ (d - 1) * 2 ^ (53 - d)).
      { rewrite <- Z.pow_add_r by lia. f_equal. lia. }
      assert (E2 : 2 ^ 53 = 2 ^ d * 2 ^ (53 - d)).
      { rewrite <- Z.pow_add_r by lia. f_equal. lia. }
      rewrite E1, E2. split.
      - apply Z.mul_le_mono_nonneg_r; lia.
      - apply Z.mul_lt_mono_pos_r; lia. }
    set (M := Z.pos zp * 2 ^ (53 - d)) in *.
    rewrite Z2Pos.id by lia.
    destruct (loc_of_1 M) as [E1 E2].
    exists M, (d + ey - 53). split; [| lia].
    rewrite <- E1 at 1. rewrite <- E2.
    rewrite (binary_round_aux_loc M 1 (d + ey - 53) 53); try lia.
    apply rounded_53. exact HM.
  - assert (Hsh : shl_align zp ey (d + ey - 53) = (zp, ey)).
    { unfold shl_align. destruct (d + ey - 53 - ey) as [| k | k] eqn:Ek; try lia; reflexivity. }
    rewrite Hsh.
    destruct (loc_of_1 (Z.pos zp)) as [E1 E2].
    destruct (rounded_normal (Z.pos zp) 1 ey d) as (m & e & Er & Hm & He); try lia.
    exists m, e. split; [| lia].
    rewrite <- E1 at 1. rewrite <- E2.
    rewrite (binary_round_aux_loc (Z.pos zp) 1 ey d); try lia.
    exact Er.
Qed.

(** Half a normal number is a positive number. *)
Lemma SFdiv_2_pos (m : positive) (e : Z) :
  2 ^ 52 <= Z.pos m < 2 ^ 53 -> -600 <= e <= 600 ->
  exists m' e',
    SFdiv prec emax (S754_finite false m e) (Prim2SF 2) = S754_finite false m' e'.
Proof.
  intros Hm He.
  assert (E2 : Prim2SF 2 = S754_finite false (Z.to_pos (2 ^ 52)) (-51)) by reflexivity.
  rewrite E2.
  rewrite SFdiv_finite by (try lia; change (Z.pos (Z.to_pos (2 ^ 52))) with (2 ^ 52); lia).
  unfold div_rounded.
  match goal with |- context [rounded ?N ?D ?e0 ?d] =>
    destruct (rounded_normal N D e0 d) as (m' & e' & Er & _ & _) end.
  - reflexivity.
  - destruct (Z.ltb_spec (Z.pos m) (Z.pos (Z.to_pos (2 ^ 52)))); lia.
  - change (Z.pos (Z.to_pos (2 ^ 52))) with (2 ^ 52).
    destruct (Z.ltb_spec (Z.pos m) (2 ^ 52)).
    + lia.
    + change (54 - 1) with 53. change (2 ^ 54) with (2 * 2 ^ 53). lia.
  - exists (Z.to_pos m'), e'. exact Er.
Qed.

(** [c * (a / b)] when it is below [T] by at least [60 / b], [b < 2 ^ 32]:
    the float is below [T]. *)
Lemma quotient_times_below (a b c T : Z) :
  0 < a < 2 ^ 53 -> 0 < b < 2 ^ 32 -> 0 < c < 2 ^ 53 ->
  c * a + 60 <= T * b -> 513 <= T <= 1023 ->
  exists m e,
    SFmul prec emax (SFofZ c) (SFdiv prec emax (SFofZ a) (SFofZ b)) =
      S754_finite false (Z.to_pos m) e
    /\ 2 ^ 52 <= m < 2 ^ 53
    /\ -200 <= e
    /\ (e < -43 \/ (e = -43 /\ m < T * 2 ^ 43)).
Proof.
  intros Ha Hb Hc Hab HT.
  assert (Hb53 : 0 < b < 2 ^ 53).
  { split; [lia |]. apply Z.lt_trans with (2 ^ 32); [lia | reflexivity]. }
  destruct (SFdiv_SFofZ a b Ha Hb53)
    as (ka & kb & mr & n & _ & _ & Ed & Hka & Hkb & Hn & Ma & Mb & Mm & Herr).
  destruct (SFofZ_spec c Hc) as (kc & Hkc & Ec & Mc).
  rewrite Ed, Ec, SFmul_finite; rewrite ?Z2Pos.id; try lia.
  destruct (product_scale a b c T ka kb kc n mr) as (Hx & Hup & _); try lia.
  set (P := c * 2 ^ kc * mr) in *.
  set (x := kc + ka + 53 - kb - n) in *.
  set (mc := c * 2 ^ kc) in *.
  assert (HP : 2 ^ 104 <= P < 2 ^ 106).
  { subst P. change (2 ^ 104) with (2 ^ 52 * 2 ^ 52).
    change (2 ^ 106) with (2 ^ 53 * 2 ^ 53). split.
    - apply Z.mul_le_mono_nonneg; lia.
    - apply Z.mul_lt_mono_nonneg; lia. }
  assert (Px : 0 < 2 ^ x) by (apply Z.pow_pos_nonneg; lia).
  assert (E10 : 2 ^ x = 2 ^ 10 * 2 ^ (x - 10)).
  { rewrite <- pow2_split by lia. f_equal. lia. }
  assert (E42 : 2 ^ (x - 10) = 2 ^ 32 * 2 ^ (x - 42)).
  { rewrite <- pow2_split by lia. f_equal. lia. }
  assert (P42 : 0 < 2 ^ (x - 42)) by (apply Z.pow_pos_nonneg; lia).
  assert (Hgap : P + 2 ^ (x - 42) <= T * 2 ^ x).
  { assert (A1 : (c * a) * 2 ^ x <= (T * b - 60) * 2 ^ x).
    { apply Z.mul_le_mono_nonneg_r; lia. }
    assert (A2 : mc * b <= 2 ^ 53 * 2 ^ 32).
    { apply Z.mul_le_mono_nonneg; lia. }
    assert (A3 : 2 ^ 85 <= 2 ^ (x - 10)) by (apply Z.pow_le_mono_r; lia).
    change (2 ^ 53 * 2 ^ 32) with (2 ^ 85) in A2.
    destruct (Z.le_gt_cases (P + 2 ^ (x - 42)) (T * 2 ^ x)) as [| Hgt]; [assumption |].
    exfalso.
    assert (A4 : b * (T * 2 ^ x - P) <= b * 2 ^ (x - 42)).
    { apply Z.mul_le_mono_nonneg_l; lia. }
    assert (A5 : b * 2 ^ (x - 42) <= 2 ^ 32 * 2 ^ (x - 42)).
    { apply Z.mul_le_mono_nonneg_r; lia. }
    change (2 ^ 10) with 1024 in E10. lia. }
  assert (Hlt10 : P < 2 ^ (x + 10)).
  { rewrite pow2_split by lia. change (2 ^ 10) with 1024.
    assert (T * 2 ^ x <= 1023 * 2 ^ x) by (apply Z.mul_le_mono_nonneg_r; lia). lia. }
  unfold mul_rounded. fold mc P.
  set (d := if P <? 2 ^ 105 then 105 else 106).
  assert (Hd : 2 ^ (d - 1) <= P /\ (d = 105 \/ d = 106)).
  { subst d. destruct (Z.ltb_spec P (2 ^ 105)); split; auto.
    - change (105 - 1) with 104. lia. }
  destruct Hd as [Hd1 Hd2].
  assert (Hdx : d <= x + 10).
  { assert (H : 2 ^ (d - 1) < 2 ^ (x + 10)) by lia.
    apply pow2_lt_inv in H; lia. }
  unfold rounded. set (nP := d - 53).
  assert (PnP : 0 < 2 ^ nP) by (apply Z.pow_pos_nonneg; lia).
  assert (EnP : 2 ^ (d - 1) = 2 ^ 52 * 2 ^ nP).
  { subst nP. rewrite <- pow2_split by lia. f_equal. lia. }
  rewrite Z.mul_1_r.
  destruct (round_nearest_even_loc P (2 ^ nP)) as [Hr _]; [lia | lia |].
  set (mp := round_nearest_even (P / 2 ^ nP) (loc_of P (2 ^ nP))) in *.
  assert (Hq : 2 ^ 52 <= P / 2 ^ nP) by (apply Z.div_le_lower_bound; lia).
  assert (Htop : d = x + 10 -> mp < T * 2 ^ 43 /\ mp < 2 ^ 53).
  { intros Hdt.
    assert (E43 : 2 ^ x = 2 ^ 43 * 2 ^ nP).
    { subst nP. rewrite <- pow2_split by lia. f_equal. lia. }
    assert (E1 : 2 ^ (x - 42) = 2 * 2 ^ nP).
    { subst nP. replace (x - 42) with (1 + (d - 53)) by lia.
      rewrite pow2_split by lia. reflexivity. }
    assert (Hq2 : P / 2 ^ nP < T * 2 ^ 43 - 1).
    { apply Z.div_lt_upper_bound; [lia |]. rewrite E43 in Hgap. lia. }
    assert (T * 2 ^ 43 <= 1023 * 2 ^ 43) by lia.
    assert (1023 * 2 ^ 43 < 2 ^ 53) by reflexivity. lia. }
  destruct (Z.ltb_spec mp (2 ^ 53)) as [Hno | Hcarry].
  - exists mp, (- kc + (kb - ka - 53 + n) + nP).
    split; [reflexivity |]. split; [lia |]. split; [subst nP x; lia |].
    destruct (Z.eq_dec d (x + 10)) as [Hdt | Hdt].
    + right. split; [subst nP x; lia | apply Htop, Hdt].
    + left. subst nP x. lia.
  - exists (2 ^ 52), (- kc + (kb - ka - 53 + n) + nP + 1).
    split; [reflexivity |]. split; [lia |]. split; [subst nP x; lia |].
    destruct (Z.eq_dec d (x + 10)) as [Hdt | Hdt].
    + destruct (Htop Hdt). lia.
    + destruct (Z.eq_dec d (x + 9)) as [Hd9 | Hd9].
      * right. split; [subst nP x; lia |].
        assert (513 * 2 ^ 43 <= T * 2 ^ 43) by lia.
        assert (2 ^ 52 < 513 * 2 ^ 43) by reflexivity. lia.
      * left. subst nP x. lia.
Qed.

Lemma SFofZ_960 : SFofZ 960 = S754_finite false (Z.to_pos (960 * 2 ^ 43)) (-43).
Proof. reflexivity. Qed.

Lemma SFofZ_540 : SFofZ 540 = S754_finite false (Z.to_pos (540 * 2 ^ 43)) (-43).
Proof. reflexivity. Qed.

(** For an image narrower than 16:9 the vertical ratio is the smaller
    one, also after rounding. *)
Lemma narrower_ratio (iw ih : Z) :
  0 < iw < 2 ^ 32 -> 0 < ih < 2 ^ 53 -> 9 * iw + 1 <= 16 * ih ->
  SFltb (SFdiv prec emax (SFofZ 960) (SFofZ iw))
        (SFdiv prec emax (SFofZ 540) (SFofZ ih)) = false.
Proof.
  intros Hiw Hih Hnarrow.
  assert (Hiw53 : 0 < iw < 2 ^ 53).
  { split; [lia |]. apply Z.lt_trans with (2 ^ 32); [lia | reflexivity]. }
  destruct (SFdiv_SFofZ 960 iw ltac:(split; reflexivity) Hiw53)
    as (ka1 & kb1 & mh & nh & Ea1 & _ & Ed1 & _ & Hkb1 & Hnh & _ & Mb1 & Mh & Eh).
  destruct (SFdiv_SFofZ 540 ih ltac:(split; reflexivity) Hih)
    as (ka2 & kb2 & mv & nv & Ea2 & _ & Ed2 & _ & Hkb2 & Hnv & _ & Mb2 & Mv & Ev).
  rewrite SFofZ_960 in Ea1. injection Ea1 as _ Eka1.
  rewrite SFofZ_540 in Ea2. injection Ea2 as _ Eka2.
  assert (ka1 = 43) by lia. assert (ka2 = 43) by lia. subst ka1 ka2. clear Eka1 Eka2.
  rewrite Ed1, Ed2.
  destruct (SFltb _ _) eqn:E; [exfalso | reflexivity].
  apply SFltb_normal in E. rewrite !Z2Pos.id in E by lia.
  set (Uh := 2 ^ nh * 2 ^ kb1).
  set (Uv := 2 ^ nv * 2 ^ kb2).
  assert (EUh : Uh = 2 ^ (kb1 + nh)) by (subst Uh; rewrite pow2_split by lia; lia).
  assert (EUv : Uv = 2 ^ (kb2 + nv)) by (subst Uv; rewrite pow2_split by lia; lia).
  assert (PUh : 0 < Uh) by (rewrite EUh; apply Z.pow_pos_nonneg; lia).
  assert (PUv : 0 < Uv) by (rewrite EUv; apply Z.pow_pos_nonneg; lia).
  assert (HV : mh * Uh < mv * Uv).
  { destruct E as [E | [E Hm]].
    - assert (H2 : 2 * Uh <= Uv).
      { rewrite EUh, EUv. replace (2 * 2 ^ (kb1 + nh)) with (2 ^ (kb1 + nh + 1))
          by (rewrite (pow2_split (kb1 + nh) 1) by lia; change (2 ^ 1) with 2; lia).
        apply Z.pow_le_mono_r; lia. }
      assert (mh * Uh < 2 ^ 53 * Uh) by (apply Z.mul_lt_mono_pos_r; lia).
      assert (2 ^ 52 * Uv <= mv * Uv) by (apply Z.mul_le_mono_nonneg_r; lia).
      change (2 ^ 53) with (2 * 2 ^ 52) in *. lia.
    - assert (Uh = Uv) by (rewrite EUh, EUv; f_equal; lia).
      assert (mh * Uh < mv * Uh) by (apply Z.mul_lt_mono_pos_r; lia).
      congruence. }
  set (Vh := mh * Uh) in *. set (Vv := mv * Uv) in *.
  set (X := Vh * iw). set (Y := Vv * ih).
  set (K := 960 * 2 ^ 43 * 2 ^ 53) in *.
  set (K' := 540 * 2 ^ 43 * 2 ^ 53) in *.
  assert (EK : 16 * K' = 9 * K) by reflexivity.
  assert (Xh : mh * (2 ^ nh * (iw * 2 ^ kb1)) = X) by (subst X Vh Uh; lia).
  assert (Yv : mv * (2 ^ nv * (ih * 2 ^ kb2)) = Y) by (subst Y Vv Uv; lia).
  assert (Dh : 2 ^ nh * (iw * 2 ^ kb1) = Uh * iw) by (subst Uh; lia).
  assert (Dv : 2 ^ nv * (ih * 2 ^ kb2) = Uv * ih) by (subst Uv; lia).
  rewrite Xh, Dh in Eh. rewrite Yv, Dv in Ev.
  assert (Sh : 2 ^ 52 * (Uh * iw) <= X).
  { subst X Vh. replace (2 ^ 52 * (Uh * iw)) with (2 ^ 52 * Uh * iw) by lia.
    apply Z.mul_le_mono_nonneg_r; [lia |]. apply Z.mul_le_mono_nonneg_r; lia. }
  assert (Sv : 2 ^ 52 * (Uv * ih) <= Y).
  { subst Y Vv. replace (2 ^ 52 * (Uv * ih)) with (2 ^ 52 * Uv * ih) by lia.
    apply Z.mul_le_mono_nonneg_r; [lia |]. apply Z.mul_le_mono_nonneg_r; lia. }
  assert (Hh : 2 ^ 53 * K <= (2 ^ 53 + 1) * X).
  { change (2 ^ 53) with (2 * 2 ^ 52). lia. }
  assert (Hv : (2 ^ 53 - 1) * Y <= 2 ^ 53 * K').
  { change (2 ^ 53) with (2 * 2 ^ 52). lia. }
  assert (HVh : 0 < Vh).
  { subst Vh. apply Z.mul_pos_pos; lia. }
  assert (H16 : 9 * X + Vh + 9 * iw + 1 <= 16 * Y).
  { assert (B1 : Vv * (9 * iw + 1) <= Vv * (16 * ih)).
    { apply Z.mul_le_mono_nonneg_l; lia. }
    assert (B2 : (Vh + 1) * (9 * iw + 1) <= Vv * (9 * iw + 1)).
    { apply Z.mul_le_mono_nonneg_r; lia. }
    subst X Y. lia. }
  assert (HX : X <= Vh * 2 ^ 32).
  { subst X. apply Z.mul_le_mono_nonneg_l; lia. }
  change (2 ^ 53) with 9007199254740992 in *.
  change (2 ^ 32) with 4294967296 in *.
  lia.
Qed.

(** [Math.min] of two positive numbers. *)
Lemma Math_min_positive (a b : float) (ma mb : positive) (ea eb : Z) :
  Prim2SF a = S754_finite false ma ea ->
  Prim2SF b = S754_finite false mb eb ->
  JS.Math_min a b = if PrimFloat.ltb a b then a else b.
Proof.
  intros Ha Hb.
  destruct (positive_float a ma ea Ha) as (Na & Sa & _).
  destruct (positive_float b mb eb Hb) as (Nb & _ & _).
  unfold JS.Math_min. rewrite Na, Nb, Sa. cbn [orb].
  destruct (PrimFloat.ltb a b); [reflexivity |].
  destruct (PrimFloat.ltb b a); reflexivity.
Qed.

Lemma Prim2SF_quotient (a b : Z) :
  0 < a < 2 ^ 53 -> 0 < b < 2 ^ 53 ->
  Prim2SF (JS.num a / JS.num b) = SFdiv prec emax (SFofZ a) (SFofZ b)
  /\ exists m e, Prim2SF (JS.num a / JS.num b) = S754_finite false m e.
Proof.
  intros Ha Hb.
  assert (E : Prim2SF (JS.num a / JS.num b) = SFdiv prec emax (SFofZ a) (SFofZ b)).
  { rewrite FloatAxioms.div_spec, !num_spec by assumption. reflexivity. }
  split; [exact E |].
  destruct (SFdiv_SFofZ a b Ha Hb) as (ka & kb & m & n & _ & _ & Ed & _).
  rewrite E, Ed. eauto.
Qed.

(** [c * (a / b)] in floats, when the exact value is [T]. *)
Lemma float_quotient_times (a b c T : Z) :
  0 < a < 2 ^ 53 -> 0 < b < 2 ^ 53 -> 0 < c < 2 ^ 53 ->
  c * a = T * b -> 513 <= T <= 1023 ->
  exists j, -1 <= j <= 1
    /\ (JS.num c * (JS.num a / JS.num b))%float =
       SF2Prim (S754_finite false (Z.to_pos (T * 2 ^ 43 + j)) (-43)).
Proof.
  intros Ha Hb Hc Hab HT.
  destruct (quotient_times a b c T Ha Hb Hc Hab HT) as (j & Hj & E).
  exists j. split; [exact Hj |].
  rewrite <- E.
  destruct (Prim2SF_quotient a b Ha Hb) as [<- _].
  rewrite <- (num_spec c Hc), <- FloatAxioms.mul_spec, FloatAxioms.SF2Prim_Prim2SF. reflexivity.
Qed.

Lemma small_is_53 (z : Z) : 0 < z < 2 ^ 32 -> 0 < z < 2 ^ 53.
Proof.
  intros [H0 H1]. split; [exact H0 |].
  apply Z.lt_trans with (2 ^ 32); [exact H1 | reflexivity].
Qed.

(** Same aspect ratio as the 960 x 540 canvas. *)
Lemma fit_same_aspect (iw ih : Z) :
  0 < iw < 2 ^ 32 -> 0 < ih < 2 ^ 32 -> iw * 540 = ih * 960 ->
  let p := fitAndCenter (JS.num 960) (JS.num 540) (JS.num iw) (JS.num ih) in
  within rounding_unit p.(centerShiftX) = true
  /\ within rounding_unit p.(centerShiftY) = true
  /\ within 0x1p-43 (JS.num iw * p.(ratio) - JS.num 960) = true
  /\ within 0x1p-43 (JS.num ih * p.(ratio) - JS.num 540) = true.
Proof.
  intros Hiw Hih Hasp p. subst p.
  apply small_is_53 in Hiw, Hih.
  assert (H960 : 0 < 960 < 2 ^ 53) by (split; reflexivity).
  assert (H540 : 0 < 540 < 2 ^ 53) by (split; reflexivity).
  destruct (Prim2SF_quotient 960 iw H960 Hiw) as (_ & mh & eh & Eh).
  destruct (Prim2SF_quotient 540 ih H540 Hih) as (_ & mv & ev & Ev).
  unfold fitAndCenter. cbn [centerShiftX centerShiftY ratio].
  rewrite (Math_min_positive _ _ _ _ _ _ Eh Ev).
  assert (Near960 : forall x j, -1 <= j <= 1 ->
            x = SF2Prim (S754_finite false (Z.to_pos (960 * 2 ^ 43 + j)) (-43)) ->
            within rounding_unit ((JS.num 960 - x) / 2) = true
            /\ within 0x1p-43 (x - JS.num 960) = true).
  { intros x j Hj ->. assert (C : j = -1 \/ j = 0 \/ j = 1) by lia.
    destruct C as [-> | [-> | ->]]; split; vm_compute; reflexivity. }
  assert (Near540 : forall x j, -1 <= j <= 1 ->
            x = SF2Prim (S754_finite false (Z.to_pos (540 * 2 ^ 43 + j)) (-43)) ->
            within rounding_unit ((JS.num 540 - x) / 2) = true
            /\ within 0x1p-43 (x - JS.num 540) = true).
  { intros x j Hj ->. assert (C : j = -1 \/ j = 0 \/ j = 1) by lia.
    destruct C as [-> | [-> | ->]]; split; vm_compute; reflexivity. }
  destruct (PrimFloat.ltb (JS.num 960 / JS.num iw) (JS.num 540 / JS.num ih)).
  - destruct (float_quotient_times 960 iw iw 960 H960 Hiw Hiw ltac:(lia) ltac:(lia))
      as (j1 & Hj1 & E1).
    destruct (float_quotient_times 960 iw ih 540 H960 Hiw Hih ltac:(lia) ltac:(lia))
      as (j2 & Hj2 & E2).
    destruct (Near960 _ j1 Hj1 E1) as [A1 A2].
    destruct (Near540 _ j2 Hj2 E2) as [B1 B2]. auto.
  - destruct (float_quotient_times 540 ih iw 960 H540 Hih Hiw ltac:(lia) ltac:(lia))
      as (j1 & Hj1 & E1).
    destruct (float_quotient_times 540 ih ih 540 H540 Hih Hih ltac:(lia) ltac:(lia))
      as (j2 & Hj2 & E2).
    destruct (Near960 _ j1 Hj1 E1) as [A1 A2].
    destruct (Near540 _ j2 Hj2 E2) as [B1 B2]. auto.
Qed.

(** Narrower than the 960 x 540 canvas. *)
Lemma fit_narrower (iw ih : Z) :
  0 < iw < 2 ^ 32 -> 0 < ih < 2 ^ 32 -> iw * 540 < 960 * ih ->
  let p := fitAndCenter (JS.num 960) (JS.num 540) (JS.num iw) (JS.num ih) in
  PrimFloat.ltb 0 p.(centerShiftX) = true
  /\ within rounding_unit p.(centerShiftY) = true.
Proof.
  intros Hiw32 Hih32 Hnar p. subst p.
  pose proof (small_is_53 iw Hiw32) as Hiw.
  pose proof (small_is_53 ih Hih32) as Hih.
  assert (H960 : 0 < 960 < 2 ^ 53) by (split; reflexivity).
  assert (H540 : 0 < 540 < 2 ^ 53) by (split; reflexivity).
  destruct (Prim2SF_quotient 960 iw H960 Hiw) as (Qh & mh & eh & Eh).
  destruct (Prim2SF_quotient 540 ih H540 Hih) as (Qv & mv & ev & Ev).
  unfold fitAndCenter. cbn [centerShiftX centerShiftY].
  rewrite (Math_min_positive _ _ _ _ _ _ Eh Ev).
  rewrite (FloatAxioms.ltb_spec (JS.num 960 / JS.num iw) (JS.num 540 / JS.num ih)), Qh, Qv, narrower_ratio by lia.
  split.
  - destruct (quotient_times_below 540 ih iw 960 H540 Hih32 Hiw ltac:(lia) ltac:(lia))
      as (m & e & Em & Hm & He & Hbelow).
    rewrite <- Qv, <- (num_spec iw Hiw), <- FloatAxioms.mul_spec in Em.
    assert (Es : exists m' e',
              Prim2SF (JS.num 960 - JS.num iw * (JS.num 540 / JS.num ih)) =
                S754_finite false (Z.to_pos m') e'
              /\ 2 ^ 52 <= m' < 2 ^ 53 /\ -600 <= e' <= 600).
    { rewrite FloatAxioms.sub_spec, Em, (num_spec 960 H960), SFofZ_960.
      assert (M960 : Z.pos (Z.to_pos (960 * 2 ^ 43)) = 960 * 2 ^ 43) by reflexivity.
      apply SFsub_pos; rewrite ?M960, ?(Z2Pos.id m) by lia.
      - split; [discriminate | reflexivity].
      - exact Hm.
      - lia.
      - lia.
      - lia.
      - lia. }
    destruct Es as (m' & e' & Es & Hm' & He').
    destruct (SFdiv_2_pos (Z.to_pos m') e') as (m2 & e2 & E2);
      [rewrite Z2Pos.id by lia; exact Hm' | exact He' |].
    rewrite <- Es, <- FloatAxioms.div_spec in E2.
    apply (positive_float _ _ _ E2).
  - destruct (float_quotient_times 540 ih ih 540 H540 Hih Hih ltac:(lia) ltac:(lia))
      as (j & Hj & E).
    rewrite E. assert (C : j = -1 \/ j = 0 \/ j = 1) by lia.
    destruct C as [-> | [-> | ->]]; vm_compute; reflexivity.
Qed.

End Binary64.

Section PlacementClaims.
Context `{Encoder : PngEncoder} `{Decoder : ImageDecoder}.

Lemma mul_nan_l (x : float) : (PrimFloat.nan * x)%float = PrimFloat.nan.
Proof. apply Prim2SF_inj. rewrite mul_spec. reflexivity. Qed.

(** For a mouse event whose offsets are truthy numbers the mapping is the
    offset times the scale factor. *)
Lemma getCoordinates_mouse (canvas : Canvas) (rect : DOMRect) (x y : float) :
  JS.truthy_num x = true -> JS.truthy_num y = true ->
  getCoordinates canvas rect (mouseEvent x y) =
    {| px := (x * (JS.num canvas.(width) / rect.(rect_width)))%float;
       py := (y * (JS.num canvas.(height) / rect.(rect_height)))%float |}.
Proof.
  intros Hx Hy. unfold getCoordinates, JS.or_num. simpl. rewrite Hx, Hy. reflexivity.
Qed.

(** C4. A mouse event with [offsetX = 0] ([offsetY = 0]) is mapped to
    [NaN] in that coordinate, whatever the canvas and its displayed size:
    [0] is falsy, so [||] falls through to the touch expression, which is
    [NaN] for an event without touches.  In particular the top-left corner
    of the 960 x 540 canvas shown at 480 x 270 maps to [(NaN, NaN)] under
    the mouse, while the same corner under a touch maps to [(0, 0)]. *)
Theorem mouse_at_offset_zero_maps_to_NaN (canvas : Canvas) (rect : DOMRect) (x y : float) :
  (getCoordinates canvas rect (mouseEvent 0 y)).(px) = PrimFloat.nan
  /\ (getCoordinates canvas rect (mouseEvent x 0)).(py) = PrimFloat.nan
  /\ getCoordinates canvasElement halfSizeRect (mouseEvent 0 0) =
       {| px := PrimFloat.nan; py := PrimFloat.nan |}
  /\ getCoordinates canvasElement halfSizeRect
       (touchEvent [ {| clientX := 0; clientY := 0 |} ]) = {| px := 0; py := 0 |}.
Proof.
  split; [| split; [| split]].
  - unfold getCoordinates. simpl. apply mul_nan_l.
  - unfold getCoordinates. simpl. apply mul_nan_l.
  - vm_compute. reflexivity.
  - vm_compute. reflexivity.
Qed.

(** C7, as the code has it.  Importing an image of [iw] x [ih] pixels
    fills the canvas white and draws the image scaled by
    [r = Math.min(cw / iw, ch / ih)] at
    [((cw - iw * r) / 2, (ch - ih * r) / 2)], every operation rounded to
    binary64.  On the 960 x 540 canvas of the component, for every image
    (its sides are positive and below [2 ^ 32]), the shifts that are zero
    in exact arithmetic are zero up to that rounding: when the image has
    the canvas's aspect ratio, both shifts are at most [2 ^ -44] in
    absolute value and the drawn size is within [2 ^ -43] of the canvas
    size; when the image is narrower, the horizontal shift is positive
    and the vertical shift is at most [2 ^ -44] in absolute value. *)
Theorem import_is_fitted_and_centred_up_to_rounding
    (s : Home) (canvas : Canvas) (img : Image) :
  s.(canvasRef) = Some canvas ->
  let cw := JS.num canvas.(width) in
  let ch := JS.num canvas.(height) in
  let w := JS.num img.(img_width) in
  let h := JS.num img.(img_height) in
  let r := JS.Math_min (cw / w) (ch / h) in
  let shiftX := ((cw - w * r) / 2)%float in
  let shiftY := ((ch - h * r) / 2)%float in
  bitmap <$> (handleImageImport (Some img) s).(canvasRef) =
    Some (DrawImage (FillRect "#FFFFFF") img.(img_src)
            [0; 0; w; h; shiftX; shiftY; w * r; h * r]%float)
  /\ (canvas.(width) = 960 -> canvas.(height) = 540 ->
      0 < img.(img_width) < 2 ^ 32 -> 0 < img.(img_height) < 2 ^ 32 ->
      (img.(img_width) * 540 = img.(img_height) * 960 ->
         within rounding_unit shiftX = true
         /\ within rounding_unit shiftY = true
         /\ within 0x1p-43 (w * r - cw) = true
         /\ within 0x1p-43 (h * r - ch) = true)
      /\ (img.(img_width) * 540 < img.(img_height) * 960 ->
         PrimFloat.ltb 0 shiftX = true
         /\ within rounding_unit shiftY = true)).
Proof.
  intros Hc cw ch w h r shiftX shiftY.
  split.
  - unfold handleImageImport. rewrite Hc. reflexivity.
  - intros Hw Hh Hiw Hih. subst shiftX shiftY r cw ch w h. rewrite Hw, Hh.
    split.
    + intros Hsame. exact (fit_same_aspect _ _ Hiw Hih Hsame).
    + intros Hnarrow. apply (fit_narrower _ _ Hiw Hih). lia.
Qed.

(** An image narrower than the 960 x 540 canvas is scaled by the ratio
    of the heights: the rounding of the two quotients does not change
    which one [Math.min] picks. *)
Theorem narrower_image_is_scaled_by_height (iw ih : Z) :
  0 < iw < 2 ^ 32 -> 0 < ih < 2 ^ 32 -> iw * 540 < ih * 960 ->
  (fitAndCenter (JS.num 960) (JS.num 540) (JS.num iw) (JS.num ih)).(ratio) =
    (JS.num 540 / JS.num ih)%float.
Proof.
  intros Hiw32 Hih32 Hnar.
  pose proof (small_is_53 iw Hiw32) as Hiw.
  pose proof (small_is_53 ih Hih32) as Hih.
  destruct (Prim2SF_quotient 960 iw ltac:(split; reflexivity) Hiw) as (Qh & mh & eh & Eh).
  destruct (Prim2SF_quotient 540 ih ltac:(split; reflexivity) Hih) as (Qv & mv & ev & Ev).
  unfold fitAndCenter. cbn [ratio].
  rewrite (Math_min_positive _ _ _ _ _ _ Eh Ev).
  rewrite (FloatAxioms.ltb_spec (JS.num 960 / JS.num iw) (JS.num 540 / JS.num ih)), Qh, Qv,
    narrower_ratio by lia.
  reflexivity.
Qed.

End PlacementClaims.

(* ------------------------------------------------------------------ *)
(** ** Instances at concrete states *)

Section Examples.
Local Existing Instance referenceEncoder.
Local Existing Instance referenceDecoder.

Lemma afterOneStroke_well_formed : well_formed afterOneStroke.
Proof. unfold afterOneStroke. apply run_well_formed, mount_well_formed. Qed.

(** C1, witness: one stroke, one undo, one commit. *)
Lemma commit_after_undos_witness :
  let s := afterOneStroke in
  let s' := handleUndo s in
  (0 <= s.(historyState).(index) < Z.of_nat (length s.(historyState).(stack)))
  /\ 1 <= s.(historyState).(index)
  /\ Z.of_nat (length (saveCanvasState s').(historyState).(stack))
       = (Z.of_nat (length s.(historyState).(stack)) - 1) + 1
  /\ (saveCanvasState s').(historyState).(index) = 1.
Proof.
  assert (Hi : 0 <= afterOneStroke.(historyState).(index)
               < Z.of_nat (length afterOneStroke.(historyState).(stack)))
    by (vm_compute; split; [discriminate | reflexivity]).
  assert (Hk : Z.of_nat 1 <= afterOneStroke.(historyState).(index))
    by (vm_compute; discriminate).
  destruct (commit_after_undos_truncates_and_appends
              afterOneStroke (handleUndo afterOneStroke) _ 1 Hi Hk eq_refl eq_refl)
    as (_ & _ & _ & Hidx & Hhead).
  split; [exact Hi |]. split; [exact Hk |].
  split; [exact (Hhead eq_refl) | exact Hidx].
Defined.

(** C3, witness: after one stroke, undo goes back to the baseline
    snapshot and redo has nothing to redo. *)
Lemma undo_redo_witness :
  well_formed afterOneStroke
  /\ (handleUndo afterOneStroke).(historyState).(index) = 0
  /\ bitmap <$> (handleUndo afterOneStroke).(canvasRef) =
       Some (DrawImage Transparent "data:image/png;base64,iVBORw0KGgoB" [0; 0]%float)
  /\ handleRedo afterOneStroke = afterOneStroke.
Proof.
  pose proof afterOneStroke_well_formed as W.
  destruct (undo_redo_move_index_and_restore afterOneStroke W) as (U & _ & _ & R).
  destruct (U eq_refl) as (Ui & d & Hd & Hb).
  vm_compute in Hd. injection Hd as <-.
  split; [exact W |]. split; [exact Ui |]. split; [exact Hb |].
  apply R. reflexivity.
Defined.

(** C5, counterexample. On the untouched canvas, with the prompt
    "draw a red circle", the request is not the prompt alone: its first
    part is the image of the white canvas. *)
Lemma untouched_canvas_request_has_image :
  contents <$> (handleSubmit_start untouched).2 =
    Some [ {| role := "USER";
              parts := [ imagePart "iVBORw0KGgoBDBE" ] |};
           {| role := "USER";
              parts := [ textPart "draw a red circle. Keep the same minimal line drawing style." ] |} ]
  /\ contents <$> (handleSubmit_start untouched).2 <>
    Some [ {| role := "USER"; parts := [ textPart "draw a red circle" ] |} ].
Proof. split; [vm_compute; reflexivity | vm_compute; discriminate]. Qed.

(** C5, witness: the untouched canvas. *)
Lemma request_on_untouched_canvas_witness :
  JS.truthy untouched.(apiKey) = true
  /\ (handleSubmit_start untouched).2 =
       Some {| model := "gemini-2.5-flash-image-preview";
               contents :=
                 [ {| role := "USER"; parts := [ imagePart "iVBORw0KGgoBDBE" ] |};
                   {| role := "USER";
                      parts := [ textPart "draw a red circle. Keep the same minimal line drawing style." ] |} ];
               responseModalities := [TEXT; IMAGE] |}.
Proof.
  split; [reflexivity |].
  exact (request_carries_canvas_image_unless_canvas_is_empty
           untouched (fillRect_all "#FFFFFF" canvasElement) eq_refl eq_refl).
Defined.

(** C6, counterexample. After a stroke and an undo, a response with a
    red image, a text and a blue image, both images being PNG files the
    browser decodes: the background becomes the blue image, not the first
    one; the history has two snapshots before and two after; the state is
    the one the same response without its text gives. *)
Lemma second_image_wins_and_length_stays :
  let s := undoneWithPrompt in
  exists s2,
    handleSubmit (fun _ => Fulfilled twoImagesAndText) s = Done s2
    /\ s2.(backgroundImageRef) = Some ("data:image/png;base64," +:+ bluePixel)
    /\ s2.(backgroundImageRef) <> Some ("data:image/png;base64," +:+ redPixel)
    /\ length s.(historyState).(stack) = 2%nat
    /\ length s2.(historyState).(stack) = 2%nat
    /\ handleSubmit (fun _ => Fulfilled twoImages) s = Done s2.
Proof.
  eexists. split; [vm_compute; reflexivity |].
  split; [reflexivity |]. split; [discriminate |].
  split; [reflexivity |]. split; [reflexivity |]. vm_compute. reflexivity.
Qed.

(** C6, witness: the same response applied at the head of the history,
    and a response whose image data the browser does not decode. *)
Lemma applied_result_witness :
  afterOneStroke.(canvasRef) <> None
  /\ (exists s1,
        handleSubmit_settle (Fulfilled twoImagesAndText) afterOneStroke = Done s1
        /\ (afterRender afterOneStroke s1).(backgroundImageRef) =
             Some ("data:image/png;base64," +:+ bluePixel)
        /\ length (afterRender afterOneStroke s1).(historyState).(stack) = 3%nat)
  /\ (exists s1,
        handleSubmit_settle (Fulfilled brokenImage) afterOneStroke = Done s1
        /\ afterRender afterOneStroke s1 = s1
        /\ s1.(backgroundImageRef) = None
        /\ length s1.(historyState).(stack) = 2%nat).
Proof.
  split; [discriminate |]. split.
  - destruct (applied_result_takes_last_image_and_commits
                afterOneStroke _ twoImagesAndText _ _ bluePixel
                eq_refl ltac:(split; vm_compute; [discriminate | reflexivity]) eq_refl
                ltac:(repeat constructor; eexists; reflexivity)
                eq_refl eq_refl eq_refl eq_refl)
      as (Hs & Hyes & _).
    destruct (Hyes eq_refl) as (_ & Hbg & _ & _ & _ & _ & Hlen).
    eexists. split; [exact Hs |]. split; [exact Hbg |]. exact (Hlen eq_refl).
  - destruct (applied_result_takes_last_image_and_commits
                afterOneStroke _ brokenImage _ _ "BBBB"
                eq_refl ltac:(split; vm_compute; [discriminate | reflexivity]) eq_refl
                ltac:(repeat constructor; eexists; reflexivity)
                eq_refl eq_refl eq_refl eq_refl)
      as (Hs & _ & Hno).
    destruct (Hno eq_refl) as (Hr & _ & Hbg & Hh).
    eexists. split; [exact Hs |]. split; [exact Hr |].
    split; [exact Hbg |]. rewrite Hh. reflexivity.
Defined.

(** C7, counterexample. An image of 176 x 99 pixels has the aspect ratio
    of the 960 x 540 canvas, yet it is drawn 959.99... pixels wide at the
    horizontal shift [2^-44], which is not zero. *)
Lemma matching_aspect_176x99_has_nonzero_shift :
  let s := handleImageImport (Some {| img_src := "photo"; img_width := 176; img_height := 99 |})
             (mount None) in
  bitmap <$> s.(canvasRef) =
    Some (DrawImage (FillRect "#FFFFFF") "photo"
            [0; 0; 176; 99; 0x1p-44; 0; 0x1.dffffffffffffp+9; 540]%float)
  /\ PrimFloat.eqb 0x1p-44 0 = false.
Proof. split; vm_compute; reflexivity. Qed.

(** C7, witness: a photo of 1920 x 1080 pixels and one of 1080 x 1920
    pixels on the freshly mounted canvas. *)
Lemma import_placement_witness :
  (mount None).(canvasRef) <> None
  /\ within rounding_unit
       (fitAndCenter (JS.num 960) (JS.num 540) (JS.num 1920) (JS.num 1080)).(centerShiftX) = true
  /\ PrimFloat.ltb 0
       (fitAndCenter (JS.num 960) (JS.num 540) (JS.num 1080) (JS.num 1920)).(centerShiftX) = true
  /\ within rounding_unit
       (fitAndCenter (JS.num 960) (JS.num 540) (JS.num 1080) (JS.num 1920)).(centerShiftY) = true.
Proof.
  split; [vm_compute; discriminate |].
  destruct (import_is_fitted_and_centred_up_to_rounding
              (mount None) _ {| img_src := "photo"; img_width := 1920; img_height := 1080 |}
              eq_refl)
    as (_ & Hwide).
  destruct (Hwide eq_refl eq_refl
              ltac:(split; vm_compute; reflexivity) ltac:(split; vm_compute; reflexivity))
    as [Hsame _].
  destruct (Hsame eq_refl) as (Hx & _).
  destruct (import_is_fitted_and_centred_up_to_rounding
              (mount None) _ {| img_src := "photo"; img_width := 1080; img_height := 1920 |}
              eq_refl)
    as (_ & Htall).
  destruct (Htall eq_refl eq_refl
              ltac:(split; vm_compute; reflexivity) ltac:(split; vm_compute; reflexivity))
    as [_ Hnarrow].
  destruct (Hnarrow eq_refl) as [Hpos Hy].
  split; [exact Hx |]. split; [exact Hpos | exact Hy].
Defined.

(** C9, witness: the component mounted without a stored key. *)
Lemma submit_without_key_witness :
  (mount None).(apiKey) = ""
  /\ (handleSubmit_start (mount None)).2 = None
  /\ handleSubmit (fun _ => Rejected quotaError) (mount None) =
       Done (setShowApiKeyModal true (mount None)).
Proof.
  split; [reflexivity |].
  destruct (submit_without_key_is_refused (mount None) (fun _ => Rejected quotaError) eq_refl)
    as (Hn & Hs & _).
  split; [exact Hn | exact Hs].
Defined.

(** A response that only says something. *)
Lemma response_without_image_witness :
  candidate_parts (responseOf [textPart "I cannot draw that"]) =
    Normal [textPart "I cannot draw that"]
  /\ handleSubmit_settle (Fulfilled (responseOf [textPart "I cannot draw that"])) afterOneStroke =
       Done (setIsLoading false
               (alert "Failed to generate image. Please try again." afterOneStroke)).
Proof.
  split; [reflexivity |].
  destruct (response_without_image_only_alerts
              afterOneStroke (responseOf [textPart "I cannot draw that"]) _ eq_refl eq_refl)
    as (Hs & _).
  exact Hs.
Defined.

End Examples.

(* ================================================================== *)
(** * Further properties of the handlers *)

Section MoreHistory.
Context `{Encoder : PngEncoder} `{Decoder : ImageDecoder}.

(** Restoring the snapshot at a position inside the stack of a
    well-formed state. *)
Lemma restore_inside (s : Home) (j : Z) :
  well_formed s ->
  0 <= j < Z.of_nat (length s.(historyState).(stack)) ->
  exists canvas d,
    s.(canvasRef) = Some canvas
    /\ s.(historyState).(stack) !! Z.to_nat j = Some d
    /\ restoreCanvasState (JS.nth s.(historyState).(stack) j) s =
         set_canvasRef (Some (drawImage d [0; 0]%float (clearRect_all canvas))) s.
Proof.
  intros ([canvas Hc] & _ & Ht) Hj.
  destruct (lookup_lt_is_Some_2 (stack (historyState s)) (Z.to_nat j)) as [d Hd]; [lia |].
  exists canvas, d. split; [exact Hc |]. split; [exact Hd |].
  unfold JS.nth. destruct (Z.ltb_spec j 0); [lia |]. rewrite Hd.
  unfold restoreCanvasState. rewrite Hc.
  rewrite Forall_lookup in Ht. rewrite (Ht _ _ Hd). reflexivity.
Qed.

Lemma handleUndo_bitmap (s : Home) :
  well_formed s -> 0 < s.(historyState).(index) ->
  exists d, s.(historyState).(stack) !! Z.to_nat (s.(historyState).(index) - 1) = Some d
    /\ bitmap <$> (handleUndo s).(canvasRef) = Some (DrawImage Transparent d [0; 0]%float).
Proof.
  intros W Hpos. pose proof W as (_ & [_ Hi] & _).
  destruct (restore_inside s (index (historyState s) - 1) W) as (canvas & d & Hc & Hd & Hr); [lia |].
  exists d. split; [exact Hd |].
  unfold handleUndo. destruct (Z.leb_spec (index (historyState s)) 0); [lia |].
  simpl. rewrite Hr. reflexivity.
Qed.

Lemma handleRedo_bitmap (s : Home) :
  well_formed s ->
  s.(historyState).(index) < Z.of_nat (length s.(historyState).(stack)) - 1 ->
  exists d, s.(historyState).(stack) !! Z.to_nat (s.(historyState).(index) + 1) = Some d
    /\ bitmap <$> (handleRedo s).(canvasRef) = Some (DrawImage Transparent d [0; 0]%float).
Proof.
  intros W Hlt. pose proof W as (_ & [_ Hi] & _).
  destruct (restore_inside s (index (historyState s) + 1) W) as (canvas & d & Hc & Hd & Hr); [lia |].
  exists d. split; [exact Hd |].
  unfold handleRedo, JS.last_index.
  destruct (Z.geb_spec (index (historyState s))
              (Z.of_nat (length (stack (historyState s))) - 1)); [lia |].
  simpl. rewrite Hr. reflexivity.
Qed.

(** Undo followed by redo brings the history back exactly (same stack,
    same index) and shows the snapshot at that index; so does redo
    followed by undo when there is something to redo. *)
Theorem undo_then_redo_returns (s : Home) :
  well_formed s ->
  let h := s.(historyState) in
  (0 < h.(index) ->
     (handleRedo (handleUndo s)).(historyState) = h
     /\ exists d, h.(stack) !! Z.to_nat h.(index) = Some d
          /\ bitmap <$> (handleRedo (handleUndo s)).(canvasRef) =
               Some (DrawImage Transparent d [0; 0]%float))
  /\ (h.(index) < Z.of_nat (length h.(stack)) - 1 ->
     (handleUndo (handleRedo s)).(historyState) = h
     /\ exists d, h.(stack) !! Z.to_nat h.(index) = Some d
          /\ bitmap <$> (handleUndo (handleRedo s)).(canvasRef) =
               Some (DrawImage Transparent d [0; 0]%float)).
Proof.
  intros W h. subst h. pose proof W as (_ & [_ Hi] & _).
  split.
  - intros Hpos.
    assert (Hu : historyState (handleUndo s) =
              {| stack := stack (historyState s); index := index (historyState s) - 1 |}).
    { rewrite handleUndo_history.
      destruct (Z.leb_spec (index (historyState s)) 0); [lia | reflexivity]. }
    pose proof (handleUndo_well_formed s W) as Wu.
    split.
    + rewrite handleRedo_history, Hu. unfold JS.last_index. simpl.
      destruct (Z.geb_spec (index (historyState s) - 1)
                  (Z.of_nat (length (stack (historyState s))) - 1)); [lia |].
      destruct (historyState s) as [st i]. simpl. f_equal. lia.
    + destruct (handleRedo_bitmap (handleUndo s) Wu) as (d & Hd & Hb).
      { rewrite Hu. simpl. lia. }
      rewrite Hu in Hd. simpl in Hd.
      replace (index (historyState s) - 1 + 1) with (index (historyState s)) in Hd by lia.
      exists d. split; assumption.
  - intros Hlt.
    assert (Hr : historyState (handleRedo s) =
              {| stack := stack (historyState s); index := index (historyState s) + 1 |}).
    { rewrite handleRedo_history. unfold JS.last_index.
      destruct (Z.geb_spec (index (historyState s))
                  (Z.of_nat (length (stack (historyState s))) - 1)); [lia | reflexivity]. }
    pose proof (handleRedo_well_formed s W) as Wr.
    split.
    + rewrite handleUndo_history, Hr. simpl.
      destruct (Z.leb_spec (index (historyState s) + 1) 0); [lia |].
      destruct (historyState s) as [st i]. simpl. f_equal. lia.
    + destruct (handleUndo_bitmap (handleRedo s) Wr) as (d & Hd & Hb).
      { rewrite Hr. simpl. lia. }
      rewrite Hr in Hd. simpl in Hd.
      replace (index (historyState s) + 1 - 1) with (index (historyState s)) in Hd by lia.
      exists d. split; assumption.
Qed.

Lemma undo_iter_saturates (k : nat) (s : Home) :
  0 <= s.(historyState).(index) ->
  (Nat.iter k handleUndo s).(historyState) =
    {| stack := s.(historyState).(stack);
       index := Z.max 0 (s.(historyState).(index) - Z.of_nat k) |}.
Proof.
  intros Hi. induction k as [| k IH].
  - simpl. destruct (historyState s) as [st i]. simpl in *. f_equal. lia.
  - simpl. rewrite handleUndo_history, IH. simpl.
    destruct (Z.leb_spec (Z.max 0 (index (historyState s) - Z.of_nat k)) 0); f_equal; lia.
Qed.

Lemma redo_iter_saturates (k : nat) (s : Home) :
  s.(historyState).(index) <= Z.of_nat (length s.(historyState).(stack)) - 1 ->
  (Nat.iter k handleRedo s).(historyState) =
    {| stack := s.(historyState).(stack);
       index := Z.min (Z.of_nat (length s.(historyState).(stack)) - 1)
                  (s.(historyState).(index) + Z.of_nat k) |}.
Proof.
  intros Hi. induction k as [| k IH].
  - simpl. destruct (historyState s) as [st i]. simpl in *. f_equal. lia.
  - simpl. rewrite handleRedo_history, IH. unfold JS.last_index. simpl.
    destruct (Z.geb_spec
                (Z.min (Z.of_nat (length (stack (historyState s))) - 1)
                   (index (historyState s) + Z.of_nat k))
                (Z.of_nat (length (stack (historyState s))) - 1)); f_equal; lia.
Qed.

(** Repeated undo stops at the first snapshot and repeated redo at the
    last one: [k] undos from index [i] leave index [max 0 (i - k)], [k]
    redos leave [min (length - 1) (i + k)], and neither changes the
    stack. *)
Theorem repeated_undo_redo_saturate (s : Home) (k : nat) :
  history_ok s.(historyState) ->
  let h := s.(historyState) in
  (Nat.iter k handleUndo s).(historyState) =
    {| stack := h.(stack); index := Z.max 0 (h.(index) - Z.of_nat k) |}
  /\ (Nat.iter k handleRedo s).(historyState) =
    {| stack := h.(stack);
       index := Z.min (Z.of_nat (length h.(stack)) - 1) (h.(index) + Z.of_nat k) |}.
Proof.
  intros [_ Hi] h. subst h. split.
  - apply undo_iter_saturates. lia.
  - apply redo_iter_saturates. lia.
Qed.

(** [k] undos in a row all find the undo button enabled exactly when
    [k] is at most the index they start from: each of them then takes
    effect. *)
Theorem k_undos_take_effect_iff_within_index (s : Home) (k : nat) :
  0 <= s.(historyState).(index) ->
  (forall j : nat, (j < k)%nat -> undoDisabled (Nat.iter j handleUndo s) = false)
  <-> Z.of_nat k <= s.(historyState).(index).
Proof.
  intros Hi. unfold undoDisabled. split.
  - intros Hall. destruct k as [| k]; [simpl; lia |].
    specialize (Hall k ltac:(lia)).
    rewrite undo_iter_saturates in Hall by exact Hi. simpl in Hall.
    apply Z.leb_gt in Hall. lia.
  - intros Hk j Hj. rewrite undo_iter_saturates by exact Hi. simpl.
    apply Z.leb_gt. lia.
Qed.

Lemma redo_at_head (s : Home) :
  s.(historyState).(index) = JS.last_index s.(historyState).(stack) ->
  handleRedo s = s.
Proof.
  intros Hh. unfold handleRedo. rewrite Hh, Z.geb_leb, Z.leb_refl. reflexivity.
Qed.

(** A new action leaves nothing to redo: right after the end of a
    stroke, a clear, an import or an applied generated image (one the
    browser decodes), redo changes nothing. *)
Theorem nothing_to_redo_after_commit (s : Home) (canvas : Canvas) (img : Image) :
  s.(canvasRef) = Some canvas ->
  (s.(isDrawing) = true -> handleRedo (stopDrawing s) = stopDrawing s)
  /\ handleRedo (clearCanvas s) = clearCanvas s
  /\ handleRedo (handleImageImport (Some img) s) = handleImageImport (Some img) s
  /\ (forall url, s.(generatedImage) = Some url ->
      JS.truthy url = true -> decodes url = true ->
      handleRedo (generatedImage_effect s) = generatedImage_effect s).
Proof.
  intros Hc. split; [| split; [| split]].
  - intros Hd. apply redo_at_head. unfold stopDrawing. rewrite Hd. simpl.
    unfold saveCanvasState. simpl. rewrite Hc. reflexivity.
  - apply redo_at_head. unfold clearCanvas. rewrite Hc. reflexivity.
  - apply redo_at_head. unfold handleImageImport. rewrite Hc. reflexivity.
  - intros url Hg Ht Hd. apply redo_at_head. unfold generatedImage_effect.
    rewrite Hg, Hc, Ht, Hd. unfold drawImageToCanvas. simpl. rewrite Hc.
    unfold saveCanvasState. simpl. reflexivity.
Qed.

(** Undo right after a commit made on the last position shows the
    snapshot that was current before the commit and keeps the new snapshot
    in the stack; redo then shows the new snapshot again. *)
Theorem undo_after_commit_shows_previous (s : Home) (canvas : Canvas) :
  well_formed s ->
  s.(canvasRef) = Some canvas ->
  s.(historyState).(index) = Z.of_nat (length s.(historyState).(stack)) - 1 ->
  let h := s.(historyState) in
  let s1 := handleUndo (saveCanvasState s) in
  s1.(historyState) = {| stack := h.(stack) ++ [toDataURL canvas]; index := h.(index) |}
  /\ (exists d, h.(stack) !! Z.to_nat h.(index) = Some d
        /\ bitmap <$> s1.(canvasRef) = Some (DrawImage Transparent d [0; 0]%float))
  /\ (handleRedo s1).(historyState) =
       {| stack := h.(stack) ++ [toDataURL canvas]; index := h.(index) + 1 |}
  /\ bitmap <$> (handleRedo s1).(canvasRef) =
       Some (DrawImage Transparent (toDataURL canvas) [0; 0]%float).
Proof.
  intros W Hc Hhead h s1. subst h s1.
  pose proof W as (Wc & [Wn Wi] & Wt).
  assert (Ws : well_formed (saveCanvasState s))
    by (apply saveCanvasState_well_formed; assumption).
  assert (Hs : historyState (saveCanvasState s) =
            {| stack := stack (historyState s) ++ [toDataURL canvas];
               index := index (historyState s) + 1 |}).
  { rewrite (saveCanvasState_history s canvas Hc).
    unfold pushSnapshot, JS.last_index. simpl.
    rewrite slice0_take by lia. rewrite take_ge by lia.
    rewrite length_app. simpl. f_equal. lia. }
  assert (Hu : historyState (handleUndo (saveCanvasState s)) =
            {| stack := stack (historyState s) ++ [toDataURL canvas];
               index := index (historyState s) |}).
  { rewrite handleUndo_history, Hs. simpl.
    destruct (Z.leb_spec (index (historyState s) + 1) 0); [lia |]. f_equal. lia. }
  pose proof (handleUndo_well_formed _ Ws) as Wu.
  split; [exact Hu |]. split; [| split].
  - destruct (handleUndo_bitmap (saveCanvasState s) Ws) as (d & Hd & Hb).
    { rewrite Hs. simpl. lia. }
    rewrite Hs in Hd. simpl in Hd.
    replace (index (historyState s) + 1 - 1) with (index (historyState s)) in Hd by lia.
    rewrite lookup_app_l in Hd by lia.
    exists d. split; assumption.
  - rewrite handleRedo_history, Hu. unfold JS.last_index. simpl.
    rewrite length_app. simpl.
    destruct (Z.geb_spec (index (historyState s))
                (Z.of_nat (length (stack (historyState s)) + 1) - 1)); [lia | reflexivity].
  - destruct (handleRedo_bitmap _ Wu) as (d & Hd & Hb).
    { rewrite Hu. simpl. rewrite length_app. simpl. lia. }
    rewrite Hu in Hd. simpl in Hd.
    rewrite lookup_app_r in Hd by lia.
    replace (Z.to_nat (index (historyState s) + 1) - length (stack (historyState s)))%nat
      with 0%nat in Hd by lia.
    simpl in Hd. injection Hd as <-. exact Hb.
Qed.

(** The undo button is disabled exactly when undo would change nothing,
    and the redo button exactly when redo would change nothing. *)
Theorem buttons_disabled_iff_no_op (s : Home) :
  (undoDisabled s = true <-> handleUndo s = s)
  /\ (redoDisabled s = true <-> handleRedo s = s).
Proof.
  split; split.
  - unfold undoDisabled, handleUndo. intros ->. reflexivity.
  - intros Heq. unfold undoDisabled.
    destruct (Z.leb_spec (index (historyState s)) 0) as [| Hpos]; [reflexivity |].
    apply (f_equal (fun x => index (historyState x))) in Heq.
    rewrite handleUndo_history in Heq.
    destruct (Z.leb_spec (index (historyState s)) 0); simpl in Heq; lia.
  - unfold redoDisabled, handleRedo. intros ->. reflexivity.
  - intros Heq. unfold redoDisabled.
    destruct (Z.geb_spec (index (historyState s)) (JS.last_index (stack (historyState s))))
      as [| Hlt]; [reflexivity |].
    apply (f_equal (fun x => index (historyState x))) in Heq.
    rewrite handleRedo_history in Heq.
    destruct (Z.geb_spec (index (historyState s)) (JS.last_index (stack (historyState s))));
      simpl in Heq; lia.
Qed.

(** Ending a stroke twice commits once: after [stopDrawing] a second
    [stopDrawing] (mouse-up followed by mouse-leave) changes nothing. *)
Theorem stopDrawing_twice_commits_once (s : Home) :
  stopDrawing (stopDrawing s) = stopDrawing s
  /\ (snapshots (stopDrawing (stopDrawing s)) <= S (snapshots s))%nat.
Proof.
  assert (Idem : stopDrawing (stopDrawing s) = stopDrawing s).
  { unfold stopDrawing at 2 3. destruct (isDrawing s) eqn:Hd; simpl.
    - unfold stopDrawing, saveCanvasState. simpl.
      destruct (canvasRef s); reflexivity.
    - unfold stopDrawing. rewrite Hd. reflexivity. }
  split; [exact Idem |]. rewrite Idem.
  unfold snapshots, stopDrawing. destruct (isDrawing s); simpl; [| lia].
  unfold saveCanvasState. simpl. destruct (canvasRef s); simpl; [| lia].
  unfold JS.slice0. rewrite length_app, length_take. simpl. lia.
Qed.

(** A press and release without any move changes no pixel and still
    commits: the raster is the one from before, and a snapshot of that same
    raster is appended after the current index. *)
Theorem click_commits_unchanged_raster
    (s : Home) (canvas : Canvas) (e : NativeEvent) (rect : DOMRect) :
  s.(canvasRef) = Some canvas ->
  let s' := stopDrawing (startDrawing e rect s) in
  bitmap <$> s'.(canvasRef) = Some canvas.(bitmap)
  /\ s'.(historyState) = pushSnapshot (toDataURL canvas) s.(historyState)
  /\ last s'.(historyState).(stack) = Some (toDataURL canvas).
Proof.
  intros Hc s'. subst s'.
  unfold startDrawing. rewrite Hc.
  unfold stopDrawing, saveCanvasState. simpl.
  assert (Hbm : bitmap (moveTo (getCoordinates canvas rect e) (beginPath canvas)) = bitmap canvas).
  { unfold moveTo. destruct (finite_point _); reflexivity. }
  assert (Hurl : toDataURL (moveTo (getCoordinates canvas rect e) (beginPath canvas)) =
            toDataURL canvas).
  { unfold toDataURL, moveTo. destruct (finite_point _); reflexivity. }
  rewrite Hurl. split; [rewrite Hbm; reflexivity |]. split; [reflexivity |].
  unfold pushSnapshot. simpl. apply last_snoc.
Qed.

(** Right after a commit the downloaded image is the snapshot the index
    points at. *)
Theorem download_after_commit_is_current_snapshot (s : Home) :
  is_Some s.(canvasRef) ->
  let s' := saveCanvasState s in
  is_Some (downloadCanvas s')
  /\ JS.nth s'.(historyState).(stack) s'.(historyState).(index) = downloadCanvas s'.
Proof.
  intros [canvas Hc] s'. subst s'.
  unfold downloadCanvas, saveCanvasState. rewrite Hc. simpl. rewrite Hc.
  split; [eauto |].
  unfold JS.nth, JS.last_index.
  set (l := JS.slice0 (stack (historyState s)) (index (historyState s) + 1)).
  rewrite length_app. simpl.
  destruct (Z.ltb_spec (Z.of_nat (length l + 1) - 1) 0); [lia |].
  replace (Z.to_nat (Z.of_nat (length l + 1) - 1)) with (length l + 0)%nat by lia.
  rewrite lookup_app_r by lia.
  replace (length l + 0 - length l)%nat with 0%nat by lia. reflexivity.
Qed.

End MoreHistory.

Section MoreLoop.
Context `{Encoder : PngEncoder} `{Decoder : ImageDecoder}.

Lemma left_edge_not_finite (canvas : Canvas) (rect : DOMRect) (y : float) :
  finite_point (getCoordinates canvas rect (mouseEvent 0 y)) = false.
Proof.
  unfold finite_point, getCoordinates. simpl. rewrite mul_nan_l. reflexivity.
Qed.

(** A stroke that starts on the left edge (mouse [offsetX = 0]) loses its
    starting point: the path is empty after [startDrawing], further
    samples on the edge add nothing to it, and the first sample with
    finite coordinates becomes a lone starting point, so no segment joins
    it to where the stroke began. *)
Theorem stroke_from_left_edge_loses_its_start
    (s : Home) (canvas : Canvas) (rect : DOMRect) (y y' : float) (e : NativeEvent) :
  s.(canvasRef) = Some canvas ->
  let s1 := startDrawing (mouseEvent 0 y) rect s in
  s1.(isDrawing) = true
  /\ path <$> s1.(canvasRef) = Some []
  /\ path <$> (draw (mouseEvent 0 y') rect s1).(canvasRef) = Some []
  /\ (finite_point (getCoordinates canvas rect e) = true ->
      path <$> (draw e rect s1).(canvasRef) = Some [[getCoordinates canvas rect e]]).
Proof.
  intros Hc s1. subst s1.
  unfold startDrawing. rewrite Hc. unfold moveTo.
  rewrite left_edge_not_finite.
  split; [reflexivity |]. split; [reflexivity |]. split.
  - unfold draw. simpl. unfold lineTo.
    change (getCoordinates (beginPath canvas) rect (mouseEvent 0 y'))
      with (getCoordinates canvas rect (mouseEvent 0 y')).
    rewrite left_edge_not_finite. reflexivity.
  - intros Hfin. unfold draw. simpl. unfold lineTo.
    change (getCoordinates (beginPath canvas) rect e)
      with (getCoordinates canvas rect e).
    rewrite Hfin. reflexivity.
Qed.

(** However the call ends, the handler leaves the busy flag cleared and
    the canvas, the background image and the history as they were (only
    the effect on a new generated image changes them).  It returns
    normally, except when the call is rejected with [null] or
    [undefined]: then the [catch] block itself throws a [TypeError] on
    reading [error.message], no error dialog is opened and the handler's
    promise is rejected, after [finally] has cleared the busy flag. *)
Theorem submission_always_clears_busy_flag (o : Outcome) (s : Home) :
  let s' := settled_state (handleSubmit_settle o s) in
  s'.(isLoading) = false
  /\ s'.(canvasRef) = s.(canvasRef)
  /\ s'.(backgroundImageRef) = s.(backgroundImageRef)
  /\ s'.(historyState) = s.(historyState)
  /\ match o with
     | RejectedNullish v =>
         handleSubmit_settle o s =
           Unhandled
             (ThrownError (TypeError ("Cannot read properties of " +:+ nullish_name v
                                        +:+ " (reading 'message')")))
             (setIsLoading false s)
     | _ => handleSubmit_settle o s = Done s'
     end.
Proof.
  intros s'. destruct (handleSubmit_settle_state o s) as (Hl & Hc & Hb & Hh).
  repeat (split; [assumption |]).
  subst s'. unfold handleSubmit_settle, try_catch_finally.
  destruct o as [r | e | v]; try reflexivity.
  destruct (handleSubmit_resume (Fulfilled r) s) as [s1 | e] eqn:E; [reflexivity |].
  destruct e as [e | v]; [reflexivity |].
  unfold handleSubmit_resume in E. simpl in E.
  destruct (candidate_parts r) as [ps | e] eqn:Ec; simpl in E.
  - destruct (collect_parts ps data0) as [d | e] eqn:Ed; simpl in E; [discriminate |].
    exfalso. clear - Ed E. injection E as ->.
    revert Ed. generalize data0. induction ps as [| p ps IH]; intros d0 Ed; [discriminate |].
    simpl in Ed. unfold collect_part in Ed.
    repeat case_match; simpl in Ed; try discriminate; eauto.
  - exfalso. injection E as ->. unfold candidate_parts in Ec.
    repeat case_match; discriminate.
Qed.

(** A generated image identical to the one applied last is dropped: the
    state [generatedImage] does not change, so its effect does not run,
    and the canvas (with whatever was drawn on it since), the background
    image and the history stay as they are. *)
Theorem same_generated_image_is_not_applied_again
    (s : Home) (response : GenerateContentResponse)
    (ps : list Part) (blob : Blob) (img : string) :
  candidate_parts response = Normal ps ->
  Forall (fun b => is_Some b.(data)) (imageBlobs ps) ->
  last (imageBlobs ps) = Some blob ->
  blob.(data) = Some img ->
  JS.truthy img = true ->
  s.(generatedImage) = Some ("data:image/png;base64," +:+ img) ->
  exists s1,
    handleSubmit_settle (Fulfilled response) s = Done s1
    /\ afterRender s s1 = s1
    /\ s1.(canvasRef) = s.(canvasRef)
    /\ s1.(backgroundImageRef) = s.(backgroundImageRef)
    /\ s1.(historyState) = s.(historyState)
    /\ s1.(alerts) = s.(alerts)
    /\ s1.(showErrorModal) = s.(showErrorModal).
Proof.
  intros Hps Hall Hlast Hdata Himg Hsame.
  destruct (collect_parts_last_image ps data0 Hall) as (d & Ed & Sd & Id).
  rewrite Hlast, Hdata in Id. simpl in Sd.
  exists (setIsLoading false (setGeneratedImage (Some ("data:image/png;base64," +:+ img)) s)).
  split.
  - unfold handleSubmit_settle, try_catch_finally, handleSubmit_resume. simpl.
    rewrite Hps. simpl. rewrite Ed. simpl. rewrite Sd, Id. simpl. rewrite Himg.
    reflexivity.
  - split; [| repeat split].
    unfold afterRender. simpl. rewrite Hsame, same_refl. reflexivity.
Qed.

End MoreLoop.

Section LoopInvariants.
Context `{Encoder : PngEncoder} `{Decoder : ImageDecoder}.

Lemma toDataURL_png (c : Canvas) :
  c.(width) = 960 -> c.(height) = 540 ->
  startsWith pngUrlPrefix (toDataURL c) = true.
Proof. intros Hw Hh. unfold toDataURL. rewrite Hw, Hh. reflexivity. Qed.

Lemma pushSnapshot_png (c : Canvas) (h : HistoryState) :
  c.(width) = 960 -> c.(height) = 540 ->
  Forall (fun d => startsWith pngUrlPrefix d = true) h.(stack) ->
  Forall (fun d => startsWith pngUrlPrefix d = true) (pushSnapshot (toDataURL c) h).(stack).
Proof.
  intros Hw Hh Hall. unfold pushSnapshot, JS.slice0. simpl.
  apply Forall_app. split; [apply Forall_take, Hall |].
  constructor; [apply toDataURL_png; assumption | constructor].
Qed.

Lemma pushSnapshot_grows_by_at_most_one (d : string) (h : HistoryState) :
  (length (pushSnapshot d h).(stack) <= S (length h.(stack)))%nat.
Proof.
  unfold pushSnapshot, JS.slice0. simpl. rewrite length_app, length_take. simpl. lia.
Qed.

Lemma quiet_refl (s : Home) : quiet s s.
Proof. unfold quiet. repeat split; auto. Qed.

Lemma saveCanvasState_quiet (s : Home) : quiet s (saveCanvasState s).
Proof.
  unfold saveCanvasState. destruct (canvasRef s) as [c |] eqn:Hc; [| apply quiet_refl].
  unfold quiet, canvasSize. simpl. rewrite Hc. simpl.
  split; [reflexivity |]. split; [reflexivity |].
  intros [= Hw Hh] Hall. apply pushSnapshot_png; assumption.
Qed.

Lemma quiet_trans (s1 s2 s3 : Home) : quiet s1 s2 -> quiet s2 s3 -> quiet s1 s3.
Proof.
  intros (A1 & B1 & C1) (A2 & B2 & C2).
  unfold quiet. split; [congruence |]. split; [congruence |].
  intros Hs Hall. apply C2; [congruence | apply C1; assumption].
Qed.

(** A change of the canvas that keeps its size, or of a cell other than
    the canvas, the busy flag and the history. *)
Lemma quiet_by_fields (s s' : Home) :
  canvasSize s' = canvasSize s ->
  s'.(isLoading) = s.(isLoading) ->
  s'.(historyState) = s.(historyState) ->
  quiet s s'.
Proof. intros A B C. unfold quiet. rewrite A, B, C. auto. Qed.

Lemma restoreCanvasState_quiet (d : option string) (s : Home) :
  quiet s (restoreCanvasState d s).
Proof. apply quiet_by_fields; unfold canvasSize; handler_cases. Qed.

Lemma startDrawing_quiet e rect (s : Home) : quiet s (startDrawing e rect s).
Proof. apply quiet_by_fields; unfold canvasSize; handler_cases. Qed.

Lemma draw_quiet e rect (s : Home) : quiet s (draw e rect s).
Proof. apply quiet_by_fields; unfold canvasSize; handler_cases. Qed.

Lemma drawImageToCanvas_quiet (s : Home) : quiet s (drawImageToCanvas s).
Proof. apply quiet_by_fields; unfold canvasSize; handler_cases. Qed.

Lemma stopDrawing_quiet (s : Home) : quiet s (stopDrawing s).
Proof.
  unfold stopDrawing. destruct (negb _); [apply quiet_refl |].
  eapply quiet_trans; [| apply saveCanvasState_quiet].
  apply quiet_by_fields; reflexivity.
Qed.

Lemma clearCanvas_quiet (s : Home) : quiet s (clearCanvas s).
Proof.
  unfold clearCanvas. destruct (canvasRef s) as [c |] eqn:Hc; [| apply quiet_refl].
  eapply quiet_trans; [| apply quiet_by_fields; reflexivity].
  eapply quiet_trans; [| apply saveCanvasState_quiet].
  apply quiet_by_fields; unfold canvasSize; simpl; rewrite ?Hc; reflexivity.
Qed.

Lemma handleImageImport_quiet file (s : Home) : quiet s (handleImageImport file s).
Proof.
  unfold handleImageImport. destruct file as [img |]; [| apply quiet_refl].
  destruct (canvasRef s) as [c |] eqn:Hc; [| apply quiet_refl].
  eapply quiet_trans; [| apply quiet_by_fields; reflexivity].
  eapply quiet_trans; [| apply saveCanvasState_quiet].
  apply quiet_by_fields; unfold canvasSize; simpl; rewrite ?Hc; reflexivity.
Qed.

Lemma handleUndo_quiet (s : Home) : quiet s (handleUndo s).
Proof.
  unfold quiet. split; [unfold canvasSize; handler_cases |].
  split; [handler_cases |].
  intros _ Hall. pose proof (handleUndo_history s) as E.
  rewrite E. destruct (_ <=? 0); exact Hall.
Qed.

Lemma handleRedo_quiet (s : Home) : quiet s (handleRedo s).
Proof.
  unfold quiet. split; [unfold canvasSize; handler_cases |].
  split; [handler_cases |].
  intros _ Hall. pose proof (handleRedo_history s) as E.
  rewrite E. destruct (_ >=? _); exact Hall.
Qed.

Lemma generatedImage_effect_quiet (s : Home) : quiet s (generatedImage_effect s).
Proof.
  unfold generatedImage_effect.
  destruct (generatedImage s) as [url |]; [| apply quiet_refl].
  destruct (canvasRef s) as [c |] eqn:Hc; [| apply quiet_refl].
  destruct (JS.truthy url); [| apply quiet_refl].
  destruct (decodes url); [| apply quiet_refl].
  eapply quiet_trans; [| apply saveCanvasState_quiet].
  eapply quiet_trans; [| apply drawImageToCanvas_quiet].
  apply quiet_by_fields; reflexivity.
Qed.

Lemma afterRender_quiet (s s' : Home) : quiet s' (afterRender s s').
Proof.
  unfold afterRender. destruct (JS.same _ _); [apply quiet_refl |].
  apply generatedImage_effect_quiet.
Qed.

Lemma mount_loop_ok (key : option string) : loop_ok (boot key).
Proof.
  unfold loop_ok, boot, mount. simpl.
  destruct (JS.truthy_opt key); simpl;
    (split; [reflexivity |]; split;
     [constructor; [reflexivity | constructor] |];
     split; [discriminate | intros [? ?]; discriminate]).
Qed.

Lemma quiet_loop_ok (w : World) (s' : Home) :
  quiet w.(home) s' -> loop_ok w -> loop_ok {| home := s'; pending := w.(pending) |}.
Proof.
  intros (A & B & C) (Hs & Hp & Hb). unfold loop_ok. simpl.
  rewrite A, B. split; [exact Hs |]. split; [apply C; assumption | exact Hb].
Qed.

Lemma handle_loop_ok (ev : Event) (w : World) : loop_ok w -> loop_ok (handle ev w).
Proof.
  intros L. destruct ev; simpl; unfold with_home;
    try (apply quiet_loop_ok; [| exact L]).
  - apply startDrawing_quiet.
  - apply draw_quiet.
  - apply stopDrawing_quiet.
  - apply clearCanvas_quiet.
  - apply handleUndo_quiet.
  - apply handleRedo_quiet.
  - apply handleImageImport_quiet.
  - apply quiet_by_fields; reflexivity.
  - apply quiet_by_fields; reflexivity.
  - apply quiet_by_fields; reflexivity.
  - destruct (isLoading (home w)) eqn:Hl; simpl; [exact L |].
    destruct (negb (JS.truthy (prompt (home w)))); [exact L |].
    destruct L as (Hs & Hp & Hb).
    unfold handleSubmit_start.
    destruct (negb (JS.truthy (apiKey (home w)))); simpl.
    + unfold loop_ok. simpl. split; [exact Hs |]. split; [exact Hp |].
      rewrite Hl. split; [discriminate | intros [? ?]; discriminate].
    + destruct (canvasRef (home w)) as [c |] eqn:Hc; unfold loop_ok; simpl.
      * split; [unfold canvasSize in *; simpl; rewrite Hc in *; exact Hs |].
        split; [exact Hp |]. split; eauto.
      * split; [exact Hs |]. split; [exact Hp |].
        rewrite Hl. split; [discriminate | intros [? ?]; discriminate].
  - destruct (pending w) eqn:Hpend; [| exact L].
    destruct (handleSubmit_settle_state o (home w)) as (Hl & Hc & _ & Hh).
    destruct L as (Hs & Hp & Hb).
    destruct (handleSubmit_settle o (home w)) as [s' | e s'];
      unfold loop_ok, canvasSize in *; simpl in *; rewrite Hl, Hc, Hh;
      (split; [exact Hs |]; split; [exact Hp |];
       split; [discriminate | intros [? ?]; discriminate]).
Qed.

Lemma step_loop_ok (w : World) (ev : Event) : loop_ok w -> loop_ok (step w ev).
Proof.
  intros L. unfold step.
  pose proof (handle_loop_ok ev w L) as L'.
  apply (quiet_loop_ok (handle ev w) _ (afterRender_quiet _ _) L').
Qed.

Lemma run_loop_ok (evs : list Event) (w : World) : loop_ok w -> loop_ok (run evs w).
Proof.
  revert w. induction evs as [| ev evs IH]; intros w L; [exact L |].
  simpl. apply IH, step_loop_ok, L.
Qed.

(** From mounting on, whatever happens, the canvas stays 960 x 540, every
    snapshot in the history is a PNG data URL, and the busy flag is up
    exactly while a request is pending; a submission attempted while one
    is pending sends nothing and changes nothing. *)
Theorem loop_keeps_size_snapshots_and_single_request
    (key : option string) (evs : list Event) :
  let w := run evs (boot key) in
  canvasSize w.(home) = Some (960, 540)
  /\ Forall (fun d => startsWith pngUrlPrefix d = true) w.(home).(historyState).(stack)
  /\ (w.(home).(isLoading) = true <-> is_Some w.(pending))
  /\ (is_Some w.(pending) -> step w SubmitForm = w).
Proof.
  intros w. destruct (run_loop_ok evs (boot key) (mount_loop_ok key)) as (Hs & Hp & Hb).
  fold w in Hs, Hp, Hb.
  split; [exact Hs |]. split; [exact Hp |]. split; [exact Hb |].
  intros Hpend. apply Hb in Hpend.
  unfold step. simpl. rewrite Hpend. simpl.
  unfold afterRender. rewrite same_refl. destruct w; reflexivity.
Qed.

End LoopInvariants.

Section LoopGrowth.
Context `{Encoder : PngEncoder} `{Decoder : ImageDecoder}.

Lemma afterRender_idle (s s' : Home) :
  s'.(generatedImage) = None \/ s'.(generatedImage) = s.(generatedImage) ->
  afterRender s s' = s'.
Proof.
  intros [Hn | He]; unfold afterRender.
  - destruct (JS.same _ _); [reflexivity |].
    unfold generatedImage_effect. rewrite Hn. reflexivity.
  - rewrite He, same_refl. reflexivity.
Qed.

Lemma generatedImage_effect_grows (s : Home) :
  (snapshots (generatedImage_effect s) <= S (snapshots s))%nat.
Proof.
  unfold snapshots. handler_cases; try lia.
  all: apply pushSnapshot_grows_by_at_most_one.
Qed.

Lemma step_grows_by_at_most_one (w : World) (ev : Event) :
  (snapshots (step w ev).(home) <= S (snapshots w.(home)))%nat.
Proof.
  unfold step. destruct ev; simpl.
  - rewrite afterRender_idle by (right; handler_cases).
    unfold snapshots; handler_cases; lia.
  - rewrite afterRender_idle by (right; handler_cases).
    unfold snapshots; handler_cases; lia.
  - rewrite afterRender_idle by (right; handler_cases).
    unfold snapshots; handler_cases; try lia.
    all: apply pushSnapshot_grows_by_at_most_one.
  - rewrite afterRender_idle by (unfold clearCanvas; case_match; simpl; auto).
    unfold snapshots; handler_cases; try lia.
    all: apply pushSnapshot_grows_by_at_most_one.
  - rewrite afterRender_idle by (right; apply handleUndo_generatedImage).
    unfold snapshots. rewrite handleUndo_history. case_match; simpl; lia.
  - rewrite afterRender_idle by (right; apply handleRedo_generatedImage).
    unfold snapshots. rewrite handleRedo_history. case_match; simpl; lia.
  - rewrite afterRender_idle by (unfold handleImageImport; repeat case_match; simpl; auto).
    unfold snapshots; handler_cases; try lia.
    all: apply pushSnapshot_grows_by_at_most_one.
  - rewrite afterRender_idle by (right; reflexivity). unfold snapshots. simpl. lia.
  - rewrite afterRender_idle by (right; reflexivity). unfold snapshots. simpl. lia.
  - rewrite afterRender_idle by (right; reflexivity). unfold snapshots. simpl. lia.
  - destruct (_ || _); simpl.
    + rewrite afterRender_idle by (right; reflexivity). lia.
    + pose proof (handleSubmit_start_keeps (home w)) as [_ Hh].
      destruct (handleSubmit_start (home w)) as [s1 req] eqn:E. simpl in *.
      assert (Hg : generatedImage s1 = generatedImage (home w)).
      { unfold handleSubmit_start in E. repeat case_match; simplify_eq/=; reflexivity. }
      rewrite afterRender_idle by (right; exact Hg).
      unfold snapshots. rewrite Hh. lia.
  - destruct (pending w); simpl.
    + destruct (handleSubmit_settle_state o (home w)) as (_ & _ & _ & Hh).
      destruct (handleSubmit_settle o (home w)) as [s' | e s']; simpl in *;
        unfold afterRender; destruct (JS.same _ _).
      * unfold snapshots. rewrite Hh. lia.
      * pose proof (generatedImage_effect_grows s') as G.
        unfold snapshots in *. rewrite Hh in G. exact G.
      * unfold snapshots. rewrite Hh. lia.
      * pose proof (generatedImage_effect_grows s') as G.
        unfold snapshots in *. rewrite Hh in G. exact G.
    + rewrite afterRender_idle by (right; reflexivity). lia.
Qed.

(** The history starts with one snapshot and gains at most one per
    event: after [n] events it holds between 1 and [n + 1] snapshots. *)
Theorem history_gains_at_most_one_snapshot_per_event
    (key : option string) (evs : list Event) :
  (1 <= snapshots (run evs (boot key)).(home) <= 1 + length evs)%nat.
Proof.
  split.
  - destruct (run_well_formed evs (boot key) (mount_well_formed key)) as (_ & [Hn _] & _).
    unfold snapshots. destruct (stack _); [congruence | simpl; lia].
  - assert (G : forall evs w,
              (snapshots (run evs w).(home) <= snapshots w.(home) + length evs)%nat).
    { clear evs. intros evs. induction evs as [| ev evs IH]; intros w; simpl; [lia |].
      specialize (IH (step w ev)). pose proof (step_grows_by_at_most_one w ev). lia. }
    specialize (G evs (boot key)).
    assert (B : snapshots (home (boot key)) = 1%nat).
    { unfold boot, mount, snapshots. simpl. destruct (JS.truthy_opt key); reflexivity. }
    lia.
Qed.

End LoopGrowth.

Section KeyDialogFacts.
Context `{Encoder : PngEncoder} `{Decoder : ImageDecoder}.

Lemma trimStart_idem (s : string) : JSText.trimStart (JSText.trimStart s) = JSText.trimStart s.
Proof.
  induction s as [| c r IH]; simpl; [reflexivity |].
  destruct (JSText.isSpace c) eqn:E; [exact IH |]. simpl. rewrite E. reflexivity.
Qed.

Lemma trimEnd_idem (s : string) : JSText.trimEnd (JSText.trimEnd s) = JSText.trimEnd s.
Proof.
  induction s as [| c r IH]; simpl; [reflexivity |].
  destruct (JSText.trimEnd r) as [| c' r'] eqn:E.
  - destruct (JSText.isSpace c) eqn:Ec; simpl; [reflexivity |]. rewrite Ec. reflexivity.
  - change (JSText.trimEnd (String c (String c' r')))
      with (match JSText.trimEnd (String c' r') with
            | EmptyString => if JSText.isSpace c then EmptyString else String c EmptyString
            | String c'' r'' => String c (String c'' r'')
            end).
    rewrite IH. reflexivity.
Qed.

(** A string that does not start with a space still does not after
    [trimEnd]. *)
Lemma trimStart_trimEnd (s : string) :
  JSText.trimStart s = s -> JSText.trimStart (JSText.trimEnd s) = JSText.trimEnd s.
Proof.
  destruct s as [| c r]; [reflexivity |]. simpl.
  destruct (JSText.isSpace c) eqn:Ec.
  - intros Hbad. exfalso.
    assert (L : forall t, (String.length (JSText.trimStart t) <= String.length t)%nat).
    { induction t as [| a t IHt]; simpl; [lia |]. destruct (JSText.isSpace a); simpl; lia. }
    specialize (L r). rewrite Hbad in L. simpl in L. lia.
  - intros _. destruct (JSText.trimEnd r); simpl; rewrite Ec; reflexivity.
Qed.

Lemma trim_idem (s : string) : JSText.trim (JSText.trim s) = JSText.trim s.
Proof.
  unfold JSText.trim.
  rewrite (trimStart_trimEnd (JSText.trimStart s) (trimStart_idem s)).
  apply trimEnd_idem.
Qed.

Lemma trimStart_spaces (s : string) :
  forallb JSText.isSpace (list_ascii_of_string s) = true -> JSText.trimStart s = "".
Proof.
  induction s as [| c r IH]; simpl; [reflexivity |].
  intros Hall. apply andb_prop in Hall. destruct Hall as [Hc Hr].
  rewrite Hc. apply IH, Hr.
Qed.

(** Saving a key that has something besides white space stores it
    trimmed, sets it as the key and closes the dialog without touching the
    canvas or the history; the stored text is not empty and trimming it
    again changes nothing; and a later mount reads the same key back, keeps
    the dialog closed and lets a submission go out. *)
Theorem saved_key_is_read_back_at_mount (s : Home) (d : KeyDialog) :
  JS.truthy (JSText.trim d.(tempApiKey)) = true ->
  let key := JSText.trim d.(tempApiKey) in
  let s' := (handleApiKeySave s d).1 in
  let d' := (handleApiKeySave s d).2 in
  s'.(apiKey) = key
  /\ s'.(showApiKeyModal) = false
  /\ s'.(canvasRef) = s.(canvasRef)
  /\ s'.(historyState) = s.(historyState)
  /\ d'.(storedKey) = Some key
  /\ key <> ""
  /\ JSText.trim key = key
  /\ (mount d'.(storedKey)).(apiKey) = key
  /\ (mount d'.(storedKey)).(showApiKeyModal) = false
  /\ (mountKeyDialog d'.(storedKey)).(tempApiKey) = key
  /\ is_Some (handleSubmit_start (mount d'.(storedKey))).2.
Proof.
  intros Hk key s' d'. subst key s' d'.
  unfold handleApiKeySave. rewrite Hk. simpl.
  repeat split.
  - intros E. rewrite E in Hk. discriminate.
  - apply trim_idem.
  - unfold mount. simpl. rewrite Hk. reflexivity.
  - unfold mount. simpl. rewrite Hk. reflexivity.
  - unfold mountKeyDialog. simpl. rewrite Hk. reflexivity.
  - unfold mount. simpl. rewrite Hk. simpl.
    unfold handleSubmit_start. simpl. rewrite Hk. simpl. eauto.
Qed.

(** Saving a key made of white space only (or an empty one) does
    nothing: the key, the dialog and the stored item stay as they are. *)
Theorem blank_key_is_not_saved (s : Home) (d : KeyDialog) :
  forallb JSText.isSpace (list_ascii_of_string d.(tempApiKey)) = true ->
  handleApiKeySave s d = (s, d).
Proof.
  intros Hall. unfold handleApiKeySave, JSText.trim.
  rewrite (trimStart_spaces _ Hall). reflexivity.
Qed.

(** After a save, opening the dialog again and saving without editing
    keeps the same key in the state and in the store. *)
Theorem resaving_the_key_keeps_it (s : Home) (d : KeyDialog) :
  JS.truthy (JSText.trim d.(tempApiKey)) = true ->
  let saved := handleApiKeySave s d in
  let reopened := openKeyDialog saved.1 saved.2 in
  let resaved := handleApiKeySave reopened.1 reopened.2 in
  reopened.2.(tempApiKey) = JSText.trim d.(tempApiKey)
  /\ resaved.1.(apiKey) = saved.1.(apiKey)
  /\ resaved.2.(storedKey) = saved.2.(storedKey)
  /\ resaved.1.(showApiKeyModal) = false.
Proof.
  intros Hk saved reopened resaved. subst saved reopened resaved.
  unfold handleApiKeySave at 3 4 5. unfold handleApiKeySave at 2. rewrite Hk. simpl.
  unfold handleApiKeySave. simpl. rewrite Hk. simpl.
  rewrite !trim_idem, Hk. simpl. rewrite ?trim_idem. repeat split.
Qed.

End KeyDialogFacts.

Section ErrorDisplayFacts.

Lemma prefix_ci_app (n s post : string) :
  JS.prefix_ci n s = true -> JS.prefix_ci n (s +:+ post) = true.
Proof.
  revert s. induction n as [| a n IH]; intros s Hp; [reflexivity |].
  destruct s as [| b s]; simpl in *; [discriminate |].
  apply andb_prop in Hp. destruct Hp as [Hab Hrest].
  rewrite Hab. simpl. apply IH, Hrest.
Qed.

Lemma test_ci_app_r (n s post : string) :
  JS.test_ci n s = true -> JS.test_ci n (s +:+ post) = true.
Proof.
  induction s as [| c s IH]; simpl; intros Ht.
  - rewrite orb_false_r in Ht. destruct n; [| discriminate].
    destruct post; reflexivity.
  - apply orb_prop in Ht. destruct Ht as [Hp | Hr].
    + change (String c (s +:+ post)) with (String c s +:+ post).
      rewrite (prefix_ci_app n (String c s) post Hp). reflexivity.
    + rewrite (IH Hr). apply orb_true_r.
Qed.

Lemma test_ci_app_l (n pre s : string) :
  JS.test_ci n s = true -> JS.test_ci n (pre +:+ s) = true.
Proof.
  intros Ht. induction pre as [| c pre IH]; simpl; [exact Ht |].
  rewrite IH. apply orb_true_r.
Qed.

Lemma test_ci_wrapped (n pre s post : string) :
  JS.test_ci n s = true -> JS.test_ci n (pre +:+ s +:+ post) = true.
Proof. intros Ht. apply test_ci_app_l, test_ci_app_r, Ht. Qed.

(** Text put before or after an error message never removes a help box:
    every box [ErrorDisplay] shows for a message it also shows for the
    message wrapped in other text. *)
Theorem help_boxes_survive_wrapping (pre msg post : string) (box : HelpBox) :
  In box (ErrorDisplay msg) -> In box (ErrorDisplay (pre +:+ msg +:+ post)).
Proof.
  unfold ErrorDisplay, isQuotaError, isHostError, isApiKeyError.
  intros Hin. apply in_app_or in Hin. apply in_or_app.
  destruct Hin as [Hin | Hin].
  - left.
    destruct (JS.test_ci "quota" msg || JS.test_ci "origin is not allowed" msg) eqn:E;
      [| destruct Hin].
    apply orb_prop in E.
    destruct E as [E | E]; rewrite (test_ci_wrapped _ pre msg post E);
      rewrite ?orb_true_r; exact Hin.
  - right.
    destruct (JS.test_ci "API key not valid" msg) eqn:E; [| destruct Hin].
    rewrite (test_ci_wrapped _ pre msg post E). exact Hin.
Qed.

Lemma afterFirst_skips (pre rest : string) :
  forallb (fun c => negb (Ascii.eqb c "[")) (list_ascii_of_string pre) = true ->
  JSText.afterFirst googleErrorMarker (pre +:+ rest) =
    JSText.afterFirst googleErrorMarker rest.
Proof.
  induction pre as [| c pre IH]; intros Hall; [reflexivity |].
  cbn [list_ascii_of_string forallb] in Hall.
  apply andb_prop in Hall. destruct Hall as [Hc Hrest].
  unfold googleErrorMarker in *.
  cbn [String.append JSText.afterFirst JSText.stripPrefix].
  rewrite Ascii.eqb_sym. destruct (Ascii.eqb c "[") eqn:E; [discriminate |].
  apply IH, Hrest.
Qed.

Lemma afterFirst_marker (t : string) :
  JSText.afterFirst googleErrorMarker (googleErrorMarker +:+ t) = Some t.
Proof. reflexivity. Qed.

(** For a message that carries the SDK marker after text without an
    opening bracket, [parseGoogleError] gives what follows the marker on
    that line, trimmed, whatever [JSON.parse] would make of the message;
    it never looks past the end of that line. *)
Theorem marker_text_is_extracted
    (json : string -> option string) (pre text more : string) :
  forallb (fun c => negb (Ascii.eqb c "[")) (list_ascii_of_string pre) = true ->
  JS.truthy (JSText.restOfLine text) = true ->
  JSText.restOfLine text = text ->
  parseGoogleError json (pre +:+ googleErrorMarker +:+ text) = JSText.trim text
  /\ parseGoogleError json (pre +:+ googleErrorMarker +:+ text +:+ String "010" more)
       = JSText.trim text.
Proof.
  intros Hpre Htruthy Hline.
  assert (Hline' : JSText.restOfLine (text +:+ String "010" more) = text).
  { rewrite <- Hline at 2. clear.
    induction text as [| c t IH]; simpl; [reflexivity |].
    destruct (Ascii.eqb c "010" || Ascii.eqb c "013"); [reflexivity |].
    rewrite IH. reflexivity. }
  unfold parseGoogleError. split.
  - rewrite afterFirst_skips by exact Hpre.
    rewrite afterFirst_marker. cbv beta iota zeta.
    rewrite Htruthy, Hline. reflexivity.
  - rewrite afterFirst_skips by exact Hpre.
    rewrite afterFirst_marker. cbv beta iota zeta.
    rewrite Hline'. rewrite Hline in Htruthy. rewrite Htruthy. reflexivity.
Qed.

End ErrorDisplayFacts.

(* ------------------------------------------------------------------ *)
(** ** Further instances at concrete states *)

Section MoreExamples.
Local Existing Instance referenceEncoder.
Local Existing Instance referenceDecoder.

(** After one stroke: undo, then redo. *)
Lemma undo_then_redo_witness :
  well_formed afterOneStroke
  /\ (handleRedo (handleUndo afterOneStroke)).(historyState) = afterOneStroke.(historyState).
Proof.
  pose proof afterOneStroke_well_formed as W.
  destruct (undo_then_redo_returns afterOneStroke W) as [U _].
  destruct (U eq_refl) as [Hh _].
  split; [exact W | exact Hh].
Defined.

(** After one stroke: five undos stop at index 0, five redos at index 1. *)
Lemma repeated_undo_redo_witness :
  history_ok afterOneStroke.(historyState)
  /\ (Nat.iter 5 handleUndo afterOneStroke).(historyState).(index) = 0
  /\ (Nat.iter 5 handleRedo afterOneStroke).(historyState).(index) = 1.
Proof.
  destruct afterOneStroke_well_formed as (_ & Hok & _).
  destruct (repeated_undo_redo_saturate afterOneStroke 5 Hok) as [Hu Hr].
  split; [exact Hok |].
  split; [exact (f_equal index Hu) | exact (f_equal index Hr)].
Defined.

(** After one stroke the index is 1: one undo finds its button enabled,
    a second one does not. *)
Lemma k_undos_witness :
  0 <= afterOneStroke.(historyState).(index)
  /\ (forall j : nat, (j < 1)%nat ->
        undoDisabled (Nat.iter j handleUndo afterOneStroke) = false)
  /\ ~ (forall j : nat, (j < 2)%nat ->
         undoDisabled (Nat.iter j handleUndo afterOneStroke) = false).
Proof.
  assert (Hi : 0 <= afterOneStroke.(historyState).(index)) by (vm_compute; discriminate).
  assert (H1 : Z.of_nat 1 <= afterOneStroke.(historyState).(index))
    by (vm_compute; discriminate).
  assert (H2 : ~ Z.of_nat 2 <= afterOneStroke.(historyState).(index))
    by (vm_compute; intros H; apply H; reflexivity).
  split; [exact Hi |]. split.
  - exact (proj2 (k_undos_take_effect_iff_within_index afterOneStroke 1 Hi) H1).
  - intros Hall. apply H2.
    exact (proj1 (k_undos_take_effect_iff_within_index afterOneStroke 2 Hi) Hall).
Defined.

(** A photo of 1080 x 1920 pixels is scaled by 540 / 1920. *)
Lemma narrower_ratio_witness :
  (0 < 1080 < 2 ^ 32) /\ (0 < 1920 < 2 ^ 32) /\ 1080 * 540 < 1920 * 960
  /\ (fitAndCenter (JS.num 960) (JS.num 540) (JS.num 1080) (JS.num 1920)).(ratio) =
       0.28125%float.
Proof.
  assert (H1 : 0 < 1080 < 2 ^ 32) by (split; reflexivity).
  assert (H2 : 0 < 1920 < 2 ^ 32) by (split; reflexivity).
  assert (H3 : 1080 * 540 < 1920 * 960) by reflexivity.
  split; [exact H1 |]. split; [exact H2 |]. split; [exact H3 |].
  rewrite (narrower_image_is_scaled_by_height 1080 1920 H1 H2 H3).
  vm_compute. reflexivity.
Defined.

(** After one stroke and a clear there is nothing to redo. *)
Lemma nothing_to_redo_witness :
  afterOneStroke.(canvasRef) <> None
  /\ handleRedo (clearCanvas afterOneStroke) = clearCanvas afterOneStroke.
Proof.
  split; [discriminate |].
  destruct (nothing_to_redo_after_commit afterOneStroke _
              {| img_src := "photo"; img_width := 176; img_height := 99 |} eq_refl)
    as (_ & Hclear & _).
  exact Hclear.
Defined.

(** After one stroke: a commit, then undo, then redo. *)
Lemma undo_after_commit_witness :
  well_formed afterOneStroke
  /\ (handleUndo (saveCanvasState afterOneStroke)).(historyState).(index) = 1
  /\ (handleRedo (handleUndo (saveCanvasState afterOneStroke))).(historyState).(index) = 2.
Proof.
  pose proof afterOneStroke_well_formed as W.
  destruct (undo_after_commit_shows_previous afterOneStroke _ W eq_refl eq_refl)
    as (Hu & _ & Hr & _).
  split; [exact W |].
  split; [exact (f_equal index Hu) | exact (f_equal index Hr)].
Defined.

(** A click on the canvas after one stroke. *)
Lemma click_witness :
  afterOneStroke.(canvasRef) <> None
  /\ bitmap <$> (stopDrawing (startDrawing (mouseEvent 10 10) halfSizeRect afterOneStroke)).(canvasRef)
     = bitmap <$> afterOneStroke.(canvasRef)
  /\ snapshots (stopDrawing (startDrawing (mouseEvent 10 10) halfSizeRect afterOneStroke)) = 3%nat.
Proof.
  split; [discriminate |].
  destruct (click_commits_unchanged_raster afterOneStroke _ (mouseEvent 10 10) halfSizeRect
              eq_refl) as (Hb & Hh & _).
  split; [exact Hb |].
  unfold snapshots. rewrite Hh. reflexivity.
Defined.

(** The download right after the stroke was committed. *)
Lemma download_witness :
  is_Some afterOneStroke.(canvasRef)
  /\ JS.nth (saveCanvasState afterOneStroke).(historyState).(stack)
       (saveCanvasState afterOneStroke).(historyState).(index)
     = Some "data:image/png;base64,iVBORw0KGgoBF".
Proof.
  assert (Hc : is_Some afterOneStroke.(canvasRef)) by (eexists; reflexivity).
  destruct (download_after_commit_is_current_snapshot afterOneStroke Hc) as [_ Hd].
  split; [exact Hc | exact Hd].
Defined.

(** A stroke started on the left edge of the fresh canvas and continued
    to (40, 60). *)
Lemma left_edge_witness :
  (mount None).(canvasRef) <> None
  /\ finite_point (getCoordinates canvasElement halfSizeRect (mouseEvent 20 30)) = true
  /\ path <$> (draw (mouseEvent 20 30) halfSizeRect
                 (startDrawing (mouseEvent 0 30) halfSizeRect (mount None))).(canvasRef)
     = Some [[ {| px := 40; py := 60 |} ]].
Proof.
  split; [discriminate |]. split; [reflexivity |].
  destruct (stroke_from_left_edge_loses_its_start (mount None) _ halfSizeRect 30 30
              (mouseEvent 20 30) eq_refl) as (_ & _ & _ & Hp).
  exact (Hp eq_refl).
Defined.

(** The blue image arrives a second time. *)
Lemma same_image_witness :
  afterGeneration.(generatedImage) = Some ("data:image/png;base64," +:+ bluePixel)
  /\ exists s1,
       handleSubmit_settle (Fulfilled twoImagesAndText) afterGeneration = Done s1
       /\ afterRender afterGeneration s1 = s1
       /\ s1.(historyState) = afterGeneration.(historyState).
Proof.
  split; [reflexivity |].
  destruct (same_generated_image_is_not_applied_again
              afterGeneration twoImagesAndText _ _ bluePixel
              eq_refl ltac:(repeat constructor; eexists; reflexivity)
              eq_refl eq_refl eq_refl eq_refl)
    as (s1 & Hs & Hr & _ & _ & Hh & _).
  exists s1. split; [exact Hs |]. split; [exact Hr | exact Hh].
Defined.

(** A key typed with spaces around it. *)
Lemma saved_key_witness :
  JS.truthy (JSText.trim paddedKey.(tempApiKey)) = true
  /\ (handleApiKeySave (mount None) paddedKey).1.(apiKey) = "my-key"
  /\ (mount (handleApiKeySave (mount None) paddedKey).2.(storedKey)).(apiKey) = "my-key".
Proof.
  split; [reflexivity |].
  destruct (saved_key_is_read_back_at_mount (mount None) paddedKey eq_refl)
    as (Hk & _ & _ & _ & _ & _ & _ & Hm & _).
  split; [exact Hk | exact Hm].
Defined.

Lemma blank_key_witness :
  forallb JSText.isSpace (list_ascii_of_string blankKey.(tempApiKey)) = true
  /\ handleApiKeySave (mount None) blankKey = (mount None, blankKey).
Proof.
  split; [reflexivity |].
  exact (blank_key_is_not_saved (mount None) blankKey eq_refl).
Defined.

Lemma resaving_witness :
  JS.truthy (JSText.trim paddedKey.(tempApiKey)) = true
  /\ (let saved := handleApiKeySave (mount None) paddedKey in
      let reopened := openKeyDialog saved.1 saved.2 in
      (handleApiKeySave reopened.1 reopened.2).2.(storedKey) = Some "my-key").
Proof.
  split; [reflexivity |].
  destruct (resaving_the_key_keeps_it (mount None) paddedKey eq_refl) as (_ & _ & Hs & _).
  exact Hs.
Defined.

(** A quota message inside the SDK's wrapping. *)
Lemma wrapping_witness :
  In PermissionOrQuotaHelp (ErrorDisplay "Quota exceeded")
  /\ In PermissionOrQuotaHelp
       (ErrorDisplay ("[GoogleGenerativeAI Error]: " +:+ "Quota exceeded" +:+ " for this key")).
Proof.
  assert (Hin : In PermissionOrQuotaHelp (ErrorDisplay "Quota exceeded"))
    by (left; reflexivity).
  split; [exact Hin |].
  exact (help_boxes_survive_wrapping "[GoogleGenerativeAI Error]: " "Quota exceeded"
           " for this key" PermissionOrQuotaHelp Hin).
Defined.

(** The example message of the source's comment. *)
Lemma marker_witness :
  parseGoogleError (fun _ => None)
    ("Error: " +:+ googleErrorMarker +:+
       "[400] API key not valid. Please pass a valid API key.")
  = "[400] API key not valid. Please pass a valid API key.".
Proof.
  destruct (marker_text_is_extracted (fun _ => None) "Error: "
              "[400] API key not valid. Please pass a valid API key." "at fetch"
              eq_refl eq_refl eq_refl) as [Hm _].
  exact Hm.
Defined.

(** A prompt is typed and submitted; a second submission while the
    first is pending changes nothing. *)
Lemma single_request_witness :
  let w := run [TypePrompt "add a hat"; SubmitForm] (boot (Some "key")) in
  is_Some w.(pending)
  /\ w.(home).(isLoading) = true
  /\ step w SubmitForm = w.
Proof.
  destruct (loop_keeps_size_snapshots_and_single_request
              (Some "key") [TypePrompt "add a hat"; SubmitForm])
    as (_ & _ & Hb & Hs).
  assert (Hp : is_Some (run [TypePrompt "add a hat"; SubmitForm] (boot (Some "key"))).(pending))
    by (eexists; reflexivity).
  split; [exact Hp |]. split; [exact (proj2 Hb Hp) | exact (Hs Hp)].
Defined.

End MoreExamples.

(* ------------------------------------------------------------------ *)
(** ** Failures of the generation call *)

Section FailureClaims.
Context `{Encoder : PngEncoder} `{Decoder : ImageDecoder}.

Lemma prefix_ci_mentions (n s : string) :
  JS.prefix_ci n s = true <->
  exists mid post, s = mid +:+ post /\ same_letters mid n.
Proof.
  revert s. induction n as [| a n IH]; intros s.
  - split; [| reflexivity]. intros _. exists "", s. split; reflexivity.
  - destruct s as [| b s].
    + split; [discriminate |]. intros (mid & post & E & L).
      destruct mid; [discriminate L | discriminate E].
    + cbn [JS.prefix_ci]. rewrite andb_true_iff, IH. split.
      * intros [Hab (mid & post & -> & L)]. exists (String b mid), post.
        split; [reflexivity |]. apply Ascii.eqb_eq in Hab.
        unfold same_letters in *. cbn [list_ascii_of_string map]. congruence.
      * intros (mid & post & E & L). destruct mid as [| c mid]; [discriminate L |].
        cbn [String.append] in E. injection E as -> ->.
        unfold same_letters in L. cbn [list_ascii_of_string map] in L.
        injection L as Hc L. split.
        -- rewrite Hc. apply Ascii.eqb_refl.
        -- exists mid, post. split; [reflexivity | exact L].
Qed.

(** The case-insensitive search of the source finds exactly the
    messages that mention the needle. *)
Lemma test_ci_mentions (n s : string) : JS.test_ci n s = true <-> mentions n s.
Proof.
  split.
  - induction s as [| c s IH]; cbn [JS.test_ci]; intros Ht;
      apply orb_prop in Ht; destruct Ht as [Hp | Hr].
    + apply prefix_ci_mentions in Hp. destruct Hp as (mid & post & E & L).
      exists "", mid, post. split; assumption.
    + discriminate.
    + apply prefix_ci_mentions in Hp. destruct Hp as (mid & post & E & L).
      exists "", mid, post. split; assumption.
    + destruct (IH Hr) as (pre & mid & post & -> & L).
      exists (String c pre), mid, post. split; [reflexivity | exact L].
  - intros (pre & mid & post & -> & L). apply test_ci_app_l.
    assert (Hp : JS.prefix_ci n (mid +:+ post) = true).
    { apply prefix_ci_mentions. exists mid, post. split; [reflexivity | exact L]. }
    destruct (mid +:+ post); cbn [JS.test_ci]; rewrite Hp; reflexivity.
Qed.

(** C8, as the code has it.  When the call is rejected with an error
    value, or answers with a response that cannot be read, so that the
    [try] block throws, the error is caught and the handler returns: the
    error dialog is opened on the error's message (a default text if it
    has none), and [ErrorDisplay] classifies it by what the message
    mentions: the permission-or-quota help is shown exactly when it
    mentions "quota" or "origin is not allowed", the invalid-key help
    exactly when it mentions "API key not valid".  When the response can
    be read but has no image part with data (or the last one has empty
    data), the failure is reported by [alert] only, and the error dialog
    and its message stay as they were.  In both cases the busy flag is
    cleared, the canvas, the background image and the history are the
    ones from before, and no effect runs afterwards. *)
Theorem failure_is_reported_and_leaves_raster_and_history (s : Home) (o : Outcome) :
  (forall e : JSError,
     handleSubmit_resume o s = Throw (ThrownError e) ->
     let msg := if JS.truthy e.(message) then e.(message)
                else "An unexpected error occurred." in
     let s' := setIsLoading false (setShowErrorModal true (setErrorMessage msg s)) in
     handleSubmit_settle o s = Done s'
     /\ afterRender s s' = s'
     /\ s'.(canvasRef) = s.(canvasRef)
     /\ s'.(backgroundImageRef) = s.(backgroundImageRef)
     /\ s'.(historyState) = s.(historyState)
     /\ s'.(isLoading) = false
     /\ errorModal s' = Some (msg, ErrorDisplay msg)
     /\ (In PermissionOrQuotaHelp (ErrorDisplay msg) <->
         mentions "quota" msg \/ mentions "origin is not allowed" msg)
     /\ (In InvalidApiKeyHelp (ErrorDisplay msg) <-> mentions "API key not valid" msg))
  /\ (forall e : JSError, handleSubmit_resume (Rejected e) s = Throw (ThrownError e))
  /\ (forall (response : GenerateContentResponse) (ps : list Part),
       o = Fulfilled response ->
       candidate_parts response = Normal ps ->
       Forall (fun b => is_Some b.(data)) (imageBlobs ps) ->
       (forall b, last (imageBlobs ps) = Some b -> b.(data) = Some "") ->
       let s' := setIsLoading false
                   (alert "Failed to generate image. Please try again." s) in
       handleSubmit_settle o s = Done s'
       /\ afterRender s s' = s'
       /\ s'.(canvasRef) = s.(canvasRef)
       /\ s'.(backgroundImageRef) = s.(backgroundImageRef)
       /\ s'.(historyState) = s.(historyState)
       /\ s'.(isLoading) = false
       /\ s'.(showErrorModal) = s.(showErrorModal)
       /\ s'.(errorMessage) = s.(errorMessage)
       /\ s'.(alerts) = s.(alerts) ++ ["Failed to generate image. Please try again."]).
Proof.
  split; [| split].
  - intros e Hthrow msg s'.
    split.
    { unfold handleSubmit_settle, try_catch_finally. rewrite Hthrow. reflexivity. }
    split.
    { unfold afterRender. simpl. rewrite same_refl. reflexivity. }
    do 5 (split; [reflexivity |]).
    unfold ErrorDisplay, isQuotaError, isHostError, isApiKeyError.
    rewrite <- !test_ci_mentions.
    destruct (JS.test_ci "quota" msg), (JS.test_ci "origin is not allowed" msg),
      (JS.test_ci "API key not valid" msg); simpl; intuition congruence.
  - reflexivity.
  - intros response ps -> Hps Hall Hlast s'.
    destruct (collect_parts_last_image ps data0 Hall) as (d & Ed & Sd & Id).
    assert (Hno : JS.truthy_opt (imageData d) = false).
    { rewrite Id. destruct (last (imageBlobs ps)) as [b |]; [| reflexivity].
      rewrite (Hlast b eq_refl). reflexivity. }
    split.
    { unfold handleSubmit_settle, try_catch_finally, handleSubmit_resume. simpl.
      rewrite Hps. simpl. rewrite Ed. simpl. rewrite Hno, andb_false_r. reflexivity. }
    split; [| repeat split].
    unfold afterRender. simpl. rewrite same_refl. reflexivity.
Qed.

End FailureClaims.

(* ------------------------------------------------------------------ *)
(** ** Failures at concrete states *)

Section FailureExamples.
Local Existing Instance referenceEncoder.
Local Existing Instance referenceDecoder.

(** C8, counterexample.  The service answers with text only.  The
    failure is not surfaced as error state: the error dialog stays closed
    and its message empty; the user sees an [alert]. *)
Lemma response_without_image_records_no_error :
  let o := Fulfilled (responseOf [textPart "I cannot draw that"]) in
  exists s',
    handleSubmit_settle o afterOneStroke = Done s'
    /\ s'.(showErrorModal) = false
    /\ s'.(errorMessage) = ""
    /\ errorModal s' = None
    /\ s'.(alerts) = ["Failed to generate image. Please try again."].
Proof. eexists. split; [vm_compute; reflexivity |]. repeat split. Qed.

(** C8, witness: the call is rejected with a quota error, with an
    invalid-key error and with an error about the origin; the call
    answers with a response that has no [candidates]; and the call
    answers with text only. *)
Lemma failure_witness :
  (exists s',
     handleSubmit_settle (Rejected quotaError) afterOneStroke = Done s'
     /\ s'.(historyState) = afterOneStroke.(historyState)
     /\ errorModal s' = Some (quotaError.(message), [PermissionOrQuotaHelp]))
  /\ In InvalidApiKeyHelp (ErrorDisplay invalidKeyError.(message))
  /\ In PermissionOrQuotaHelp (ErrorDisplay hostError.(message))
  /\ (exists s',
       handleSubmit_settle (Fulfilled {| candidates := None |}) afterOneStroke = Done s'
       /\ s'.(historyState) = afterOneStroke.(historyState)
       /\ errorModal s' = Some ("Cannot read properties of undefined (reading '0')", []))
  /\ (exists s',
       handleSubmit_settle (Fulfilled (responseOf [textPart "I cannot draw that"]))
         afterOneStroke = Done s'
       /\ s'.(historyState) = afterOneStroke.(historyState)
       /\ s'.(showErrorModal) = false).
Proof.
  split; [| split; [| split; [| split]]].
  - destruct (failure_is_reported_and_leaves_raster_and_history
                afterOneStroke (Rejected quotaError)) as (Hthrown & _ & _).
    destruct (Hthrown quotaError eq_refl)
      as (Hs & _ & _ & _ & Hh & _ & He & _).
    eexists. split; [exact Hs |]. split; [exact Hh | exact He].
  - destruct (failure_is_reported_and_leaves_raster_and_history
                afterOneStroke (Rejected invalidKeyError)) as (Hthrown & _ & _).
    destruct (Hthrown invalidKeyError eq_refl)
      as (_ & _ & _ & _ & _ & _ & _ & _ & Hkey).
    apply Hkey. exists "[400] ", "API key not valid", ". Please pass a valid API key.".
    split; reflexivity.
  - destruct (failure_is_reported_and_leaves_raster_and_history
                afterOneStroke (Rejected hostError)) as (Hthrown & _ & _).
    destruct (Hthrown hostError eq_refl)
      as (_ & _ & _ & _ & _ & _ & _ & Hperm & _).
    apply Hperm. right. exists "[403] Requests from this ", "origin is not allowed", ".".
    split; reflexivity.
  - destruct (failure_is_reported_and_leaves_raster_and_history
                afterOneStroke (Fulfilled {| candidates := None |})) as (Hthrown & _ & _).
    destruct (Hthrown _ eq_refl)
      as (Hs & _ & _ & _ & Hh & _ & He & _).
    eexists. split; [exact Hs |]. split; [exact Hh | exact He].
  - destruct (failure_is_reported_and_leaves_raster_and_history
                afterOneStroke (Fulfilled (responseOf [textPart "I cannot draw that"])))
      as (_ & _ & Hnone).
    destruct (Hnone _ _ eq_refl eq_refl ltac:(constructor) ltac:(intros b; discriminate))
      as (Hs & _ & _ & _ & Hh & _ & Hm & _).
    eexists. split; [exact Hs |]. split; [exact Hh | exact Hm].
Defined.

(** The call is rejected with [undefined]: the [catch] block throws, no
    dialog is opened, and the busy flag is cleared all the same. *)
Lemma nullish_rejection_witness :
  handleSubmit_settle (RejectedNullish JSUndefined) afterOneStroke =
    Unhandled
      (ThrownError (TypeError "Cannot read properties of undefined (reading 'message')"))
      (setIsLoading false afterOneStroke)
  /\ errorModal (setIsLoading false afterOneStroke) = None.
Proof.
  destruct (submission_always_clears_busy_flag (RejectedNullish JSUndefined) afterOneStroke)
    as (_ & _ & _ & _ & Hn).
  split; [exact Hn | reflexivity].
Defined.

End FailureExamples.
